(** * FPL season optimiser: rule engine

    A shallow embedding of the deterministic rule engine of the
    repository and the properties its specification states about it:

    - [Validator]  : [backtester/fpl_validator.py]
    - [Scorer]     : [backtester/fpl_point_calculator.py]
    - [Utils]      : [optimiser/utils.py]
    - [Milp]       : [optimiser/milp/post_gw1_step1.py]
    - [MiniZinc]   : [optimiser/cp_minizinc/post_gw1_step1_minizinc.py]

    A pandas DataFrame is a list of rows in table order; a Python dict is
    a [gmap]; a Python exception is the left summand of the [py] monad. *)

From Stdlib Require Import ZArith QArith Qround Lia.
From stdpp Require Import base decidable option list sorting gmap strings pretty.

Local Open Scope Z_scope.
#[local] Set Warnings "-clear-no-such-hyp".

(** ** Python exceptions *)

Inductive PyExn : Type :=
  | KeyError
  | IndexError
  | ValueError (msg : string).

Definition py (A : Type) : Type := PyExn + A.

Definition raise {A : Type} (e : PyExn) : py A := inl e.

Global Instance py_ret : MRet py := λ A a, inr a.
Global Instance py_bind : MBind py := λ A B k m,
  match m with
  | inl e => inl e
  | inr a => k a
  end.

Abbreviation ret := (mret (M := py)).

(** [d[k]] on a dict. *)
Definition getitem {K V : Type} `{Countable K} (d : gmap K V) (k : K) : py V :=
  match d !! k with
  | Some v => ret v
  | None => raise KeyError
  end.

(** [df.iloc[0]] on a frame, [xs[i]] on a list. *)
Definition iloc0 {A : Type} (df : list A) : py A :=
  match df with
  | r :: _ => ret r
  | [] => raise IndexError
  end.

Definition list_getitem {A : Type} (xs : list A) (i : nat) : py A :=
  match xs !! i with
  | Some v => ret v
  | None => raise IndexError
  end.

(** ** Player table *)

Inductive Position : Type := GK | DEF | MID | FWD.

Global Instance Position_eq_dec : EqDecision Position.
Proof. solve_decision. Defined.

Definition position_name (p : Position) : string :=
  match p with
  | GK => "GK"
  | DEF => "DEF"
  | MID => "MID"
  | FWD => "FWD"
  end.

(** One row of the per-gameweek table.  Costs are tenths of a currency
    unit; [expected_points] is the column the optimiser adds. *)
Record Row : Type := mkRow {
  player_id : Z;
  name : string;
  position : Position;
  team : string;
  cost : Z;
  points : Z;
  minutes : Z;
  expected_points : Q
}.

Abbreviation DataFrame := (list Row).

(** [df[df['player_id'].isin(ids)]] *)
Definition isin (ids : list Z) (df : DataFrame) : DataFrame :=
  filter (λ r, player_id r ∈ ids) df.

(** [df[df['player_id'] == pid]] *)
Definition with_id (pid : Z) (df : DataFrame) : DataFrame :=
  filter (λ r, player_id r = pid) df.

(** [df['position'].value_counts().to_dict().get(pos, 0)] *)
Definition position_count (df : DataFrame) (pos : Position) : nat :=
  length (filter (λ r, position r = pos) df).

(** ** Stable sorting

    [sort_by before] is a stable insertion sort: [x] is put in front of
    the first [y] with [before x y].  Python's [sorted] is stable, also
    with [reverse=True]. *)

Section Sorting.
Context {A : Type} (before : A → A → bool).

Fixpoint insert_by (x : A) (l : list A) : list A :=
  match l with
  | [] => [x]
  | y :: l' => if before x y then x :: y :: l' else y :: insert_by x l'
  end.

Fixpoint sort_by (l : list A) : list A :=
  match l with
  | [] => []
  | x :: l' => insert_by x (sort_by l')
  end.
End Sorting.

(** [sorted(xs)] on integers. *)
Definition sorted_Z (xs : list Z) : list Z := sort_by Z.leb xs.

(** [series.value_counts()]: the distinct values with their number of
    occurrences, most frequent first (values of equal frequency in order
    of first appearance). *)
Fixpoint distinct (xs : list string) : list string :=
  match xs with
  | [] => []
  | x :: xs' => x :: filter (λ y, y ≠ x) (distinct xs')
  end.

Definition value_counts (xs : list string) : list (string * nat) :=
  sort_by (λ a b, Nat.leb (snd b) (snd a))
          (map (λ x, (x, length (filter (λ y, y = x) xs))) (distinct xs)).

(** ** Verdicts

    Both validators return the pair [(is_valid, error_message)]:
    [(True, "")] or [(False, reason)].  The reason is kept structured and
    rendered by a [*_message] function. *)

Inductive Verdict (E : Type) : Type :=
  | Valid
  | Invalid (reason : E).
Arguments Valid {E}.
Arguments Invalid {E} reason.

Definition is_valid {E : Type} (v : Verdict E) : bool :=
  match v with
  | Valid => true
  | Invalid _ => false
  end.

Definition error_message {E : Type} (render : E → string) (v : Verdict E) : string :=
  match v with
  | Valid => ""
  | Invalid r => render r
  end.

(** * backtester/fpl_validator.py *)

Module Validator.

(** *** validate_formation *)

Inductive FormationReason : Type :=
  | FormationGK (found : nat)
  | FormationDEF (found : nat)
  | FormationMID (found : nat)
  | FormationFWD (found : nat).

Definition formation_message (r : FormationReason) : string :=
  match r with
  | FormationGK gk => "Formation must have exactly 1 GK, found " +:+ pretty gk
  | FormationDEF defn => "Formation must have 3-5 DEF, found " +:+ pretty defn
  | FormationMID mid => "Formation must have 2-5 MID, found " +:+ pretty mid
  | FormationFWD fwd => "Formation must have 1-3 FWD, found " +:+ pretty fwd
  end.

Definition validate_formation (players_df : DataFrame) : Verdict FormationReason :=
  let gk := position_count players_df GK in
  let defn := position_count players_df DEF in
  let mid := position_count players_df MID in
  let fwd := position_count players_df FWD in
  let total := (gk + defn + mid + fwd)%nat in
  if negb (gk =? 1)%nat then Invalid (FormationGK gk)
  else if (defn <? 3)%nat || (5 <? defn)%nat then Invalid (FormationDEF defn)
  else if (4 <=? total)%nat && ((mid <? 2)%nat || (5 <? mid)%nat)
    then Invalid (FormationMID mid)
  else if (5 <=? total)%nat && ((fwd <? 1)%nat || (3 <? fwd)%nat)
    then Invalid (FormationFWD fwd)
  else Valid.

(** *** validate_team *)

Inductive TeamReason : Type :=
  | SquadSize (found : nat)
  | SquadQuota (pos : Position) (count actual : nat)
  | ClubLimit (violations : list (string * nat))
  | StartersSize (found : nat)
  | StartersGK (found : nat)
  | StartersDEF (found : nat)
  | StartersMID (found : nat)
  | StartersFWD (found : nat)
  | BenchSize (found : nat)
  | BenchKeys (found : list Z)
  | BenchSlot1NotFound (pid : Z)
  | BenchSlot1NotGK (found : Position)
  | BenchSlotNotFound (pos : Z) (pid : Z)
  | BenchSlotIsGK (pos : Z)
  | CaptainIsVice
  | CaptainNotStarter (captain_id : Z)
  | ViceNotStarter (vice_id : Z).

Definition join (sep : string) (xs : list string) : string :=
  match xs with
  | [] => ""
  | x :: xs' => foldl (λ acc y, acc +:+ sep +:+ y) x xs'
  end.

Definition list_repr (xs : list Z) : string :=
  "[" +:+ join ", " (map pretty xs) +:+ "]".

Definition team_message (r : TeamReason) : string :=
  match r with
  | SquadSize n => "Squad must have exactly 15 players, found " +:+ pretty n
  | SquadQuota pos count actual =>
      "Squad must have " +:+ pretty count +:+ " " +:+ position_name pos
        +:+ ", found " +:+ pretty actual
  | ClubLimit over_limit =>
      "Maximum 3 players per club. Violations: "
        +:+ join ", " (map (λ tc, fst tc +:+ ": " +:+ pretty (snd tc)) over_limit)
  | StartersSize n => "Starting XI must have exactly 11 players, found " +:+ pretty n
  | StartersGK gk => "Starting XI must have exactly 1 GK, found " +:+ pretty gk
  | StartersDEF defn => "Starting XI must have 3-5 DEF, found " +:+ pretty defn
  | StartersMID mid => "Starting XI must have 2-5 MID, found " +:+ pretty mid
  | StartersFWD fwd => "Starting XI must have 1-3 FWD, found " +:+ pretty fwd
  | BenchSize n => "Bench must have exactly 4 players, found " +:+ pretty n
  | BenchKeys ks => "Bench positions must be [1,2,3,4], found " +:+ list_repr ks
  | BenchSlot1NotFound pid =>
      "Bench position 1 player (ID: " +:+ pretty pid +:+ ") not found"
  | BenchSlot1NotGK p => "Bench position 1 must be GK, found " +:+ position_name p
  | BenchSlotNotFound pos pid =>
      "Bench position " +:+ pretty pos +:+ " player (ID: " +:+ pretty pid
        +:+ ") not found"
  | BenchSlotIsGK pos =>
      "Bench position " +:+ pretty pos +:+ " must be outfield player, found GK"
  | CaptainIsVice => "Captain and vice-captain must be different players"
  | CaptainNotStarter c => "Captain (ID: " +:+ pretty c +:+ ") must be in starting XI"
  | ViceNotStarter v => "Vice-captain (ID: " +:+ pretty v +:+ ") must be in starting XI"
  end.

(** [expected = {'GK': 2, 'DEF': 5, 'MID': 5, 'FWD': 3}], in insertion order. *)
Definition expected : list (Position * nat) :=
  [(GK, 2%nat); (DEF, 5%nat); (MID, 5%nat); (FWD, 3%nat)].

(** [for pos, count in expected.items(): ...] -- the first mismatch. *)
Fixpoint squad_quota (squad_df : DataFrame) (items : list (Position * nat))
  : option TeamReason :=
  match items with
  | [] => None
  | (pos, count) :: rest =>
      let actual := position_count squad_df pos in
      if negb (actual =? count)%nat then Some (SquadQuota pos count actual)
      else squad_quota squad_df rest
  end.

(** [for pos in [2, 3, 4]: ...] -- the first slot that is missing from
    the table or holds a goalkeeper. *)
Fixpoint bench_outfield (gw_df : DataFrame) (bench_ids : gmap Z Z) (slots : list Z)
  : py (option TeamReason) :=
  match slots with
  | [] => ret None
  | pos :: rest =>
      player_id ← getitem bench_ids pos;
      let player := with_id player_id gw_df in
      if (length player =? 0)%nat then ret (Some (BenchSlotNotFound pos player_id))
      else
        p0 ← iloc0 player;
        if bool_decide (position p0 = GK) then ret (Some (BenchSlotIsGK pos))
        else bench_outfield gw_df bench_ids rest
  end.

Definition validate_team (gw_df : DataFrame) (squad_ids starter_ids : list Z)
    (bench_ids : gmap Z Z) (captain_id vice_id : Z) : py (Verdict TeamReason) :=
  (* 1. squad size *)
  if negb (length squad_ids =? 15)%nat then ret (Invalid (SquadSize (length squad_ids)))
  else
  let squad_df := isin squad_ids gw_df in
  (* 2. squad composition *)
  match squad_quota squad_df expected with
  | Some r => ret (Invalid r)
  | None =>
  (* 3. max 3 players per club *)
  let team_counts := value_counts (map team squad_df) in
  let over_limit := filter (λ tc, (3 < snd tc)%nat) team_counts in
  if (0 <? length over_limit)%nat then ret (Invalid (ClubLimit over_limit))
  else
  (* 4. starting XI size *)
  if negb (length starter_ids =? 11)%nat
    then ret (Invalid (StartersSize (length starter_ids)))
  else
  let starters_df := isin starter_ids gw_df in
  (* 5. starting XI formation *)
  let gk := position_count starters_df GK in
  let defn := position_count starters_df DEF in
  let mid := position_count starters_df MID in
  let fwd := position_count starters_df FWD in
  if negb (gk =? 1)%nat then ret (Invalid (StartersGK gk))
  else if (defn <? 3)%nat || (5 <? defn)%nat then ret (Invalid (StartersDEF defn))
  else if (mid <? 2)%nat || (5 <? mid)%nat then ret (Invalid (StartersMID mid))
  else if (fwd <? 1)%nat || (3 <? fwd)%nat then ret (Invalid (StartersFWD fwd))
  else
  (* 6. bench configuration *)
  if negb (size bench_ids =? 4)%nat then ret (Invalid (BenchSize (size bench_ids)))
  else
  let keys := sorted_Z (map fst (map_to_list bench_ids)) in
  if negb (bool_decide (keys = [1; 2; 3; 4])) then ret (Invalid (BenchKeys keys))
  else
  pos1_id ← getitem bench_ids 1;
  let pos1_player := with_id pos1_id gw_df in
  if (length pos1_player =? 0)%nat then ret (Invalid (BenchSlot1NotFound pos1_id))
  else
  p1 ← iloc0 pos1_player;
  if negb (bool_decide (position p1 = GK))
    then ret (Invalid (BenchSlot1NotGK (position p1)))
  else
  outfield ← bench_outfield gw_df bench_ids [2; 3; 4];
  match outfield with
  | Some r => ret (Invalid r)
  | None =>
  (* 7. captaincy *)
  if bool_decide (captain_id = vice_id) then ret (Invalid CaptainIsVice)
  else if negb (bool_decide (captain_id ∈ starter_ids))
    then ret (Invalid (CaptainNotStarter captain_id))
  else if negb (bool_decide (vice_id ∈ starter_ids))
    then ret (Invalid (ViceNotStarter vice_id))
  else ret Valid
  end
  end.

End Validator.

(** * backtester/fpl_point_calculator.py *)

Module Scorer.

(** One entry of [details['substitutions']]. *)
Record Substitution : Type := mkSub {
  sub_player_id : Z;
  sub_name : string;
  sub_position : Position;
  sub_bench_pos : Z;
  sub_points : Z
}.

Inductive Armband : Type := captain | vice.

(** The breakdown dict.  The early return builds a dict with other
    keys than the regular one, hence two constructors. *)
Inductive Details : Type :=
  | NobodyPlayed (substitutions : list Substitution)
      (captain_played vice_played : bool) (captain_points : Z)
  | Breakdown (substitutions : list Substitution)
      (captain_played vice_played : bool) (captain_used : option Armband)
      (captain_bonus base_points : Z) (num_active_players : nat).

Definition substitutions_of (d : Details) : list Substitution :=
  match d with
  | NobodyPlayed s _ _ _ => s
  | Breakdown s _ _ _ _ _ _ => s
  end.

(** [details.get('captain_used')] *)
Definition captain_used_of (d : Details) : option Armband :=
  match d with
  | NobodyPlayed _ _ _ _ => None
  | Breakdown _ _ _ u _ _ _ => u
  end.

(** [details.get('captain_bonus', 0)] *)
Definition captain_bonus_of (d : Details) : Z :=
  match d with
  | NobodyPlayed _ _ _ _ => 0
  | Breakdown _ _ _ _ b _ _ => b
  end.

(** [df['points'].sum()] *)
Definition points_sum (df : DataFrame) : Z :=
  foldr (λ r acc, points r + acc) 0 df.

(** [pid in df['player_id'].values] *)
Definition played (pid : Z) (df : DataFrame) : bool :=
  bool_decide (pid ∈ map player_id df).

(** Step 2, [for bench_pos in [1, 2, 3, 4]: ...], on the remaining
    slots with the loop's two variables. *)
Fixpoint process_bench (gw_df : DataFrame) (bench_ids : gmap Z Z) (slots : list Z)
    (active_players : DataFrame) (substitutions : list Substitution)
  : py (DataFrame * list Substitution) :=
  match slots with
  | [] => ret (active_players, substitutions)
  | bench_pos :: rest =>
      if (11 <=? length active_players)%nat then
        (* break *)
        ret (active_players, substitutions)
      else
        pid ← getitem bench_ids bench_pos;
        let bench_player_row := with_id pid gw_df in
        bench_player ← iloc0 bench_player_row;
        if minutes bench_player =? 0 then
          (* continue *)
          process_bench gw_df bench_ids rest active_players substitutions
        else
          let test_lineup := active_players ++ [bench_player] in
          if is_valid (Validator.validate_formation test_lineup) then
            process_bench gw_df bench_ids rest test_lineup
              (substitutions ++
                 [mkSub (player_id bench_player) (name bench_player)
                        (position bench_player) bench_pos (points bench_player)])
          else
            process_bench gw_df bench_ids rest active_players substitutions
  end.

Definition calculate_gameweek_points (gw_df : DataFrame) (starter_ids : list Z)
    (bench_ids : gmap Z Z) (captain_id vice_id : Z) : py (Z * DataFrame * Details) :=
  let starters_df := isin starter_ids gw_df in
  (* Step 1: remove non-playing starters *)
  let active_players := filter (λ r, 0 < minutes r) starters_df in
  if (length active_players =? 0)%nat then
    ret (0, active_players, NobodyPlayed [] false false 0)
  else
  (* Step 2: process the bench in order *)
  '(active_players, substitutions) ←
      process_bench gw_df bench_ids [1; 2; 3; 4] active_players [];
  (* Step 3: base points *)
  let base_points := points_sum active_players in
  (* Step 4: captain doubling *)
  let captain_played := played captain_id active_players in
  let vice_played := played vice_id active_players in
  '(captain_bonus, captain_used) ←
      (if captain_played then
         c ← iloc0 (with_id captain_id active_players);
         ret (points c, Some captain)
       else if vice_played then
         v ← iloc0 (with_id vice_id active_players);
         ret (points v, Some vice)
       else ret (0, None));
  let total_points := base_points + captain_bonus in
  ret (total_points, active_players,
       Breakdown substitutions captain_played vice_played captain_used
                 captain_bonus base_points (length active_players)).

End Scorer.

(** * Shared by the optimiser modules *)

(** [players_df['player_id'].duplicated().any()] *)
Definition duplicated_any (df : DataFrame) : bool :=
  negb (bool_decide (NoDup (map player_id df))).

(** The rows of a table by player id. *)
Definition rows_by_id (df : DataFrame) : gmap Z Row :=
  list_to_map (map (λ r, (player_id r, r)) df).

(** [players_df.set_index('player_id').to_dict('index')]; pandas
    refuses an index with duplicates. *)
Definition to_dict_index (df : DataFrame) : py (gmap Z Row) :=
  if duplicated_any df then
    raise (ValueError "DataFrame index must be unique for orient='index'.")
  else ret (rows_by_id df).

(** [{k: f(k) for k in keys}] *)
Fixpoint dict_comp {V : Type} (f : Z → py V) (keys : list Z) (acc : gmap Z V)
  : py (gmap Z V) :=
  match keys with
  | [] => ret acc
  | k :: rest => v ← f k; dict_comp f rest (<[k := v]> acc)
  end.

(** [sum(f(k) for k in keys)] *)
Fixpoint sum_over (f : Z → py Z) (keys : list Z) : py Z :=
  match keys with
  | [] => ret 0
  | k :: rest => v ← f k; s ← sum_over f rest; ret (v + s)
  end.

(** [sum(d.values())] *)
Definition sum_values (d : gmap Z Z) : Z :=
  map_fold (λ _ v acc, v + acc) 0 d.

(** [math.ceil(0.5 * profit)] on an integer profit; the product is
    exact in binary floating point. *)
Definition ceil_half (profit : Z) : Z :=
  Qceiling ((1 # 2) * inject_Z profit).

(** * optimiser/utils.py *)

Module Utils.

(** [[pid for pid in bench_ids if keep(players[pid]['position'])]] *)
Fixpoint select_position (players : gmap Z Row) (keep : Position → bool)
    (bench_ids : list Z) : py (list Z) :=
  match bench_ids with
  | [] => ret []
  | pid :: rest =>
      p ← getitem players pid;
      tl ← select_position players keep rest;
      ret (if keep (position p) then pid :: tl else tl)
  end.

(** [sorted(ids, key=lambda pid: players[pid]['expected_points'],
    reverse=True)]: the keys are computed first, then the ids are
    sorted on them, stably. *)
Fixpoint keyed (players : gmap Z Row) (ids : list Z) : py (list (Z * Q)) :=
  match ids with
  | [] => ret []
  | pid :: rest =>
      p ← getitem players pid;
      tl ← keyed players rest;
      ret ((pid, expected_points p) :: tl)
  end.

(** [reverse=True]: the higher key goes first. *)
Definition higher_first (a b : Z * Q) : bool := Qle_bool (snd b) (snd a).

Definition sorted_by_expected_points_desc (players : gmap Z Row) (ids : list Z)
  : py (list Z) :=
  ks ← keyed players ids;
  ret (map fst (sort_by higher_first ks)).

Definition assign_bench_positions (players : gmap Z Row) (bench_ids : list Z)
  : py (list Z) :=
  bench_gks ← select_position players (λ p, bool_decide (p = GK)) bench_ids;
  if negb (length bench_gks =? 1)%nat then
    raise (ValueError ("Expected exactly 1 bench GK, found " +:+ pretty (length bench_gks)))
  else
  gk_id ← list_getitem bench_gks 0;
  outfield_ids ← select_position players (λ p, negb (bool_decide (p = GK))) bench_ids;
  if negb (length outfield_ids =? 3)%nat then
    raise (ValueError ("Expected exactly 3 bench outfield players, found "
                         +:+ pretty (length outfield_ids)))
  else
  outfield_ids_sorted ← sorted_by_expected_points_desc players outfield_ids;
  ret ([gk_id] ++ outfield_ids_sorted).

(** The solver's 0/1 dicts [x_star], [y_star] and [c_star] are iterated
    with [.items()], in insertion order: they are given by their items. *)
Fixpoint items_getitem (d : list (Z * Z)) (k : Z) : py Z :=
  match d with
  | [] => raise KeyError
  | (k', val) :: rest => if decide (k' = k) then ret val else items_getitem rest k
  end.

(** [[pid for pid, val in d.items() if val == 1]] *)
Definition selected (d : list (Z * Z)) : list Z :=
  map fst (filter (λ kv, snd kv = 1) d).

(** [max((pid for pid in player_ids if x_star[pid] == 1 and c_star[pid] == 0),
        key=lambda pid: players[pid]['expected_points'])]:
    [max] draws the candidates from the generator one by one and keeps
    the first one of highest key. *)
Fixpoint max_candidate (players : gmap Z Row) (x_star c_star : list (Z * Z))
    (player_ids : list Z) (best : option (Z * Q)) : py (option (Z * Q)) :=
  match player_ids with
  | [] => ret best
  | pid :: rest =>
      x ← items_getitem x_star pid;
      if x =? 1 then
        c ← items_getitem c_star pid;
        if c =? 0 then
          p ← getitem players pid;
          let key := expected_points p in
          max_candidate players x_star c_star rest
            (match best with
             | Some (_, best_key) =>
                 if negb (Qle_bool key best_key) then Some (pid, key) else best
             | None => Some (pid, key)
             end)
        else max_candidate players x_star c_star rest best
      else max_candidate players x_star c_star rest best
  end.

Definition select_vice_captain (players : gmap Z Row) (x_star c_star : list (Z * Z))
    (player_ids : list Z) : py Z :=
  best ← max_candidate players x_star c_star player_ids None;
  match best with
  | Some (pid, _) => ret pid
  | None => raise (ValueError "max() arg is an empty sequence")
  end.

(** [{pid: (1 if pid == chosen else 0) for pid in player_ids}] *)
Definition flag_dict (chosen : Z) (player_ids : list Z) : gmap Z Z :=
  list_to_map (map (λ pid, (pid, if decide (pid = chosen) then 1 else 0)) player_ids).

(** The dict of post-hoc assignments that both functions return. *)
Record PostHoc : Type := mkPostHoc {
  v : gmap Z Z;
  b1 : gmap Z Z;
  b2 : gmap Z Z;
  b3 : gmap Z Z;
  b4 : gmap Z Z
}.

(** The body of [process_pre_gw1_solution] and [process_post_gw1_solution]
    after the table has been read; the two differ in [player_ids]. *)
Definition post_hoc_assignments (players : gmap Z Row) (player_ids : list Z)
    (x_star y_star c_star : list (Z * Z)) : py PostHoc :=
  let squad_ids := selected y_star in
  let starter_ids := selected x_star in
  captain_id ← list_getitem (selected c_star) 0;
  let bench_ids := filter (λ pid, pid ∉ starter_ids) squad_ids in
  vice_captain_id ← select_vice_captain players x_star c_star player_ids;
  bench_order ← assign_bench_positions players bench_ids;
  let v := flag_dict vice_captain_id player_ids in
  bench_1 ← list_getitem bench_order 0;
  bench_2 ← list_getitem bench_order 1;
  bench_3 ← list_getitem bench_order 2;
  bench_4 ← list_getitem bench_order 3;
  ret (mkPostHoc v (flag_dict bench_1 player_ids) (flag_dict bench_2 player_ids)
                 (flag_dict bench_3 player_ids) (flag_dict bench_4 player_ids)).


(** [player_ids = players_df['player_id'].tolist()] *)
Definition process_post_gw1_solution (players_df : DataFrame)
    (x_star y_star c_star : list (Z * Z)) : py PostHoc :=
  if duplicated_any players_df then
    raise (ValueError "More than 1 GW data detected. Each player_id must appear exactly once.")
  else
  players ← to_dict_index players_df;
  let player_ids := map player_id players_df in
  post_hoc_assignments players player_ids x_star y_star c_star.

End Utils.

(** The state handed from one gameweek to the next: purchase prices,
    free transfers, bank. *)
Record NextState : Type := mkNext {
  next_p0 : gmap Z Z;
  next_f : Z;
  next_B_bank : Z
}.

(** * optimiser/milp/post_gw1_step1.py *)

Module Milp.

(** Selling prices with the 50% profit lock, [selling_prices[pid]]
    for [pid in player_ids]. *)
Definition selling_price (current_price purchase_price : Z) : Z :=
  if purchase_price <? current_price then
    let profit := current_price - purchase_price in
    purchase_price + ceil_half profit
  else current_price.

Definition selling_prices (players : gmap Z Row) (p0 : gmap Z Z) (player_ids : list Z)
  : py (gmap Z Z) :=
  dict_comp (λ pid,
    p ← getitem players pid;
    purchase_price ← getitem p0 pid;
    ret (selling_price (cost p) purchase_price)) player_ids ∅.

(** [for pid in player_ids: if s_star[pid]: p0[pid] = 0
    elif t_star[pid]: p0[pid] = players[pid]['cost']] *)
Fixpoint update_p0 (players : gmap Z Row) (t_star s_star : gmap Z Z)
    (player_ids : list Z) (p0 : gmap Z Z) : py (gmap Z Z) :=
  match player_ids with
  | [] => ret p0
  | pid :: rest =>
      s ← getitem s_star pid;
      if negb (s =? 0) then update_p0 players t_star s_star rest (<[pid := 0]> p0)
      else
        t ← getitem t_star pid;
        if negb (t =? 0) then
          p ← getitem players pid;
          update_p0 players t_star s_star rest (<[pid := cost p]> p0)
        else update_p0 players t_star s_star rest p0
  end.

(** [optimize_post_gw1_step1] around the solver call: the selling
    prices computed before it and the state update computed from its
    optimal assignment, given here as the two dicts [t_star] (bought)
    and [s_star] (sold).  The lineup part of the solution is left out. *)
Definition optimize_post_gw1_step1 (players_df : DataFrame) (p0 : gmap Z Z)
    (f B_bank : Z) (t_star s_star : gmap Z Z) : py NextState :=
  if duplicated_any players_df then
    raise (ValueError "More than 1 GW data detected. Each player_id must appear exactly once.")
  else
  let player_ids := map player_id players_df in
  players ← to_dict_index players_df;
  selling_prices ← selling_prices players p0 player_ids;
  (* state updates for the next gameweek *)
  let total_transfers_made := sum_values t_star in
  p0 ← update_p0 players t_star s_star player_ids p0;
  total_selling_proceeds ←
    sum_over (λ pid, sp ← getitem selling_prices pid; s ← getitem s_star pid;
                     ret (sp * s)) player_ids;
  total_purchase_costs ←
    sum_over (λ pid, p ← getitem players pid; t ← getitem t_star pid;
                     ret (cost p * t)) player_ids;
  let remaining_free_transfers := Z.max 0 (f - total_transfers_made) in
  ret (mkNext p0 remaining_free_transfers
              (B_bank + total_selling_proceeds - total_purchase_costs)).

End Milp.

(** * optimiser/cp_minizinc/post_gw1_step1_minizinc.py *)

Module MiniZinc.

(** [{pid: idx + 1 for idx, pid in enumerate(player_ids)}] *)
Definition make_player_id_to_idx (player_ids : list Z) : gmap Z nat :=
  list_to_map (reverse (imap (λ idx pid, (pid, S idx)) player_ids)).

Definition selling_price (current_price purchase_price : Z) : Z :=
  if (purchase_price <? current_price) && (0 <? purchase_price) then
    let profit := current_price - purchase_price in
    purchase_price + ceil_half profit
  else
    if 0 <? purchase_price then current_price else 0.

(** [for _, row in players_df.iterrows(): ...] *)
Fixpoint calculate_selling_prices_from (rows : DataFrame) (p0_array : list Z)
    (player_id_to_idx : gmap Z nat) (selling_prices : gmap Z Z) : py (gmap Z Z) :=
  match rows with
  | [] => ret selling_prices
  | row :: rest =>
      let pid := player_id row in
      let current_price := cost row in
      idx ← getitem player_id_to_idx pid;
      purchase_price ← list_getitem p0_array (idx - 1)%nat;
      calculate_selling_prices_from rest p0_array player_id_to_idx
        (<[pid := selling_price current_price purchase_price]> selling_prices)
  end.

Definition calculate_selling_prices (players_df : DataFrame) (p0_array : list Z)
    (player_id_to_idx : gmap Z nat) : py (gmap Z Z) :=
  calculate_selling_prices_from players_df p0_array player_id_to_idx ∅.

(** [{pid: (1 if arr[player_id_to_idx[pid] - 1] else 0) for pid in player_ids}] *)
Definition binary_dict (arr : list bool) (player_id_to_idx : gmap Z nat)
    (player_ids : list Z) : py (gmap Z Z) :=
  dict_comp (λ pid,
    idx ← getitem player_id_to_idx pid;
    b ← list_getitem arr (idx - 1)%nat;
    ret (if b : bool then 1 else 0)) player_ids ∅.

(** The free-transfer rule of the state update. *)
Definition free_transfers_update (f total_transfers_made : Z) : Z :=
  if total_transfers_made <=? f then
    let remaining_free := f - total_transfers_made in
    if 0 <? remaining_free then Z.min 2 (1 + remaining_free)
    else 1
  else 1.

(** The state update of [parse_post_gw1_output], from the solver's
    [t] and [s] arrays; the lineup part of the solution and the
    post-hoc assignments merged into it afterwards are left out. *)
Definition parse_post_gw1_output (t_array s_array : list bool) (players_df : DataFrame)
    (p0 : list Z) (f B_bank : Z) : py NextState :=
  let player_ids := map player_id players_df in
  let player_id_to_idx := make_player_id_to_idx player_ids in
  t ← binary_dict t_array player_id_to_idx player_ids;
  s ← binary_dict s_array player_id_to_idx player_ids;
  player_dict ← to_dict_index players_df;
  p0_new ← dict_comp (λ pid,
      idx ← getitem player_id_to_idx pid;
      s_pid ← getitem s pid;
      if s_pid =? 1 then ret 0
      else
        t_pid ← getitem t pid;
        if t_pid =? 1 then p ← getitem player_dict pid; ret (cost p)
        else list_getitem p0 (idx - 1)%nat) player_ids ∅;
  selling_prices ← calculate_selling_prices players_df p0 player_id_to_idx;
  total_selling_proceeds ←
    sum_over (λ pid, sp ← getitem selling_prices pid; s_pid ← getitem s pid;
                     ret (sp * s_pid)) player_ids;
  total_purchase_costs ←
    sum_over (λ pid, p ← getitem player_dict pid; t_pid ← getitem t pid;
                     ret (cost p * t_pid)) player_ids;
  let B_bank_new := B_bank + total_selling_proceeds - total_purchase_costs in
  let total_transfers_made := sum_values t in
  let f_new := free_transfers_update f total_transfers_made in
  ret (mkNext p0_new f_new B_bank_new).

(** [[d[pid] for pid in player_ids_sorted]]: the state dict as the
    list that [run_full_season] (run_season_optimizer_minizinc.py) hands
    to the next gameweek, where
    [player_ids_sorted = sorted(players_gw['player_id'].tolist())] is
    taken from the table of gameweek 1. *)
Fixpoint state_list (d : gmap Z Z) (player_ids_sorted : list Z) : py (list Z) :=
  match player_ids_sorted with
  | [] => ret []
  | pid :: rest => val ← getitem d pid; tl ← state_list d rest; ret (val :: tl)
  end.

End MiniZinc.

(** * optimiser/milp/pre_gw1_step2.py, run_season_optimizer.py *)

Module MilpSeason.

(** [optimize_pre_gw1_step2] after the solver call: the state for
    gameweek 2, computed from the optimal squad [y_star]. *)
Definition optimize_pre_gw1_step2 (players_df : DataFrame) (y_star : gmap Z Z)
  : py NextState :=
  if duplicated_any players_df then
    raise (ValueError "More than 1 GW data detected. Each player_id must appear exactly once.")
  else
  let player_ids := map player_id players_df in
  players ← to_dict_index players_df;
  p0_buy ← dict_comp (λ pid,
      y ← getitem y_star pid;
      if y =? 1 then p ← getitem players pid; ret (cost p) else ret 0) player_ids ∅;
  total_cost ← sum_over (λ pid, p ← getitem players pid; y ← getitem y_star pid;
                                ret (cost p * y)) player_ids;
  let B_bank := 1000 - total_cost in
  let f := 2 in
  ret (mkNext p0_buy f B_bank).

(** What the solver settles in one gameweek after the first: the table
    with its expected points, the lineup dicts in insertion order, and
    the transfer dicts. *)
Record Week : Type := mkWeek {
  week_df : DataFrame;
  week_x : list (Z * Z);
  week_y : list (Z * Z);
  week_c : list (Z * Z);
  week_t : gmap Z Z;
  week_s : gmap Z Z
}.

(** [optimize_gw_post1]: step 1 with its state update, then the
    post-hoc assignments. *)
Definition optimize_gw_post1 (w : Week) (p0 : gmap Z Z) (f B_bank : Z)
  : py (NextState * Utils.PostHoc) :=
  step1 ← Milp.optimize_post_gw1_step1 (week_df w) p0 f B_bank (week_t w) (week_s w);
  post_hoc ← Utils.process_post_gw1_solution (week_df w) (week_x w) (week_y w) (week_c w);
  ret (step1, post_hoc).

(** The loop of [run_full_season] from gameweek 2 on, started in the
    state gameweek 1 left: every gameweek is optimised in the state the
    one before handed on and its solution recorded; an exception ends
    the loop ([except ...: break]) with the results so far. *)
Fixpoint run_full_season (weeks : list Week) (p0 : gmap Z Z) (f B_bank : Z)
  : list (NextState * Utils.PostHoc) :=
  match weeks with
  | [] => []
  | w :: rest =>
      match optimize_gw_post1 w p0 f B_bank with
      | inl _ => []
      | inr solution =>
          let st := fst solution in
          solution :: run_full_season rest (next_p0 st) (next_f st) (next_B_bank st)
      end
  end.

End MilpSeason.

(** * optimiser/cp_minizinc/data_prep.py *)

Module DataPrep.

(** [set(player_id_to_idx[pid] for pid in player_ids)] for the ids of
    one position, followed by the debug line that prints [min] and [max]
    of the set: on an empty set [min] raises. *)
Fixpoint indices (player_id_to_idx : gmap Z nat) (player_ids : list Z) : py (list nat) :=
  match player_ids with
  | [] => ret []
  | pid :: rest =>
      idx ← getitem player_id_to_idx pid;
      tl ← indices player_id_to_idx rest;
      ret (idx :: tl)
  end.

Definition position_set (players_df : DataFrame) (player_id_to_idx : gmap Z nat)
    (pos : Position) : py (gset nat) :=
  let player_ids := map player_id (filter (λ r, position r = pos) players_df) in
  idxs ← indices player_id_to_idx player_ids;
  let pos_set : gset nat := list_to_set idxs in
  if decide (pos_set = ∅) then raise (ValueError "min() arg is an empty sequence")
  else ret pos_set.

(** The dict [pos_sets], by position. *)
Record PosSets : Type := mkPosSets {
  set_GK : gset nat;
  set_DEF : gset nat;
  set_MID : gset nat;
  set_FWD : gset nat
}.

Definition pos_set (sets : PosSets) (pos : Position) : gset nat :=
  match pos with
  | GK => set_GK sets
  | DEF => set_DEF sets
  | MID => set_MID sets
  | FWD => set_FWD sets
  end.

Definition create_position_sets (players_df : DataFrame) : py PosSets :=
  let player_id_to_idx := MiniZinc.make_player_id_to_idx (map player_id players_df) in
  gk ← position_set players_df player_id_to_idx GK;
  def ← position_set players_df player_id_to_idx DEF;
  mid ← position_set players_df player_id_to_idx MID;
  fwd ← position_set players_df player_id_to_idx FWD;
  ret (mkPosSets gk def mid fwd).

End DataPrep.

(** * backtester/backtester.py *)

Module Backtester.

(** [detect_transfers]: the two lists come from sets, in no particular
    order; they are given as sets. *)
Definition detect_transfers (current_squad previous_squad : list Z) : gset Z * gset Z :=
  let current_set : gset Z := list_to_set current_squad in
  let previous_set : gset Z := list_to_set previous_squad in
  let transfers_in := current_set ∖ previous_set in
  let transfers_out := previous_set ∖ current_set in
  (transfers_in, transfers_out).

End Backtester.

(** * The specification's reading of the rule engine

    The definitions below follow the wording of the specification, not
    the code; the theorems compare them with the embedding above. *)

Module Spec.
Import Validator Scorer.

(** ** Formation rules (spec 4.1) *)

(** A rule of the formation check: whether it is enforced for this
    set, whether its bound holds, and the reason reported otherwise. *)
Record Rule : Type := mkRule {
  enforced : bool;
  holds : bool;
  reason : FormationReason
}.

Definition within (lo hi n : nat) : bool := (lo <=? n)%nat && (n <=? hi)%nat.

(** GK = 1 always; DEF in [3,5]; MID in [2,5] only when the size is at
    least 4; FWD in [1,3] only when the size is at least 5. *)
Definition formation_rules (players : DataFrame) : list Rule :=
  let size := length players in
  [ mkRule true (position_count players GK =? 1)%nat
           (FormationGK (position_count players GK));
    mkRule true (within 3 5 (position_count players DEF))
           (FormationDEF (position_count players DEF));
    mkRule (4 <=? size)%nat (within 2 5 (position_count players MID))
           (FormationMID (position_count players MID));
    mkRule (5 <=? size)%nat (within 1 3 (position_count players FWD))
           (FormationFWD (position_count players FWD)) ].

Definition violated (r : Rule) : bool := enforced r && negb (holds r).

(** The rules in order: the first enforced rule that is violated
    decides. *)
Fixpoint first_violation (rules : list Rule) : option FormationReason :=
  match rules with
  | [] => None
  | r :: rest => if violated r then Some (reason r) else first_violation rest
  end.

Definition is_legal_formation (players : DataFrame) : Verdict FormationReason :=
  match first_violation (formation_rules players) with
  | None => Valid
  | Some r => Invalid r
  end.

(** ** Team checks (spec 4.2)

    Each check yields no reason when it passes.  A check that reads a
    bench slot is only meaningful once the bench keys are known to be
    1..4; it is a [py] computation like the code it describes. *)

Abbreviation Check := (py (option TeamReason)).

Definition passes : Check := ret None.
Definition fails (r : TeamReason) : Check := ret (Some r).

Section Checks.
Context (gw_df : DataFrame) (squad_ids starter_ids : list Z)
        (bench_ids : gmap Z Z) (captain_id vice_id : Z).

Let squad := isin squad_ids gw_df.
Let starters := isin starter_ids gw_df.

(** 1. |squad| == 15 *)
Definition check_squad_size : Check :=
  if decide (length squad_ids = 15%nat) then passes
  else fails (SquadSize (length squad_ids)).

(** 2. squad position counts == (2,5,5,3) *)
Definition check_squad_quota : Check :=
  if decide (position_count squad GK = 2%nat) then
    if decide (position_count squad DEF = 5%nat) then
      if decide (position_count squad MID = 5%nat) then
        if decide (position_count squad FWD = 3%nat) then passes
        else fails (SquadQuota FWD 3 (position_count squad FWD))
      else fails (SquadQuota MID 5 (position_count squad MID))
    else fails (SquadQuota DEF 5 (position_count squad DEF))
  else fails (SquadQuota GK 2 (position_count squad GK)).

(** 3. no club with more than 3 players in the squad; all offending
    clubs are reported with their counts *)
Definition check_club_limit : Check :=
  let offending :=
    filter (λ tc, (3 < snd tc)%nat) (value_counts (map team squad)) in
  if decide (offending = []) then passes else fails (ClubLimit offending).

(** 4. |starters| == 11 *)
Definition check_starters_size : Check :=
  if decide (length starter_ids = 11%nat) then passes
  else fails (StartersSize (length starter_ids)).

(** 5. starter formation, full-size bounds *)
Definition check_starter_formation : Check :=
  let gk := position_count starters GK in
  let defn := position_count starters DEF in
  let mid := position_count starters MID in
  let fwd := position_count starters FWD in
  if negb (gk =? 1)%nat then fails (StartersGK gk)
  else if negb (within 3 5 defn) then fails (StartersDEF defn)
  else if negb (within 2 5 mid) then fails (StartersMID mid)
  else if negb (within 1 3 fwd) then fails (StartersFWD fwd)
  else passes.

(** 6. bench slot keys == {1,2,3,4} *)
Definition check_bench_keys : Check :=
  if decide (dom bench_ids = ({[1; 2; 3; 4]} : gset Z)) then passes
  else if decide (size bench_ids = 4%nat)
    then fails (BenchKeys (sorted_Z (map fst (map_to_list bench_ids))))
  else fails (BenchSize (size bench_ids)).

(** 7. slot 1 resolves to a GK *)
Definition check_bench_gk : Check :=
  pid ← getitem bench_ids 1;
  match with_id pid gw_df with
  | [] => fails (BenchSlot1NotFound pid)
  | p :: _ => if decide (position p = GK) then passes
              else fails (BenchSlot1NotGK (position p))
  end.

(** 8. slots 2-4 resolve to non-GK players *)
Definition check_bench_slot_outfield (pos : Z) : Check :=
  pid ← getitem bench_ids pos;
  match with_id pid gw_df with
  | [] => fails (BenchSlotNotFound pos pid)
  | p :: _ => if decide (position p = GK) then fails (BenchSlotIsGK pos)
              else passes
  end.

Definition check_bench_outfield : Check :=
  r2 ← check_bench_slot_outfield 2;
  match r2 with
  | Some r => fails r
  | None =>
      r3 ← check_bench_slot_outfield 3;
      match r3 with
      | Some r => fails r
      | None => check_bench_slot_outfield 4
      end
  end.

(** 9. captain ≠ vice *)
Definition check_captain_not_vice : Check :=
  if decide (captain_id = vice_id) then fails CaptainIsVice else passes.

(** 10. captain ∈ starters *)
Definition check_captain_starts : Check :=
  if decide (captain_id ∈ starter_ids) then passes
  else fails (CaptainNotStarter captain_id).

(** 11. vice ∈ starters *)
Definition check_vice_starts : Check :=
  if decide (vice_id ∈ starter_ids) then passes
  else fails (ViceNotStarter vice_id).

Definition team_checks : list Check :=
  [ check_squad_size; check_squad_quota; check_club_limit;
    check_starters_size; check_starter_formation; check_bench_keys;
    check_bench_gk; check_bench_outfield; check_captain_not_vice;
    check_captain_starts; check_vice_starts ].
End Checks.

(** The checks in order, short-circuiting: the reason of the first
    check that fails, and nothing of the checks after it. *)
Fixpoint run_checks (checks : list Check) : py (Verdict TeamReason) :=
  match checks with
  | [] => ret Valid
  | c :: rest =>
      r ← c;
      match r with
      | Some e => ret (Invalid e)
      | None => run_checks rest
      end
  end.

(** ** Automatic substitution (spec 4.3, step 2) *)

Definition substitution_of (slot : Z) (p : Row) : Substitution :=
  mkSub (player_id p) (name p) (position p) slot (points p).

(** One bench slot, holding player [p]. *)
Definition bench_step (st : DataFrame * list Substitution) (slot_player : Z * Row)
  : DataFrame * list Substitution :=
  let '(active, subs) := st in
  let '(slot, p) := slot_player in
  if decide (11 ≤ length active)%nat then st            (* stopped *)
  else if decide (minutes p = 0) then st                (* did not play *)
  else if is_valid (validate_formation (active ++ [p]))
    then (active ++ [p], subs ++ [substitution_of slot p])   (* committed *)
  else st.                                              (* illegal: skipped *)

(** The bench slot [slot] holds player [p]: the slot is filled and
    its id resolves to [p] in the gameweek table. *)
Definition bench_player (gw_df : DataFrame) (bench_ids : gmap Z Z) (slot : Z) (p : Row)
  : Prop :=
  ∃ pid, bench_ids !! slot = Some pid ∧ head (with_id pid gw_df) = Some p.

Definition auto_substitute (active : DataFrame) (b1 b2 b3 b4 : Row)
  : DataFrame * list Substitution :=
  foldl bench_step (active, []) [(1, b1); (2, b2); (3, b3); (4, b4)].

(** ** Bench order (spec 4.4) *)

Global Instance Qeq_decision (x y : Q) : Decision (x == y)%Q := Qeq_dec x y.

(** The goalkeepers of the bench, and its other players, in encounter
    order. *)
Definition gk_ids (players : gmap Z Row) (bench_ids : list Z) : list Z :=
  filter (λ pid, position <$> players !! pid = Some GK) bench_ids.

Definition outfield_ids (players : gmap Z Row) (bench_ids : list Z) : list Z :=
  filter (λ pid, is_Some (players !! pid) ∧ position <$> players !! pid ≠ Some GK)
         bench_ids.

(** The expected points of a player of the table. *)
Definition expected_points_of (players : gmap Z Row) (pid : Z) : Q :=
  match players !! pid with
  | Some p => expected_points p
  | None => 0%Q
  end.

(** ** Vice-captain (spec 4.4) *)

(** A candidate for the vice-captaincy: a starter who is not the
    captain, with the expected points [max] compares. *)
Definition candidate (players : gmap Z Row) (x_star c_star : list (Z * Z))
    (pid : Z) (key : Q) : Prop :=
  Utils.items_getitem x_star pid = inr 1
  ∧ Utils.items_getitem c_star pid = inr 0
  ∧ ∃ p, players !! pid = Some p ∧ expected_points p = key.

(** How a key compares with the best candidate so far. *)
Definition beats (best : option (Z * Q)) (key : Q) : Prop :=
  match best with
  | Some (_, best_key) => (best_key < key)%Q
  | None => True
  end.

Definition covers (best : option (Z * Q)) (key : Q) : Prop :=
  match best with
  | Some (_, best_key) => (key <= best_key)%Q
  | None => False
  end.

(** What [max] has in hand after the candidates among [player_ids]:
    either what it had before, no candidate having a higher key, or the
    first candidate of highest key. *)
Definition max_candidate_result (players : gmap Z Row) (x_star c_star : list (Z * Z))
    (player_ids : list Z) (best res : option (Z * Q)) : Prop :=
  (res = best
   ∧ ∀ pid k, pid ∈ player_ids → candidate players x_star c_star pid k → covers best k)
  ∨ (∃ (j : nat) w kw,
       res = Some (w, kw) ∧ player_ids !! j = Some w
       ∧ candidate players x_star c_star w kw ∧ beats best kw
       ∧ (∀ (j' : nat) pid k, (j' < j)%nat → player_ids !! j' = Some pid →
            candidate players x_star c_star pid k → (k < kw)%Q)
       ∧ (∀ (j' : nat) pid k, (j < j')%nat → player_ids !! j' = Some pid →
            candidate players x_star c_star pid k → (k <= kw)%Q)).

End Spec.

(** * A sample gameweek

    A table of sixteen players and a squad of fifteen of them (cost 940,
    so 60 in the bank), used to run the embedding on concrete input. *)

Module Sample.

Definition player (pid : Z) (pos : Position) (club : string) (price pts mins : Z) : Row :=
  mkRow pid ("P" +:+ pretty pid) pos club price pts mins (inject_Z pts).

Definition gw_df : DataFrame :=
  [ player 1 GK "ARS" 55 2 90;   player 2 GK "BRE" 40 1 90;
    player 3 DEF "ARS" 60 6 90;  player 4 DEF "LIV" 70 1 90;
    player 5 DEF "MCI" 55 2 0;   player 6 DEF "CHE" 45 6 90;
    player 7 DEF "TOT" 45 1 90;
    player 8 MID "LIV" 100 5 90; player 9 MID "ARS" 60 8 0;
    player 10 MID "MCI" 75 3 90; player 11 MID "NEW" 65 2 90;
    player 12 MID "AVL" 55 4 0;
    player 13 FWD "MCI" 100 8 90; player 14 FWD "NEW" 55 5 90;
    player 15 FWD "BRE" 60 7 90;
    player 16 MID "CHE" 105 12 90 ].

Definition squad_ids : list Z := [1; 2; 3; 4; 5; 6; 7; 8; 9; 10; 11; 12; 13; 14; 15].
Definition starter_ids : list Z := [1; 3; 4; 5; 8; 9; 10; 11; 13; 14; 15].
Definition bench_ids : gmap Z Z := <[1 := 2]> (<[2 := 6]> (<[3 := 12]> (<[4 := 7]> ∅))).


(** The state after gameweek 1: every squad player bought at the
    listed price. *)
Definition owned (r : Row) : bool := bool_decide (player_id r ∈ squad_ids).

Definition p0 : gmap Z Z :=
  list_to_map (map (λ r, (player_id r, if owned r then cost r else 0)) gw_df).

Definition p0_array : list Z := map (λ r, if owned r then cost r else 0) gw_df.

(** A solver optimum that keeps the squad, as dicts and as arrays. *)
Definition no_transfers : gmap Z Z := list_to_map (map (λ r, (player_id r, 0)) gw_df).
Definition no_transfers_array : list bool := map (λ _, false) gw_df.

(** A solver optimum that sells player 12 and buys player 16. *)
Definition buy_16 : gmap Z Z := <[16 := 1]> no_transfers.
Definition sell_12 : gmap Z Z := <[12 := 1]> no_transfers.

(** The lineup of the optimum as the solver's dicts over the table. *)
Definition flags_of (ids : list Z) : list (Z * Z) :=
  map (λ r, (player_id r, if bool_decide (player_id r ∈ ids) then 1 else 0)) gw_df.
Definition x_star : list (Z * Z) := flags_of starter_ids.
Definition y_star : list (Z * Z) := flags_of squad_ids.
Definition c_star : list (Z * Z) := flags_of [9].

(** The same optimum as the solver's arrays, one flag per table row. *)
Definition buy_16_array : list bool := map (λ r, bool_decide (player_id r = 16)) gw_df.
Definition sell_12_array : list bool := map (λ r, bool_decide (player_id r = 12)) gw_df.

End Sample.

(** * Properties *)

(** ** The [py] monad *)

Lemma bind_inr {A B : Type} (m : py A) (k : A → py B) (b : B) :
  m ≫= k = inr b → ∃ a, m = inr a ∧ k a = inr b.
Proof. destruct m as [e|a]; simpl; [discriminate | eauto]. Qed.

Lemma getitem_Some {K V : Type} `{Countable K} (d : gmap K V) (k : K) (v : V) :
  d !! k = Some v → getitem d k = inr v.
Proof. unfold getitem. by intros ->. Qed.

Lemma getitem_inr {K V : Type} `{Countable K} (d : gmap K V) (k : K) (v : V) :
  getitem d k = inr v → d !! k = Some v.
Proof. unfold getitem. destruct (d !! k); [intros [= ->]; done | discriminate]. Qed.

Lemma iloc0_head {A : Type} (df : list A) (r : A) :
  iloc0 df = inr r ↔ head df = Some r.
Proof. destruct df; simpl; split; intros [=]; by subst. Qed.

(** ** Counting by position *)

Lemma position_count_cons (r : Row) (df : DataFrame) (pos : Position) :
  position_count (r :: df) pos
  = ((if decide (position r = pos) then 1 else 0) + position_count df pos)%nat.
Proof.
  unfold position_count. rewrite filter_cons.
  destruct (decide (position r = pos)); reflexivity.
Qed.

(** Every row has one of the four positions, so the four counts add up
    to the number of rows. *)
Lemma position_count_total (df : DataFrame) :
  (position_count df GK + position_count df DEF
   + position_count df MID + position_count df FWD)%nat = length df.
Proof.
  induction df as [|r df IH]; [reflexivity|].
  rewrite !position_count_cons. simpl length. rewrite <- IH.
  destruct (position r); repeat case_decide; try congruence; lia.
Qed.

Lemma position_count_app (df1 df2 : DataFrame) (pos : Position) :
  position_count (df1 ++ df2) pos
  = (position_count df1 pos + position_count df2 pos)%nat.
Proof. unfold position_count. by rewrite filter_app, length_app. Qed.

(** ** Formation check *)

(** The code's formation check is the specification's rule list read in
    order. *)
Lemma validate_formation_rules (players : DataFrame) :
  Validator.validate_formation players = Spec.is_legal_formation players.
Proof.
  unfold Validator.validate_formation, Spec.is_legal_formation,
    Spec.formation_rules, Spec.first_violation, Spec.violated, Spec.within.
  cbn [Spec.enforced Spec.holds Spec.reason].
  rewrite position_count_total.
  repeat match goal with
  | |- context [(?a =? ?b)%nat] => destruct (Nat.eqb_spec a b)
  | |- context [(?a <? ?b)%nat] => destruct (Nat.ltb_spec a b)
  | |- context [(?a <=? ?b)%nat] => destruct (Nat.leb_spec a b)
  end; cbn [negb andb orb]; try reflexivity; exfalso; lia.
Qed.

(** C7: for every player set, the formation check applies GK = 1
    (always), DEF in [3,5] (always), MID in [2,5] (only when the size is
    at least 4) and FWD in [1,3] (only when the size is at least 5), in
    this order; it reports the first enforced bound that is violated and
    passes exactly when no enforced bound is violated. *)
Theorem formation_check_gated_rules_in_order :
  ∀ players : DataFrame,
    Validator.validate_formation players
    = match Spec.first_violation (Spec.formation_rules players) with
      | None => Valid
      | Some r => Invalid r
      end
    ∧ (is_valid (Validator.validate_formation players) = true
       ↔ position_count players GK = 1%nat
         ∧ (3 ≤ position_count players DEF ≤ 5)%nat
         ∧ ((4 ≤ length players)%nat → (2 ≤ position_count players MID ≤ 5)%nat)
         ∧ ((5 ≤ length players)%nat → (1 ≤ position_count players FWD ≤ 3)%nat)).
Proof.
  intros players. split; [apply validate_formation_rules|].
  unfold Validator.validate_formation. rewrite position_count_total.
  repeat match goal with
  | |- context [(?a =? ?b)%nat] => destruct (Nat.eqb_spec a b)
  | |- context [(?a <? ?b)%nat] => destruct (Nat.ltb_spec a b)
  | |- context [(?a <=? ?b)%nat] => destruct (Nat.leb_spec a b)
  end; simpl; split; intros; try discriminate; try reflexivity;
  try (repeat split; intros; lia); try (exfalso; lia).
Qed.

(** C2 as stated fails: a lone goalkeeper does not pass the check. *)
Lemma single_gk_is_rejected :
  is_valid (Validator.validate_formation [mkRow 1 "Keeper" GK "A" 45 2 90 0]) ≠ true.
Proof. vm_compute. discriminate. Qed.

(** C2, amended: the formation check applied to a set containing exactly
    one player, a GK, fails, because the DEF bound [3,5] is enforced at
    every size; the reason reported is the DEF count 0. *)
Theorem single_gk_fails_def_bound :
  ∀ r : Row, position r = GK →
    Validator.validate_formation [r] = Invalid (Validator.FormationDEF 0).
Proof.
  intros r Hr. unfold Validator.validate_formation.
  rewrite !position_count_cons, Hr. reflexivity.
Qed.

Lemma single_gk_fails_def_bound_witness :
  Validator.validate_formation [mkRow 1 "Keeper" GK "A" 45 2 90 0]
  = Invalid (Validator.FormationDEF 0).
Proof. apply (single_gk_fails_def_bound (mkRow 1 "Keeper" GK "A" 45 2 90 0)). reflexivity. Defined.

(** ** Stable sorting *)

Section SortingFacts.
Context {A : Type} (before : A → A → bool).

Lemma insert_by_perm (x : A) (l : list A) : insert_by before x l ≡ₚ x :: l.
Proof.
  induction l as [|y l IH]; simpl; [done|].
  destruct (before x y); [done|].
  rewrite IH. apply Permutation_swap.
Qed.

Lemma sort_by_perm (l : list A) : sort_by before l ≡ₚ l.
Proof.
  induction l as [|x l IH]; simpl; [done|].
  by rewrite insert_by_perm, IH.
Qed.

Lemma sort_by_length (l : list A) : length (sort_by before l) = length l.
Proof. by rewrite sort_by_perm. Qed.

(** Elements of a class [P] of mutually tied elements keep their
    relative order. *)
Lemma insert_by_stable (P : A → Prop) `{!∀ x, Decision (P x)} (x : A) (l : list A) :
  (∀ a b, P a → P b → before a b = true) →
  filter P (insert_by before x l) = filter P (x :: l).
Proof.
  intros Htie. induction l as [|y l IH]; simpl; [done|].
  destruct (before x y) eqn:Hxy; [done|].
  rewrite (filter_cons P y), IH, !filter_cons.
  destruct (decide (P x)) as [Hx|], (decide (P y)) as [Hy|]; try done.
  rewrite (Htie x y Hx Hy) in Hxy. discriminate.
Qed.

Lemma sort_by_stable (P : A → Prop) `{!∀ x, Decision (P x)} (l : list A) :
  (∀ a b, P a → P b → before a b = true) →
  filter P (sort_by before l) = filter P l.
Proof.
  intros Htie. induction l as [|x l IH]; simpl; [done|].
  rewrite insert_by_stable by done. by rewrite !filter_cons, IH.
Qed.

Context (before_total : ∀ x y, before x y = false → before y x = true)
        (before_trans : ∀ x y z, before x y = true → before y z = true →
                                 before x z = true).

Lemma insert_by_sorted (x : A) (l : list A) :
  StronglySorted (λ a b, before a b = true) l →
  StronglySorted (λ a b, before a b = true) (insert_by before x l).
Proof.
  induction 1 as [|y l Hl IH Hy]; simpl.
  - repeat constructor.
  - destruct (before x y) eqn:Hxy.
    + constructor; [by constructor|].
      constructor; [done|].
      eapply Forall_impl; [exact Hy|]. intros z Hz. by eapply before_trans.
    + constructor; [done|].
      rewrite insert_by_perm. constructor; [by apply before_total | done].
Qed.

Lemma sort_by_sorted (l : list A) :
  StronglySorted (λ a b, before a b = true) (sort_by before l).
Proof.
  induction l; simpl; [constructor | by apply insert_by_sorted].
Qed.
End SortingFacts.

Lemma sorted_Z_perm (xs : list Z) : sorted_Z xs ≡ₚ xs.
Proof. apply sort_by_perm. Qed.

Lemma StronglySorted_weaken {A : Type} (R1 R2 : A → A → Prop) (l : list A) :
  (∀ x y, R1 x y → R2 x y) → StronglySorted R1 l → StronglySorted R2 l.
Proof.
  intros HR. induction 1 as [|x l Hl IH Hx]; constructor; [done|].
  eapply Forall_impl; [exact Hx | auto].
Qed.

Lemma sorted_Z_sorted (xs : list Z) : StronglySorted Z.le (sorted_Z xs).
Proof.
  apply StronglySorted_weaken with (R1 := λ a b, Z.leb a b = true).
  - intros x y ?. by apply Z.leb_le.
  - apply sort_by_sorted.
    + intros x y ?%Z.leb_gt. apply Z.leb_le. lia.
    + intros x y z ?%Z.leb_le ?%Z.leb_le. apply Z.leb_le. lia.
Qed.

(** [sorted(xs)] is determined by the elements of [xs]. *)
Lemma sorted_Z_unique (xs ys : list Z) :
  xs ≡ₚ ys → StronglySorted Z.le ys → sorted_Z xs = ys.
Proof.
  intros Hp Hs. apply (StronglySorted_unique Z.le); [apply sorted_Z_sorted | done |].
  by rewrite sorted_Z_perm.
Qed.

(** ** Team validation *)

Lemma elem_of_keys (bench_ids : gmap Z Z) (k : Z) :
  k ∈ map fst (map_to_list bench_ids) ↔ k ∈ dom bench_ids.
Proof.
  rewrite elem_of_dom, list_elem_of_fmap. split.
  - intros [[k' v] [-> Hv%elem_of_map_to_list]]. by exists v.
  - intros [v Hv]. exists (k, v). split; [done|]. by apply elem_of_map_to_list.
Qed.

(** The bench keys are exactly 1..4 iff their sorted list is [1,2,3,4]. *)
Lemma bench_keys_dom (bench_ids : gmap Z Z) :
  sorted_Z (map fst (map_to_list bench_ids)) = [1; 2; 3; 4]
  ↔ dom bench_ids = ({[1; 2; 3; 4]} : gset Z).
Proof.
  assert (Hs : StronglySorted Z.le [1; 2; 3; 4]).
  { repeat constructor; lia. }
  split.
  - intros Hk. apply set_eq. intros k.
    rewrite <- elem_of_keys, <- (sorted_Z_perm (map fst _)), Hk. set_solver.
  - intros Hd. apply sorted_Z_unique; [|done].
    apply NoDup_Permutation.
    + apply NoDup_fst_map_to_list.
    + repeat constructor; set_solver.
    + intros k. rewrite elem_of_keys, Hd. set_solver.
Qed.

Lemma bench_keys_size (bench_ids : gmap Z Z) :
  dom bench_ids = ({[1; 2; 3; 4]} : gset Z) → size bench_ids = 4%nat.
Proof.
  intros Hd. rewrite <- size_dom, Hd.
  rewrite !size_union, !size_singleton by set_solver. reflexivity.
Qed.

Lemma bench_keys_lookup (bench_ids : gmap Z Z) (k : Z) :
  dom bench_ids = ({[1; 2; 3; 4]} : gset Z) → k ∈ [1; 2; 3; 4] →
  ∃ pid, bench_ids !! k = Some pid.
Proof.
  intros Hd Hk. apply (elem_of_dom (D := gset Z)). rewrite Hd. set_solver.
Qed.

Lemma squad_quota_check (gw_df : DataFrame) (squad_ids : list Z) :
  Spec.check_squad_quota gw_df squad_ids
  = inr (Validator.squad_quota (isin squad_ids gw_df) Validator.expected).
Proof.
  unfold Spec.check_squad_quota, Validator.expected, Validator.squad_quota.
  repeat match goal with
  | |- context [(?a =? ?b)%nat] => destruct (Nat.eqb_spec a b)
  end; repeat case_decide; try lia; reflexivity.
Qed.

Lemma bench_slot_check (gw_df : DataFrame) (bench_ids : gmap Z Z) (pos : Z) (rest : list Z) :
  Validator.bench_outfield gw_df bench_ids (pos :: rest)
  = r ← Spec.check_bench_slot_outfield gw_df bench_ids pos;
    match r with
    | Some e => ret (Some e)
    | None => Validator.bench_outfield gw_df bench_ids rest
    end.
Proof.
  cbn [Validator.bench_outfield]. unfold Spec.check_bench_slot_outfield.
  destruct (getitem bench_ids pos) as [e|pid]; [reflexivity|]. simpl.
  destruct (with_id pid gw_df) as [|p df]; [reflexivity|]. simpl.
  destruct (decide (position p = GK)) as [Hp|Hp].
  - by rewrite bool_decide_eq_true_2.
  - by rewrite bool_decide_eq_false_2.
Qed.

Lemma bench_outfield_check (gw_df : DataFrame) (bench_ids : gmap Z Z) :
  Validator.bench_outfield gw_df bench_ids [2; 3; 4]
  = Spec.check_bench_outfield gw_df bench_ids.
Proof.
  rewrite !bench_slot_check. unfold Spec.check_bench_outfield.
  destruct (Spec.check_bench_slot_outfield gw_df bench_ids 2) as [e|[r|]]; try reflexivity.
  simpl.
  destruct (Spec.check_bench_slot_outfield gw_df bench_ids 3) as [e|[r|]]; try reflexivity.
  simpl.
  destruct (Spec.check_bench_slot_outfield gw_df bench_ids 4) as [e|[r|]]; reflexivity.
Qed.

Lemma ret_bind {A B : Type} (a : A) (k : A → py B) : ret a ≫= k = k a.
Proof. reflexivity. Qed.

Lemma inr_bind {A B : Type} (a : A) (k : A → py B) : (inr a : py A) ≫= k = k a.
Proof. reflexivity. Qed.

Ltac py_step :=
  unfold Spec.passes, Spec.fails;
  repeat (first [rewrite ret_bind | rewrite inr_bind]; cbv beta iota).

Lemma validate_team_run_checks gw_df squad_ids starter_ids bench_ids captain_id vice_id :
  Validator.validate_team gw_df squad_ids starter_ids bench_ids captain_id vice_id
  = Spec.run_checks
      (Spec.team_checks gw_df squad_ids starter_ids bench_ids captain_id vice_id).
Proof.
  unfold Validator.validate_team, Spec.team_checks. cbn [Spec.run_checks].
  (* 1. squad size *)
  unfold Spec.check_squad_size.
  destruct (Nat.eqb_spec (length squad_ids) 15), (decide (length squad_ids = 15%nat));
    try lia; [|reflexivity].
  cbn [negb]. py_step.
  (* 2. squad quota *)
  rewrite squad_quota_check. py_step.
  destruct (Validator.squad_quota _ _); [reflexivity|].
  (* 3. club limit *)
  unfold Spec.check_club_limit.
  destruct (filter _ (value_counts _)) as [|tc over] eqn:Hover.
  2:{ rewrite decide_False by done. reflexivity. }
  rewrite decide_True by done.
  change (0 <? length (@nil (string * nat)))%nat with false. py_step.
  (* 4. starters size *)
  unfold Spec.check_starters_size.
  destruct (Nat.eqb_spec (length starter_ids) 11), (decide (length starter_ids = 11%nat));
    try lia; [|reflexivity].
  cbn [negb]. py_step.
  (* 5. starter formation *)
  unfold Spec.check_starter_formation, Spec.within.
  destruct (position_count (isin starter_ids gw_df) GK =? 1)%nat;
    cbn [negb]; [|py_step; reflexivity].
  replace ((position_count (isin starter_ids gw_df) DEF <? 3)%nat
           || (5 <? position_count (isin starter_ids gw_df) DEF)%nat)
    with (negb ((3 <=? position_count (isin starter_ids gw_df) DEF)%nat
                && (position_count (isin starter_ids gw_df) DEF <=? 5)%nat))
    by (rewrite negb_andb, <- !Nat.ltb_antisym; reflexivity).
  destruct (negb ((3 <=? position_count (isin starter_ids gw_df) DEF)%nat && _));
    [py_step; reflexivity|].
  replace ((position_count (isin starter_ids gw_df) MID <? 2)%nat
           || (5 <? position_count (isin starter_ids gw_df) MID)%nat)
    with (negb ((2 <=? position_count (isin starter_ids gw_df) MID)%nat
                && (position_count (isin starter_ids gw_df) MID <=? 5)%nat))
    by (rewrite negb_andb, <- !Nat.ltb_antisym; reflexivity).
  destruct (negb ((2 <=? position_count (isin starter_ids gw_df) MID)%nat && _));
    [py_step; reflexivity|].
  replace ((position_count (isin starter_ids gw_df) FWD <? 1)%nat
           || (3 <? position_count (isin starter_ids gw_df) FWD)%nat)
    with (negb ((1 <=? position_count (isin starter_ids gw_df) FWD)%nat
                && (position_count (isin starter_ids gw_df) FWD <=? 3)%nat))
    by (rewrite negb_andb, <- !Nat.ltb_antisym; reflexivity).
  destruct (negb ((1 <=? position_count (isin starter_ids gw_df) FWD)%nat && _));
    [py_step; reflexivity|].
  py_step.
  (* 6. bench keys *)
  unfold Spec.check_bench_keys.
  destruct (decide (dom bench_ids = _)) as [Hdom|Hdom].
  2:{ destruct (Nat.eqb_spec (size bench_ids) 4), (decide (size bench_ids = 4%nat));
        try lia; [|reflexivity].
      cbn [negb]. rewrite bool_decide_eq_false_2 by (by rewrite bench_keys_dom).
      reflexivity. }
  rewrite (bench_keys_size _ Hdom). cbn [Nat.eqb negb].
  rewrite bool_decide_eq_true_2 by (by rewrite bench_keys_dom).
  cbn [negb]. py_step.
  (* 7. bench slot 1 *)
  unfold Spec.check_bench_gk.
  destruct (getitem bench_ids 1) as [exn|pos1_id]; [reflexivity|]. py_step.
  destruct (with_id pos1_id gw_df) as [|p1 df1]; [reflexivity|].
  simpl length. cbn [Nat.eqb iloc0]. py_step.
  destruct (decide (position p1 = GK)) as [Hp1|Hp1].
  2:{ rewrite bool_decide_eq_false_2 by done. reflexivity. }
  rewrite bool_decide_eq_true_2 by done. cbn [negb]. py_step.
  (* 8. bench slots 2-4 *)
  rewrite bench_outfield_check.
  destruct (Spec.check_bench_outfield gw_df bench_ids) as [exn|[r|]]; try reflexivity.
  py_step.
  (* 9-11. captaincy *)
  unfold Spec.check_captain_not_vice, Spec.check_captain_starts, Spec.check_vice_starts.
  destruct (decide (captain_id = vice_id)).
  { rewrite bool_decide_eq_true_2 by done. reflexivity. }
  rewrite bool_decide_eq_false_2 by done. py_step.
  destruct (decide (captain_id ∈ starter_ids)).
  2:{ rewrite bool_decide_eq_false_2 by done. reflexivity. }
  rewrite bool_decide_eq_true_2 by done. cbn [negb]. py_step.
  destruct (decide (vice_id ∈ starter_ids)).
  2:{ rewrite bool_decide_eq_false_2 by done. reflexivity. }
  rewrite bool_decide_eq_true_2 by done. reflexivity.
Qed.

(** The verdict of an ordered run is decided by the first failing check. *)
Lemma run_checks_first_failure (checks : list Spec.Check) (v : Verdict Validator.TeamReason) :
  Spec.run_checks checks = inr v →
  match v with
  | Valid => ∀ c, c ∈ checks → c = Spec.passes
  | Invalid e =>
      ∃ i, checks !! i = Some (Spec.fails e)
           ∧ ∀ j c, (j < i)%nat → checks !! j = Some c → c = Spec.passes
  end.
Proof.
  revert v. induction checks as [|c checks IH]; intros v; cbn [Spec.run_checks].
  - intros [= <-]. intros c Hc. by apply elem_of_nil in Hc.
  - destruct c as [exn|[e|]]; [discriminate| |].
    + intros [= <-]. exists 0%nat. split; [reflexivity|]. intros j c Hj. lia.
    + rewrite inr_bind. intros Hv. specialize (IH v Hv). destruct v as [|e].
      * intros c [->|Hc]%elem_of_cons; [reflexivity | by apply IH].
      * destruct IH as (i & Hi & Hbefore). exists (S i). split; [exact Hi|].
        intros [|j] c Hj; simpl; [by intros [= <-]|].
        apply Hbefore. lia.
Qed.

(** Team validation never raises: the bench slots are only read once
    the bench keys are known to be 1..4. *)
Lemma validate_team_returns gw_df squad_ids starter_ids bench_ids captain_id vice_id :
  ∃ v, Validator.validate_team gw_df squad_ids starter_ids bench_ids captain_id vice_id
       = inr v.
Proof.
  unfold Validator.validate_team.
  repeat lazymatch goal with
  | |- ∃ v, ret ?x = _ => by exists x
  | |- ∃ v, (if ?b then _ else _) = _ => destruct b eqn:?
  | |- ∃ v, match ?o with Some _ => _ | None => _ end = _ => destruct o
  end.
  assert (Hdom : dom bench_ids = ({[1; 2; 3; 4]} : gset Z)).
  { apply bench_keys_dom. apply negb_false_iff in Heqb7.
    by apply bool_decide_eq_true in Heqb7. }
  destruct (bench_keys_lookup bench_ids 1 Hdom) as [p1 H1]; [set_solver|].
  destruct (bench_keys_lookup bench_ids 2 Hdom) as [p2 H2]; [set_solver|].
  destruct (bench_keys_lookup bench_ids 3 Hdom) as [p3 H3]; [set_solver|].
  destruct (bench_keys_lookup bench_ids 4 Hdom) as [p4 H4]; [set_solver|].
  rewrite (getitem_Some _ _ _ H1), inr_bind.
  destruct (with_id p1 gw_df) as [|r1 df1]; [eexists; reflexivity|].
  simpl length. cbn [Nat.eqb iloc0]. rewrite ret_bind.
  destruct (negb (bool_decide (position r1 = GK))); [eexists; reflexivity|].
  cbn [Validator.bench_outfield].
  rewrite (getitem_Some _ _ _ H2), inr_bind.
  destruct (with_id p2 gw_df) as [|r2 df2]; [eexists; reflexivity|].
  simpl length. cbn [Nat.eqb iloc0]. rewrite !ret_bind.
  destruct (bool_decide (position r2 = GK)); [eexists; reflexivity|].
  rewrite (getitem_Some _ _ _ H3), inr_bind.
  destruct (with_id p3 gw_df) as [|r3 df3]; [eexists; reflexivity|].
  simpl length. cbn [Nat.eqb iloc0]. rewrite !ret_bind.
  destruct (bool_decide (position r3 = GK)); [eexists; reflexivity|].
  rewrite (getitem_Some _ _ _ H4), inr_bind.
  destruct (with_id p4 gw_df) as [|r4 df4]; [eexists; reflexivity|].
  simpl length. cbn [Nat.eqb iloc0]. rewrite !ret_bind.
  destruct (bool_decide (position r4 = GK)); [eexists; reflexivity|].
  rewrite ret_bind.
  repeat lazymatch goal with
  | |- ∃ v, ret ?x = _ => by exists x
  | |- ∃ v, (if ?b then _ else _) = _ => destruct b eqn:?
  end.
Qed.

(** C6: team validation runs the eleven checks of the specification in
    their fixed order (squad size; squad quota; club limit; starters
    size; starter formation; bench keys; bench slot 1 is a GK; bench
    slots 2-4 are not; captain differs from vice; captain starts; vice
    starts) and always returns a verdict: the reason of the first check
    that fails, every check before it having passed, or no error (the
    empty message) when all eleven pass. *)
Theorem validate_team_first_failure_wins :
  ∀ (gw_df : DataFrame) (squad_ids starter_ids : list Z) (bench_ids : gmap Z Z)
    (captain_id vice_id : Z),
    let checks :=
      Spec.team_checks gw_df squad_ids starter_ids bench_ids captain_id vice_id in
    length checks = 11%nat
    ∧ ∃ v, Validator.validate_team gw_df squad_ids starter_ids bench_ids
             captain_id vice_id = inr v
           ∧ match v with
             | Valid =>
                 (∀ c, c ∈ checks → c = Spec.passes)
                 ∧ error_message Validator.team_message v = ""
             | Invalid e =>
                 ∃ i, checks !! i = Some (Spec.fails e)
                      ∧ ∀ j c, (j < i)%nat → checks !! j = Some c → c = Spec.passes
             end.
Proof.
  intros gw_df squad_ids starter_ids bench_ids captain_id vice_id checks.
  split; [reflexivity|].
  destruct (validate_team_returns gw_df squad_ids starter_ids bench_ids
              captain_id vice_id) as [v Hv].
  exists v. split; [exact Hv|].
  rewrite validate_team_run_checks in Hv.
  apply run_checks_first_failure in Hv.
  destruct v; [split; [exact Hv | reflexivity] | exact Hv].
Qed.

(** ** Squads with a duplicated or unknown id *)

Lemma remove_dups_shorter (l : list Z) : ¬ NoDup l → (length (remove_dups l) < length l)%nat.
Proof.
  induction l as [|x l IH]; intros Hnd.
  - destruct Hnd. constructor.
  - simpl. destruct (decide_rel elem_of x l) as [Hin|Hnin].
    + pose proof (submseteq_length _ _
        (NoDup_submseteq _ l (NoDup_remove_dups l)
           (λ y Hy, proj1 (elem_of_remove_dups l y) Hy))). simpl. lia.
    + simpl. apply -> Nat.succ_lt_mono. apply IH.
      intros Hl. apply Hnd. by constructor.
Qed.

(** In a table with one row per id, the rows selected by [isin] are no
    more than the ids of any list that covers them. *)
Lemma isin_length_le (gw_df : DataFrame) (ids cover : list Z) :
  NoDup (map player_id gw_df) →
  (∀ x, x ∈ ids → x ∈ map player_id gw_df → x ∈ cover) →
  (length (isin ids gw_df) ≤ length cover)%nat.
Proof.
  intros Hnd Hcover.
  rewrite <- (length_map player_id (isin ids gw_df)).
  apply submseteq_length, NoDup_submseteq.
  - unfold isin. clear Hcover. revert Hnd.
    induction gw_df as [|r df IH]; simpl; intros Hnd; [constructor|].
    apply NoDup_cons in Hnd as [Hr Hdf].
    rewrite filter_cons. destruct (decide (player_id r ∈ ids)).
    + simpl. apply NoDup_cons. split; [|by apply IH].
      intros Hin. apply Hr. apply list_elem_of_fmap in Hin as (r' & -> & Hr').
      apply list_elem_of_fmap. exists r'. split; [done|].
      by apply list_elem_of_filter in Hr' as [_ ?].
    + by apply IH.
  - intros x (r & -> & Hr)%list_elem_of_fmap.
    apply list_elem_of_filter in Hr as [Hin Hr].
    apply Hcover; [done|]. apply list_elem_of_fmap. by exists r.
Qed.

Lemma squad_quota_None (squad_df : DataFrame) :
  Validator.squad_quota squad_df Validator.expected = None → length squad_df = 15%nat.
Proof.
  unfold Validator.squad_quota, Validator.expected.
  rewrite <- (position_count_total squad_df).
  repeat match goal with
  | |- context [(?a =? ?b)%nat] => destruct (Nat.eqb_spec a b)
  end; cbn [negb]; try discriminate. lia.
Qed.

Lemma squad_quota_Some (squad_df : DataFrame) (items : list (Position * nat))
    (r : Validator.TeamReason) :
  Validator.squad_quota squad_df items = Some r →
  ∃ pos count, (pos, count) ∈ items
    ∧ r = Validator.SquadQuota pos count (position_count squad_df pos)
    ∧ position_count squad_df pos ≠ count.
Proof.
  induction items as [|[pos count] items IH]; simpl; [discriminate|].
  destruct (Nat.eqb_spec (position_count squad_df pos) count); cbn [negb].
  - intros (pos' & count' & Hin & Hr)%IH. exists pos', count'.
    split; [by right | done].
  - intros [= <-]. exists pos, count. split; [by left | done].
Qed.

(** C10: in a gameweek table with exactly one row per player id, team
    validation fails for every squad id list of length 15 that contains a
    duplicated id or an id with no row in the table: it returns the
    squad-quota error of some position, whose count of resolved players
    differs from the quota (GK 2, DEF 5, MID 5, FWD 3). *)
Theorem validate_team_rejects_short_squad :
  ∀ (gw_df : DataFrame) (squad_ids starter_ids : list Z) (bench_ids : gmap Z Z)
    (captain_id vice_id : Z),
    NoDup (map player_id gw_df) →
    length squad_ids = 15%nat →
    (¬ NoDup squad_ids ∨ ∃ x, x ∈ squad_ids ∧ x ∉ map player_id gw_df) →
    ∃ pos count actual,
      Validator.validate_team gw_df squad_ids starter_ids bench_ids captain_id vice_id
      = inr (Invalid (Validator.SquadQuota pos count actual))
      ∧ (pos, count) ∈ Validator.expected ∧ actual ≠ count.
Proof.
  intros gw_df squad_ids starter_ids bench_ids captain_id vice_id Htable Hlen Hbad.
  assert (Hshort : (length (isin squad_ids gw_df) < 15)%nat).
  { destruct Hbad as [Hdup | (x & Hx & Hmissing)].
    - pose proof (remove_dups_shorter squad_ids Hdup).
      pose proof (isin_length_le gw_df squad_ids (remove_dups squad_ids) Htable) as Hle.
      assert (length (isin squad_ids gw_df) ≤ length (remove_dups squad_ids))%nat; [|lia].
      apply Hle. intros y Hy _. by apply elem_of_remove_dups.
    - pose proof (length_filter_lt (λ y, y ≠ x) squad_ids x Hx) as Hlt.
      pose proof (isin_length_le gw_df squad_ids (filter (λ y, y ≠ x) squad_ids) Htable)
        as Hle.
      assert (length (isin squad_ids gw_df) ≤ length (filter (λ y, y ≠ x) squad_ids))%nat.
      { apply Hle. intros y Hy Hrow. apply list_elem_of_filter. split; [|done].
        intros ->. by apply Hmissing. }
      assert (length (filter (λ y, y ≠ x) squad_ids) < length squad_ids)%nat; [|lia].
      apply Hlt. intros Hne. by apply Hne. }
  unfold Validator.validate_team. rewrite Hlen. cbn [Nat.eqb negb].
  destruct (Validator.squad_quota (isin squad_ids gw_df) Validator.expected) as [r|] eqn:Hq.
  - apply squad_quota_Some in Hq as (pos & count & Hin & -> & Hne).
    by exists pos, count, (position_count (isin squad_ids gw_df) pos).
  - apply squad_quota_None in Hq. lia.
Qed.


Lemma validate_team_rejects_short_squad_witness :
  ∃ pos count actual,
    Validator.validate_team Sample.gw_df (replicate 15 8) Sample.starter_ids
      Sample.bench_ids 9 13
    = inr (Invalid (Validator.SquadQuota pos count actual))
    ∧ (pos, count) ∈ Validator.expected ∧ actual ≠ count.
Proof.
  apply validate_team_rejects_short_squad.
  - apply (bool_decide_unpack _). vm_compute. exact I.
  - reflexivity.
  - left. apply (bool_decide_unpack _). vm_compute. exact I.
Defined.

(** ** Scoring *)

Lemma played_spec (pid : Z) (df : DataFrame) :
  Scorer.played pid df = true ↔ pid ∈ map player_id df.
Proof. unfold Scorer.played. apply bool_decide_eq_true. Qed.

(** A player who is in the frame has a first row there. *)
Lemma with_id_head (pid : Z) (df : DataFrame) :
  pid ∈ map player_id df →
  ∃ r, head (with_id pid df) = Some r ∧ r ∈ df ∧ player_id r = pid.
Proof.
  intros (r & -> & Hr)%list_elem_of_fmap.
  assert (Hin : r ∈ with_id (player_id r) df) by (by apply list_elem_of_filter).
  destruct (with_id (player_id r) df) as [|r0 l] eqn:Hw; [by apply elem_of_nil in Hin|].
  assert (Hr0 : r0 ∈ with_id (player_id r) df) by (rewrite Hw; left).
  apply list_elem_of_filter in Hr0 as [? ?]. by exists r0.
Qed.

Lemma points_sum_app (l1 l2 : DataFrame) :
  Scorer.points_sum (l1 ++ l2) = Scorer.points_sum l1 + Scorer.points_sum l2.
Proof. induction l1 as [|r l1 IH]; simpl; [done | rewrite IH; lia]. Qed.

(** The points of a row of the frame are one summand of its total. *)
Lemma points_sum_split (r : Row) (df : DataFrame) :
  r ∈ df →
  ∃ l1 l2, df = l1 ++ r :: l2
    ∧ Scorer.points_sum df = Scorer.points_sum (l1 ++ l2) + points r.
Proof.
  intros (l1 & l2 & ->)%list_elem_of_split. exists l1, l2. split; [done|].
  rewrite !points_sum_app. simpl. lia.
Qed.

(** The bench loop only ever appends to the active frame. *)
Lemma process_bench_grows gw_df bench_ids slots active subs active' subs' :
  Scorer.process_bench gw_df bench_ids slots active subs = inr (active', subs') →
  ∃ added, active' = active ++ added.
Proof.
  revert active subs.
  induction slots as [|slot slots IH]; intros active subs; cbn [Scorer.process_bench].
  - intros Heq. inversion Heq; subst. exists []. symmetry. apply app_nil_r.
  - destruct (11 <=? length active)%nat.
    { intros Heq. inversion Heq; subst. exists []. symmetry. apply app_nil_r. }
    intros (pid & _ & H)%bind_inr. apply bind_inr in H as (p & _ & H).
    destruct (minutes p =? 0); [by apply IH in H|].
    destruct (is_valid _); [|by apply IH in H].
    apply IH in H as [added ->]. exists (p :: added). by rewrite <- app_assoc.
Qed.

(** C9: when no starter has minutes > 0 the scorer returns total 0, an
    empty final active set and a breakdown with no substitutions and no
    armband used; the bench is not consulted (the result is the same for
    every bench, also an empty or unresolvable one). *)
Theorem scorer_nobody_played :
  ∀ (gw_df : DataFrame) (starter_ids : list Z) (bench_ids : gmap Z Z)
    (captain_id vice_id : Z),
    (∀ r, r ∈ gw_df → player_id r ∈ starter_ids → ¬ 0 < minutes r) →
    ∃ details,
      Scorer.calculate_gameweek_points gw_df starter_ids bench_ids captain_id vice_id
      = inr (0, [], details)
      ∧ details = Scorer.NobodyPlayed [] false false 0
      ∧ Scorer.substitutions_of details = []
      ∧ Scorer.captain_used_of details = None.
Proof.
  intros gw_df starter_ids bench_ids captain_id vice_id Hidle.
  assert (Hnone : filter (λ r, 0 < minutes r) (isin starter_ids gw_df) = []).
  { destruct (filter _ (isin starter_ids gw_df)) as [|r l] eqn:Hf; [done|].
    assert (Hr : r ∈ filter (λ r, 0 < minutes r) (isin starter_ids gw_df))
      by (rewrite Hf; left).
    apply list_elem_of_filter in Hr as [Hmin Hr].
    apply list_elem_of_filter in Hr as [Hs Hr].
    by destruct (Hidle r Hr Hs). }
  exists (Scorer.NobodyPlayed [] false false 0).
  unfold Scorer.calculate_gameweek_points. rewrite Hnone. by repeat split.
Qed.

Lemma scorer_nobody_played_witness :
  ∃ details,
    Scorer.calculate_gameweek_points
      [Sample.player 5 DEF "MCI" 55 2 0; Sample.player 9 MID "ARS" 60 8 0;
       Sample.player 6 DEF "CHE" 45 6 90]
      [5; 9] ∅ 5 9
    = inr (0, [], details)
    ∧ details = Scorer.NobodyPlayed [] false false 0
    ∧ Scorer.substitutions_of details = []
    ∧ Scorer.captain_used_of details = None.
Proof.
  apply scorer_nobody_played.
  intros r Hr Hs.
  repeat (apply elem_of_cons in Hr as [->|Hr]); simpl; try lia.
  - exfalso. repeat (apply elem_of_cons in Hs as [Hs|Hs]; [discriminate Hs|]).
    by apply elem_of_nil in Hs.
  - by apply elem_of_nil in Hr.
Defined.

(** The scorer's result once some starter has played: the bench loop,
    then the armband. *)
Lemma calculate_gameweek_points_inr gw_df starter_ids bench_ids captain_id vice_id
    total active details :
  Scorer.calculate_gameweek_points gw_df starter_ids bench_ids captain_id vice_id
  = inr (total, active, details) →
  active ≠ [] →
  ∃ subs bonus used,
    Scorer.process_bench gw_df bench_ids [1; 2; 3; 4]
      (filter (λ r, 0 < minutes r) (isin starter_ids gw_df)) [] = inr (active, subs)
    ∧ (if Scorer.played captain_id active then
         c ← iloc0 (with_id captain_id active); ret (points c, Some Scorer.captain)
       else if Scorer.played vice_id active then
         v ← iloc0 (with_id vice_id active); ret (points v, Some Scorer.vice)
       else ret (0, None)) = inr (bonus, used)
    ∧ total = Scorer.points_sum active + bonus
    ∧ details = Scorer.Breakdown subs (Scorer.played captain_id active)
                  (Scorer.played vice_id active) used bonus
                  (Scorer.points_sum active) (length active).
Proof.
  unfold Scorer.calculate_gameweek_points.
  destruct (length (filter _ (isin starter_ids gw_df)) =? 0)%nat eqn:Hlen.
  { intros Heq Hne. inversion Heq; subst.
    apply Nat.eqb_eq in Hlen. destruct (filter _ _); [done | discriminate]. }
  intros H Hne. apply bind_inr in H as ([active' subs] & Hbench & H).
  apply bind_inr in H as ([bonus used] & Harm & H).
  inversion H; subst. by exists subs, bonus, used.
Qed.

(** C4: for every scorer run with a non-empty final active set, the
    total is the base points (the sum over the final active set) plus
    the armband bonus.  If the captain is in the final active set the
    bonus is the captain's points and the armband used is the captain's,
    so that the captain's points occur twice in the total; otherwise, if
    the vice is in the final active set, the bonus is the vice's points,
    once, and the armband used is the vice's; otherwise the bonus is 0
    and no armband is used. *)
Theorem scorer_armband_bonus :
  ∀ (gw_df : DataFrame) (starter_ids : list Z) (bench_ids : gmap Z Z)
    (captain_id vice_id total : Z) (active : DataFrame) (details : Scorer.Details),
    Scorer.calculate_gameweek_points gw_df starter_ids bench_ids captain_id vice_id
    = inr (total, active, details) →
    active ≠ [] →
    ∃ subs cp vp used bonus base n,
      details = Scorer.Breakdown subs cp vp used bonus base n
      ∧ base = Scorer.points_sum active
      ∧ total = base + bonus
      ∧ (captain_id ∈ map player_id active →
           used = Some Scorer.captain
           ∧ ∃ c l1 l2, head (with_id captain_id active) = Some c
               ∧ bonus = points c
               ∧ active = l1 ++ c :: l2
               ∧ total = Scorer.points_sum (l1 ++ l2) + 2 * points c)
      ∧ (captain_id ∉ map player_id active → vice_id ∈ map player_id active →
           used = Some Scorer.vice
           ∧ ∃ v l1 l2, head (with_id vice_id active) = Some v
               ∧ bonus = points v
               ∧ active = l1 ++ v :: l2
               ∧ total = Scorer.points_sum (l1 ++ l2) + 2 * points v)
      ∧ (captain_id ∉ map player_id active → vice_id ∉ map player_id active →
           used = None ∧ bonus = 0).
Proof.
  intros gw_df starter_ids bench_ids captain_id vice_id total active details Hrun Hne.
  apply calculate_gameweek_points_inr in Hrun as (subs & bonus & used & _ & Harm & -> & ->);
    [|done].
  eexists subs, _, _, used, bonus, _, _. split; [reflexivity|].
  split; [reflexivity|]. split; [reflexivity|].
  destruct (Scorer.played captain_id active) eqn:Hc.
  - apply played_spec in Hc.
    apply bind_inr in Harm as (c & Hhead%iloc0_head & Hret). inversion Hret; subst.
    split; [|split; intros; done].
    intros _. split; [reflexivity|].
    destruct (with_id_head _ _ Hc) as (c' & Hc' & Hin & _).
    assert (c' = c) as -> by congruence.
    destruct (points_sum_split c active Hin) as (l1 & l2 & Hsplit & Hsum).
    exists c, l1, l2. repeat split; [done | done | lia].
  - assert (Hnc : captain_id ∉ map player_id active).
    { intros Hin%played_spec. congruence. }
    destruct (Scorer.played vice_id active) eqn:Hv.
    + apply played_spec in Hv.
      apply bind_inr in Harm as (v & Hhead%iloc0_head & Hret). inversion Hret; subst.
      split; [intros; done|]. split; [|intros; done].
      intros _ _. split; [reflexivity|].
      destruct (with_id_head _ _ Hv) as (v' & Hv' & Hin & _).
      assert (v' = v) as -> by congruence.
      destruct (points_sum_split v active Hin) as (l1 & l2 & Hsplit & Hsum).
      exists v, l1, l2. repeat split; [done | done | lia].
    + assert (Hnv : vice_id ∉ map player_id active).
      { intros Hin%played_spec. congruence. }
      inversion Harm; subst. split; [intros; done|]. split; [intros; done|].
      intros _ _. by split.
Qed.

Lemma scorer_armband_bonus_witness :
  ∃ active details,
    Scorer.calculate_gameweek_points Sample.gw_df Sample.starter_ids Sample.bench_ids 13 9
    = inr (54, active, details)
    ∧ ∃ subs cp vp used bonus base n,
        details = Scorer.Breakdown subs cp vp used bonus base n
        ∧ base = Scorer.points_sum active
        ∧ 54 = base + bonus
        ∧ (13 ∈ map player_id active →
             used = Some Scorer.captain
             ∧ ∃ c l1 l2, head (with_id 13 active) = Some c
                 ∧ bonus = points c
                 ∧ active = l1 ++ c :: l2
                 ∧ 54 = Scorer.points_sum (l1 ++ l2) + 2 * points c)
        ∧ (13 ∉ map player_id active → 9 ∈ map player_id active →
             used = Some Scorer.vice
             ∧ ∃ v l1 l2, head (with_id 9 active) = Some v
                 ∧ bonus = points v
                 ∧ active = l1 ++ v :: l2
                 ∧ 54 = Scorer.points_sum (l1 ++ l2) + 2 * points v)
        ∧ (13 ∉ map player_id active → 9 ∉ map player_id active →
             used = None ∧ bonus = 0).
Proof.
  eexists _, _. split; [vm_compute; reflexivity|].
  apply (scorer_armband_bonus Sample.gw_df Sample.starter_ids Sample.bench_ids 13 9).
  - vm_compute. reflexivity.
  - discriminate.
Defined.

(** ** Automatic substitution *)

(** Once eleven players are active no further slot changes anything:
    skipping the remaining slots is the same as stopping. *)
Lemma bench_step_full (active : DataFrame) (subs : list Scorer.Substitution)
    (slots : list (Z * Row)) :
  (11 ≤ length active)%nat → foldl Spec.bench_step (active, subs) slots = (active, subs).
Proof.
  intros Hfull. induction slots as [|[slot p] slots IH]; [reflexivity|].
  cbn [foldl]. unfold Spec.bench_step at 2. by rewrite decide_True.
Qed.

Lemma process_bench_fold gw_df bench_ids (slots : list (Z * Row)) active subs :
  (∀ slot p, (slot, p) ∈ slots → Spec.bench_player gw_df bench_ids slot p) →
  Scorer.process_bench gw_df bench_ids (map fst slots) active subs
  = inr (foldl Spec.bench_step (active, subs) slots).
Proof.
  revert active subs. induction slots as [|[slot p] slots IH]; intros active subs Hres;
    [reflexivity|].
  cbn [map fst Scorer.process_bench].
  destruct (Nat.leb_spec 11 (length active)) as [Hfull|Hroom].
  { by rewrite bench_step_full. }
  destruct (Hres slot p) as (pid & Hpid & Hp); [left|].
  rewrite (getitem_Some _ _ _ Hpid), inr_bind.
  apply iloc0_head in Hp. rewrite Hp, inr_bind.
  assert (Hrest : ∀ slot' p', (slot', p') ∈ slots →
                              Spec.bench_player gw_df bench_ids slot' p').
  { intros slot' p' Hin. apply Hres. by right. }
  cbn [foldl]. unfold Spec.bench_step at 2.
  rewrite decide_False by lia.
  destruct (Z.eqb_spec (minutes p) 0) as [Hidle|Hplayed].
  { rewrite decide_True by done. by apply IH. }
  rewrite decide_False by done.
  destruct (is_valid _); by apply IH.
Qed.

(** The armband step cannot fail: a player who is in the active frame
    has a row there. *)
Lemma armband_returns (captain_id vice_id : Z) (active : DataFrame) :
  ∃ bonus used,
    (if Scorer.played captain_id active then
       c ← iloc0 (with_id captain_id active); ret (points c, Some Scorer.captain)
     else if Scorer.played vice_id active then
       v ← iloc0 (with_id vice_id active); ret (points v, Some Scorer.vice)
     else ret (0, None)) = inr (bonus, used).
Proof.
  destruct (Scorer.played captain_id active) eqn:Hc.
  - apply played_spec, with_id_head in Hc as (c & Hc%iloc0_head & _).
    rewrite Hc. by eexists _, _.
  - destruct (Scorer.played vice_id active) eqn:Hv.
    + apply played_spec, with_id_head in Hv as (v & Hv%iloc0_head & _).
      rewrite Hv. by eexists _, _.
    + by eexists _, _.
Qed.

(** A team that passed validation has its four bench slots filled with
    players of the table, which is what the scorer relies on. *)
Lemma validate_team_bench_resolves gw_df squad_ids starter_ids bench_ids captain_id vice_id :
  Validator.validate_team gw_df squad_ids starter_ids bench_ids captain_id vice_id
  = inr Valid →
  ∃ b1 b2 b3 b4,
    Spec.bench_player gw_df bench_ids 1 b1 ∧ Spec.bench_player gw_df bench_ids 2 b2
    ∧ Spec.bench_player gw_df bench_ids 3 b3 ∧ Spec.bench_player gw_df bench_ids 4 b4.
Proof.
  rewrite validate_team_run_checks. intros Hall%run_checks_first_failure.
  assert (Hslot : ∀ pos, Spec.check_bench_slot_outfield gw_df bench_ids pos = Spec.passes →
                         ∃ b, Spec.bench_player gw_df bench_ids pos b).
  { intros pos. unfold Spec.check_bench_slot_outfield.
    destruct (getitem bench_ids pos) as [|pid] eqn:Hpid; [discriminate|].
    rewrite inr_bind. apply getitem_inr in Hpid.
    destruct (with_id pid gw_df) as [|b df] eqn:Hb; [discriminate|].
    intros _. exists b, pid. by rewrite Hb. }
  assert (H1 : ∃ b, Spec.bench_player gw_df bench_ids 1 b).
  { assert (Hgk : Spec.check_bench_gk gw_df bench_ids = Spec.passes).
    { apply Hall. unfold Spec.team_checks. set_solver. }
    unfold Spec.check_bench_gk in Hgk.
    destruct (getitem bench_ids 1) as [|pid] eqn:Hpid; [discriminate|].
    rewrite inr_bind in Hgk. apply getitem_inr in Hpid.
    destruct (with_id pid gw_df) as [|b df] eqn:Hb; [discriminate|].
    exists b, pid. by rewrite Hb. }
  assert (Hout : Spec.check_bench_outfield gw_df bench_ids = Spec.passes).
  { apply Hall. unfold Spec.team_checks. set_solver. }
  unfold Spec.check_bench_outfield in Hout.
  destruct (Spec.check_bench_slot_outfield gw_df bench_ids 2) as [|[r|]] eqn:H2;
    try discriminate.
  rewrite inr_bind in Hout.
  destruct (Spec.check_bench_slot_outfield gw_df bench_ids 3) as [|[r|]] eqn:H3;
    try discriminate.
  rewrite inr_bind in Hout.
  destruct H1 as [b1 H1], (Hslot 2 H2) as [b2 Hb2], (Hslot 3 H3) as [b3 Hb3],
    (Hslot 4 Hout) as [b4 Hb4].
  by exists b1, b2, b3, b4.
Qed.

(** C5: when some starter has played and the four bench slots hold
    players [b1] .. [b4], the scorer's final active set and its recorded
    substitutions are those of the specification's procedure: the slots
    are taken in the fixed order 1, 2, 3, 4; nothing more happens once
    eleven players are active; a bench player with 0 minutes is skipped;
    any other is added tentatively and kept only if the enlarged set
    passes the formation check, else skipped for good; each kept player
    is recorded (slot, id, points) in the order of commitment. *)
Theorem scorer_bench_in_order :
  ∀ (gw_df : DataFrame) (starter_ids : list Z) (bench_ids : gmap Z Z)
    (captain_id vice_id : Z) (b1 b2 b3 b4 : Row),
    Spec.bench_player gw_df bench_ids 1 b1 →
    Spec.bench_player gw_df bench_ids 2 b2 →
    Spec.bench_player gw_df bench_ids 3 b3 →
    Spec.bench_player gw_df bench_ids 4 b4 →
    filter (λ r, 0 < minutes r) (isin starter_ids gw_df) ≠ [] →
    ∃ total details,
      Scorer.calculate_gameweek_points gw_df starter_ids bench_ids captain_id vice_id
      = inr (total,
             (Spec.auto_substitute
                (filter (λ r, 0 < minutes r) (isin starter_ids gw_df)) b1 b2 b3 b4).1,
             details)
      ∧ Scorer.substitutions_of details
        = (Spec.auto_substitute
             (filter (λ r, 0 < minutes r) (isin starter_ids gw_df)) b1 b2 b3 b4).2.
Proof.
  intros gw_df starter_ids bench_ids captain_id vice_id b1 b2 b3 b4 H1 H2 H3 H4 Hplayed.
  unfold Scorer.calculate_gameweek_points, Spec.auto_substitute.
  destruct (filter _ (isin starter_ids gw_df)) as [|r0 active0] eqn:Hactive; [done|].
  change (length (r0 :: active0) =? 0)%nat with false. cbv iota.
  rewrite (process_bench_fold gw_df bench_ids [(1, b1); (2, b2); (3, b3); (4, b4)]).
  2:{ intros slot p Hin.
      repeat (apply elem_of_cons in Hin as [[= -> ->]|Hin]; [done|]).
      by apply elem_of_nil in Hin. }
  rewrite inr_bind.
  destruct (foldl Spec.bench_step (r0 :: active0, []) _) as [active subs].
  destruct (armband_returns captain_id vice_id active) as (bonus & used & Harm).
  rewrite Harm, inr_bind. by eexists _, _.
Qed.

Lemma scorer_bench_in_order_witness :
  ∃ total details,
    Scorer.calculate_gameweek_points Sample.gw_df Sample.starter_ids Sample.bench_ids 9 13
    = inr (total,
           (Spec.auto_substitute
              (filter (λ r, 0 < minutes r) (isin Sample.starter_ids Sample.gw_df))
              (Sample.player 2 GK "BRE" 40 1 90) (Sample.player 6 DEF "CHE" 45 6 90)
              (Sample.player 12 MID "AVL" 55 4 0) (Sample.player 7 DEF "TOT" 45 1 90)).1,
           details)
    ∧ Scorer.substitutions_of details
      = (Spec.auto_substitute
           (filter (λ r, 0 < minutes r) (isin Sample.starter_ids Sample.gw_df))
           (Sample.player 2 GK "BRE" 40 1 90) (Sample.player 6 DEF "CHE" 45 6 90)
           (Sample.player 12 MID "AVL" 55 4 0) (Sample.player 7 DEF "TOT" 45 1 90)).2.
Proof.
  apply scorer_bench_in_order.
  - exists 2. split; vm_compute; reflexivity.
  - exists 6. split; vm_compute; reflexivity.
  - exists 12. split; vm_compute; reflexivity.
  - exists 7. split; vm_compute; reflexivity.
  - vm_compute. discriminate.
Defined.


(** ** Bench order *)

Section BenchOrder.
Context (players : gmap Z Row).

Lemma select_position_filter (keep : Position → bool) (bench_ids : list Z) :
  (∀ pid, pid ∈ bench_ids → is_Some (players !! pid)) →
  Utils.select_position players keep bench_ids
  = inr (filter (λ pid, keep <$> (position <$> players !! pid) = Some true) bench_ids).
Proof.
  induction bench_ids as [|pid ids IH]; intros Hres; [reflexivity|].
  cbn [Utils.select_position].
  destruct (Hres pid) as [p Hp]; [left|].
  rewrite (getitem_Some _ _ _ Hp), inr_bind.
  rewrite IH, inr_bind by (intros pid' ?; apply Hres; by right).
  rewrite filter_cons, Hp. simpl.
  destruct (keep (position p)); [by rewrite decide_True | by rewrite decide_False].
Qed.

Lemma select_position_missing (keep : Position → bool) (bench_ids : list Z) :
  ¬ (∀ pid, pid ∈ bench_ids → is_Some (players !! pid)) →
  Utils.select_position players keep bench_ids = inl KeyError.
Proof.
  induction bench_ids as [|pid ids IH]; intros Hmiss.
  - destruct Hmiss. intros pid Hin. by apply elem_of_nil in Hin.
  - cbn [Utils.select_position]. unfold getitem.
    destruct (players !! pid) as [p|] eqn:Hp; [|reflexivity].
    rewrite ret_bind, IH; [reflexivity|].
    intros Hres. apply Hmiss. intros pid' [->|Hin]%elem_of_cons; [by eexists | by apply Hres].
Qed.

Lemma select_gk (bench_ids : list Z) :
  (∀ pid, pid ∈ bench_ids → is_Some (players !! pid)) →
  Utils.select_position players (λ p, bool_decide (p = GK)) bench_ids
  = inr (Spec.gk_ids players bench_ids).
Proof.
  intros Hres. rewrite select_position_filter by done. f_equal.
  apply list_filter_iff. intros pid.
  destruct (players !! pid) as [p|]; simpl; [|split; discriminate].
  destruct (decide (position p = GK)) as [->|Hne].
  - by rewrite bool_decide_eq_true_2.
  - rewrite bool_decide_eq_false_2 by done. split; intros [=]; done.
Qed.

Lemma select_outfield (bench_ids : list Z) :
  (∀ pid, pid ∈ bench_ids → is_Some (players !! pid)) →
  Utils.select_position players (λ p, negb (bool_decide (p = GK))) bench_ids
  = inr (Spec.outfield_ids players bench_ids).
Proof.
  intros Hres. rewrite select_position_filter by done. f_equal.
  apply list_filter_iff. intros pid.
  destruct (players !! pid) as [p|]; simpl.
  - destruct (decide (position p = GK)) as [->|Hne].
    + rewrite bool_decide_eq_true_2 by done. simpl. split; [discriminate|].
      intros [_ Hne]. by destruct Hne.
    + rewrite bool_decide_eq_false_2 by done. simpl. split; [|done].
      intros _. split; [by eexists|]. intros [=]. done.
  - split; [discriminate|]. intros [[? [=]] _].
Qed.

Lemma keyed_resolved (ids : list Z) :
  (∀ pid, pid ∈ ids → is_Some (players !! pid)) →
  Utils.keyed players ids
  = inr (map (λ pid, (pid, Spec.expected_points_of players pid)) ids).
Proof.
  induction ids as [|pid ids IH]; intros Hres; [reflexivity|].
  cbn [Utils.keyed map].
  destruct (Hres pid) as [p Hp]; [left|].
  rewrite (getitem_Some _ _ _ Hp), inr_bind.
  rewrite IH, inr_bind by (intros pid' ?; apply Hres; by right).
  unfold Spec.expected_points_of. by rewrite Hp.
Qed.

Lemma higher_first_total (a b : Z * Q) : Utils.higher_first a b = false → Utils.higher_first b a = true.
Proof.
  unfold Utils.higher_first. intros Hab. apply Qle_bool_iff.
  destruct (Qlt_le_dec (snd a) (snd b)) as [Hlt|Hle]; [by apply Qlt_le_weak|].
  apply Qle_bool_iff in Hle. congruence.
Qed.

Lemma higher_first_trans (a b c : Z * Q) :
  Utils.higher_first a b = true → Utils.higher_first b c = true → Utils.higher_first a c = true.
Proof.
  unfold Utils.higher_first. rewrite !Qle_bool_iff. intros Hab Hbc. by eapply Qle_trans.
Qed.

Lemma fst_filter_keyed (q : Q) (ids : list Z) :
  map fst (filter (λ pr : Z * Q, (snd pr == q)%Q)
             (map (λ pid, (pid, Spec.expected_points_of players pid)) ids))
  = filter (λ pid, (Spec.expected_points_of players pid == q)%Q) ids.
Proof.
  induction ids as [|pid ids IH]; [reflexivity|].
  cbn [map]. rewrite !filter_cons. cbn [snd].
  destruct (decide (Spec.expected_points_of players pid == q)%Q); simpl; by rewrite IH.
Qed.

Lemma keyed_list (L : list (Z * Q)) :
  Forall (λ pr, snd pr = Spec.expected_points_of players (fst pr)) L →
  L = map (λ pid, (pid, Spec.expected_points_of players pid)) (map fst L).
Proof.
  induction 1 as [|[pid q] L Hq HL IH]; [reflexivity|].
  simpl in *. by rewrite <- IH, Hq.
Qed.

Lemma sorted_fst (L : list (Z * Q)) :
  Forall (λ pr, snd pr = Spec.expected_points_of players (fst pr)) L →
  StronglySorted (λ a b, Utils.higher_first a b = true) L →
  StronglySorted (λ a b, (Spec.expected_points_of players b
                          <= Spec.expected_points_of players a)%Q) (map fst L).
Proof.
  intros Hkeyed. induction 1 as [|a L HL IH Ha]; [constructor|].
  apply Forall_cons in Hkeyed as [Hka HkL]. cbn [map]. constructor; [by apply IH|].
  apply Forall_fmap, Forall_forall. intros b Hb. simpl.
  rewrite Forall_forall in Ha, HkL.
  rewrite <- Hka, <- (HkL b Hb). apply Qle_bool_iff. by apply Ha.
Qed.

(** The sorted bench: a stable descending sort of the given ids. *)
Lemma sorted_by_expected_points_desc_spec (ids : list Z) :
  (∀ pid, pid ∈ ids → is_Some (players !! pid)) →
  ∃ sorted,
    Utils.sorted_by_expected_points_desc players ids = inr sorted
    ∧ sorted ≡ₚ ids
    ∧ StronglySorted (λ a b, (Spec.expected_points_of players b
                              <= Spec.expected_points_of players a)%Q) sorted
    ∧ ∀ q, filter (λ pid, (Spec.expected_points_of players pid == q)%Q) sorted
           = filter (λ pid, (Spec.expected_points_of players pid == q)%Q) ids.
Proof.
  intros Hres. unfold Utils.sorted_by_expected_points_desc.
  rewrite keyed_resolved by done. rewrite inr_bind.
  set (key := λ pid, (pid, Spec.expected_points_of players pid)).
  set (L := sort_by Utils.higher_first (map key ids)).
  assert (Hperm : L ≡ₚ map key ids) by apply sort_by_perm.
  assert (Hkeyed : Forall (λ pr, snd pr = Spec.expected_points_of players (fst pr)) L).
  { rewrite Hperm. apply Forall_fmap, Forall_forall. by intros pid _. }
  assert (Hfst : map fst (map key ids) = ids).
  { rewrite map_map. simpl. apply map_id. }
  exists (map fst L). split; [reflexivity|]. split; [|split].
  - transitivity (map fst (map key ids)); [by apply Permutation_map | by rewrite Hfst].
  - apply sorted_fst; [done|].
    apply sort_by_sorted; [apply higher_first_total | apply higher_first_trans].
  - intros q. rewrite <- (fst_filter_keyed q (map fst L)), <- (keyed_list L Hkeyed).
    unfold L. rewrite (sort_by_stable Utils.higher_first (λ pr, (snd pr == q)%Q)).
    + apply fst_filter_keyed.
    + intros a b Ha Hb. apply Qle_bool_iff. rewrite Ha, Hb. apply Qle_refl.
Qed.
End BenchOrder.

(** C8: when every bench id resolves and the bench holds exactly one GK
    and exactly three other players, the bench order is that GK followed
    by the three others sorted by descending expected points, players of
    equal expected points keeping the order in which the bench lists
    them; when the number of GKs in the bench is not 1, the derivation
    fails with an error. *)
Theorem bench_order_gk_then_descending :
  ∀ (players : gmap Z Row) (bench_ids : list Z),
    ((∀ pid, pid ∈ bench_ids → is_Some (players !! pid)) →
     ∀ gk, Spec.gk_ids players bench_ids = [gk] →
     length (Spec.outfield_ids players bench_ids) = 3%nat →
     ∃ rest,
       Utils.assign_bench_positions players bench_ids = inr (gk :: rest)
       ∧ length rest = 3%nat
       ∧ rest ≡ₚ Spec.outfield_ids players bench_ids
       ∧ StronglySorted (λ a b, (Spec.expected_points_of players b
                                 <= Spec.expected_points_of players a)%Q) rest
       ∧ ∀ q, filter (λ pid, (Spec.expected_points_of players pid == q)%Q) rest
              = filter (λ pid, (Spec.expected_points_of players pid == q)%Q)
                       (Spec.outfield_ids players bench_ids))
    ∧ (length (Spec.gk_ids players bench_ids) ≠ 1%nat →
       ∃ e, Utils.assign_bench_positions players bench_ids = inl e).
Proof.
  intros players bench_ids. unfold Utils.assign_bench_positions. split.
  - intros Hres gk Hgk Hout.
    rewrite select_gk, inr_bind, Hgk by done.
    cbn [length Nat.eqb negb list_getitem lookup list_lookup]. rewrite ret_bind.
    rewrite select_outfield, inr_bind, Hout by done. cbn [Nat.eqb negb].
    destruct (sorted_by_expected_points_desc_spec players
                (Spec.outfield_ids players bench_ids))
      as (sorted & Hrun & Hperm & Hsorted & Hstable).
    { intros pid Hin. apply Hres.
      by apply list_elem_of_filter in Hin as [_ ?]. }
    rewrite Hrun, inr_bind. exists sorted. split; [reflexivity|].
    split; [by rewrite Hperm|]. done.
  - intros Hcount.
    destruct (decide (Forall (λ pid, is_Some (players !! pid)) bench_ids)) as [Hres|Hmiss].
    + rewrite Forall_forall in Hres. rewrite select_gk, inr_bind by done.
      destruct (Nat.eqb_spec (length (Spec.gk_ids players bench_ids)) 1); [done|].
      cbn [negb]. eexists; reflexivity.
    + rewrite (select_position_missing players (λ p, bool_decide (p = GK)));
        [eexists; reflexivity|].
      by rewrite <- Forall_forall.
Qed.

Lemma bench_order_gk_then_descending_witness :
  (∃ rest,
     Utils.assign_bench_positions (rows_by_id Sample.gw_df) [2; 7; 6; 3]
     = inr (2 :: rest)
     ∧ length rest = 3%nat
     ∧ rest ≡ₚ Spec.outfield_ids (rows_by_id Sample.gw_df) [2; 7; 6; 3]
     ∧ StronglySorted
         (λ a b, (Spec.expected_points_of (rows_by_id Sample.gw_df) b
                  <= Spec.expected_points_of (rows_by_id Sample.gw_df) a)%Q) rest
     ∧ ∀ q, filter (λ pid, (Spec.expected_points_of (rows_by_id Sample.gw_df) pid
                            == q)%Q) rest
            = filter (λ pid, (Spec.expected_points_of (rows_by_id Sample.gw_df) pid
                              == q)%Q)
                     (Spec.outfield_ids (rows_by_id Sample.gw_df) [2; 7; 6; 3]))
  ∧ (∃ e, Utils.assign_bench_positions (rows_by_id Sample.gw_df) [1; 2; 7; 6] = inl e).
Proof.
  split.
  - apply (proj1 (bench_order_gk_then_descending (rows_by_id Sample.gw_df) [2; 7; 6; 3])).
    + intros pid Hin.
      repeat (apply elem_of_cons in Hin as [->|Hin]; [eexists; vm_compute; reflexivity|]).
      by apply elem_of_nil in Hin.
    + vm_compute. reflexivity.
    + vm_compute. reflexivity.
  - apply (proj2 (bench_order_gk_then_descending (rows_by_id Sample.gw_df) [1; 2; 7; 6])).
    vm_compute. lia.
Defined.


(** ** Selling prices *)

(** Half of an integer profit, rounded up. *)
Lemma ceil_half_div (profit : Z) : ceil_half profit = (profit + 1) / 2.
Proof.
  unfold ceil_half, Qceiling, Qfloor. cbn [Qmult Qopp inject_Z Qnum Qden].
  change (Z.pos (2 * 1)) with 2. rewrite Z.mul_1_l.
  Z.div_mod_to_equations. lia.
Qed.

(** A dict comprehension holds, for each key, the value computed for it. *)
Lemma dict_comp_lookup {V : Type} (f : Z → py V) (keys : list Z) (acc : gmap Z V) :
  (∀ k, k ∈ keys → ∃ v, f k = inr v) →
  ∃ d, dict_comp f keys acc = inr d
       ∧ (∀ k v, k ∈ keys → f k = inr v → d !! k = Some v)
       ∧ (∀ k, k ∉ keys → d !! k = acc !! k).
Proof.
  revert acc. induction keys as [|k keys IH]; intros acc Hf.
  - exists acc. split; [reflexivity|]. split; [|done].
    intros k v Hk. by apply elem_of_nil in Hk.
  - cbn [dict_comp]. destruct (Hf k) as [v Hv]; [left|]. rewrite Hv, inr_bind.
    destruct (IH (<[k := v]> acc)) as (d & Hd & Hin & Hout).
    { intros k' Hk'. apply Hf. by right. }
    exists d. split; [exact Hd|]. split.
    + intros k' v' Hk' Hv'. destruct (decide (k' ∈ keys)) as [Hrest|Hrest].
      * by apply Hin.
      * apply elem_of_cons in Hk' as [->|Hk']; [|done].
        rewrite Hout by done. rewrite lookup_insert_eq. congruence.
    + intros k' Hk'. apply not_elem_of_cons in Hk' as [Hne Hk'].
      rewrite Hout by done. by rewrite lookup_insert_ne.
Qed.

Lemma dict_comp_inr {V : Type} (f : Z → py V) (keys : list Z) (acc d : gmap Z V) :
  dict_comp f keys acc = inr d → ∀ k, k ∈ keys → ∃ v, f k = inr v.
Proof.
  revert acc. induction keys as [|k keys IH]; intros acc Hd k' Hk'.
  - by apply elem_of_nil in Hk'.
  - cbn [dict_comp] in Hd. apply bind_inr in Hd as (v & Hv & Hd).
    apply elem_of_cons in Hk' as [->|Hk']; [by exists v | by eapply IH].
Qed.

(** With one row per id, the index dict maps every id to its row. *)
Lemma rows_by_id_lookup (df : DataFrame) (r : Row) :
  NoDup (map player_id df) → r ∈ df → rows_by_id df !! player_id r = Some r.
Proof.
  intros Hnd Hr. unfold rows_by_id. apply elem_of_list_to_map_1.
  - by rewrite <- list_fmap_compose.
  - apply list_elem_of_fmap. by exists r.
Qed.

(** With distinct ids, [player_id_to_idx] numbers them from 1 in order. *)
Lemma make_player_id_to_idx_lookup (player_ids : list Z) (i : nat) (pid : Z) :
  NoDup player_ids → player_ids !! i = Some pid →
  MiniZinc.make_player_id_to_idx player_ids !! pid = Some (S i).
Proof.
  intros Hnd Hi. unfold MiniZinc.make_player_id_to_idx. apply elem_of_list_to_map_1.
  - rewrite fmap_reverse, fmap_imap, reverse_Permutation.
    rewrite (imap_ext _ (const id)) by done.
    by rewrite imap_const, list_fmap_id.
  - apply elem_of_reverse. by apply (elem_of_lookup_imap_2 (λ idx pid, (pid, S idx))).
Qed.

(** The selling prices the MILP state update works with. *)
Lemma milp_selling_prices (players_df : DataFrame) (p0 : gmap Z Z) :
  NoDup (map player_id players_df) →
  (∀ r, r ∈ players_df → is_Some (p0 !! player_id r)) →
  ∃ sp,
    Milp.selling_prices (rows_by_id players_df) p0 (map player_id players_df) = inr sp
    ∧ ∀ r pp, r ∈ players_df → p0 !! player_id r = Some pp →
        sp !! player_id r = Some (Milp.selling_price (cost r) pp).
Proof.
  intros Hnd Hp0. unfold Milp.selling_prices.
  set (f := λ pid : Z, _).
  assert (Hf : ∀ r pp, r ∈ players_df → p0 !! player_id r = Some pp →
                       f (player_id r) = inr (Milp.selling_price (cost r) pp)).
  { intros r pp Hr Hpp. unfold f.
    rewrite (getitem_Some _ _ _ (rows_by_id_lookup _ _ Hnd Hr)), inr_bind.
    by rewrite (getitem_Some _ _ _ Hpp), inr_bind. }
  destruct (dict_comp_lookup f (map player_id players_df) ∅) as (sp & Hsp & Hin & _).
  { intros k (r & -> & Hr)%list_elem_of_fmap. destruct (Hp0 r Hr) as [pp Hpp].
    eexists. by apply Hf. }
  exists sp. split; [exact Hsp|]. intros r pp Hr Hpp.
  apply Hin; [|by apply Hf]. apply list_elem_of_fmap. by exists r.
Qed.

(** The selling prices the MiniZinc state update works with. *)
Lemma minizinc_selling_prices_from (rows : DataFrame) (p0_array : list Z)
    (idx : gmap Z nat) (acc : gmap Z Z) :
  NoDup (map player_id rows) →
  (∀ r, r ∈ rows → ∃ i pp, idx !! player_id r = Some (S i) ∧ p0_array !! i = Some pp) →
  ∃ sp,
    MiniZinc.calculate_selling_prices_from rows p0_array idx acc = inr sp
    ∧ (∀ r i pp, r ∈ rows → idx !! player_id r = Some (S i) → p0_array !! i = Some pp →
         sp !! player_id r = Some (MiniZinc.selling_price (cost r) pp))
    ∧ (∀ pid, pid ∉ map player_id rows → sp !! pid = acc !! pid).
Proof.
  revert acc. induction rows as [|r rows IH]; intros acc Hnd Hres.
  - exists acc. split; [reflexivity|]. split; [|done].
    intros r i pp Hr. by apply elem_of_nil in Hr.
  - cbn [map] in Hnd. apply NoDup_cons in Hnd as [Hr Hnd].
    cbn [MiniZinc.calculate_selling_prices_from].
    destruct (Hres r) as (i & pp & Hi & Hpp); [left|].
    rewrite (getitem_Some _ _ _ Hi), inr_bind.
    unfold list_getitem at 1. replace (S i - 1)%nat with i by lia.
    rewrite Hpp, ret_bind.
    destruct (IH (<[player_id r := MiniZinc.selling_price (cost r) pp]> acc) Hnd)
      as (sp & Hsp & Hin & Hout).
    { intros r' Hr'. apply Hres. by right. }
    exists sp. split; [exact Hsp|]. split.
    + intros r' i' pp' [->|Hr']%elem_of_cons Hi' Hpp'.
      * rewrite Hout by done. rewrite lookup_insert_eq.
        assert (i' = i) as -> by congruence. congruence.
      * by eapply Hin.
    + intros pid [Hne Hpid]%not_elem_of_cons.
      rewrite Hout by done. by rewrite lookup_insert_ne.
Qed.

Lemma minizinc_selling_prices (players_df : DataFrame) (p0_array : list Z) :
  NoDup (map player_id players_df) →
  length p0_array = length players_df →
  ∃ sp,
    MiniZinc.calculate_selling_prices players_df p0_array
      (MiniZinc.make_player_id_to_idx (map player_id players_df)) = inr sp
    ∧ ∀ i r pp, players_df !! i = Some r → p0_array !! i = Some pp →
        sp !! player_id r = Some (MiniZinc.selling_price (cost r) pp).
Proof.
  intros Hnd Hlen. unfold MiniZinc.calculate_selling_prices.
  assert (Hidx : ∀ i r, players_df !! i = Some r →
            MiniZinc.make_player_id_to_idx (map player_id players_df) !! player_id r
            = Some (S i)).
  { intros i r Hi. apply make_player_id_to_idx_lookup; [done|].
    by rewrite list_lookup_fmap, Hi. }
  destruct (minizinc_selling_prices_from players_df p0_array
              (MiniZinc.make_player_id_to_idx (map player_id players_df)) ∅ Hnd)
    as (sp & Hsp & Hin & _).
  { intros r (i & Hi)%list_elem_of_lookup.
    destruct (lookup_lt_is_Some_2 p0_array i) as [pp Hpp].
    { rewrite Hlen. by eapply lookup_lt_Some. }
    exists i, pp. split; [by apply Hidx | done]. }
  exists sp. split; [exact Hsp|]. intros i r pp Hi Hpp.
  eapply Hin; [by eapply list_elem_of_lookup_2 | by apply Hidx | done].
Qed.

(** C3: for every owned player (a recorded purchase price above 0) the
    selling price that the transfer-state update works with, in the MILP
    and in the MiniZinc optimiser, is purchasePrice + ceil(0.5 *
    (currentCost - purchasePrice)) when currentCost > purchasePrice and
    currentCost otherwise; bought at 50, a cost of 70 sells at 60 and a
    cost of 45 sells at 45. *)
Theorem selling_price_profit_lock :
  (∀ (players_df : DataFrame) (p0 : gmap Z Z),
     NoDup (map player_id players_df) →
     (∀ r, r ∈ players_df → is_Some (p0 !! player_id r)) →
     ∃ sp,
       Milp.selling_prices (rows_by_id players_df) p0 (map player_id players_df)
       = inr sp
       ∧ ∀ r pp, r ∈ players_df → p0 !! player_id r = Some pp → 0 < pp →
           sp !! player_id r
           = Some (if decide (pp < cost r)
                   then pp + Qceiling ((1 # 2) * inject_Z (cost r - pp))
                   else cost r))
  ∧ (∀ (players_df : DataFrame) (p0_array : list Z),
       NoDup (map player_id players_df) →
       length p0_array = length players_df →
       ∃ sp,
         MiniZinc.calculate_selling_prices players_df p0_array
           (MiniZinc.make_player_id_to_idx (map player_id players_df)) = inr sp
         ∧ ∀ i r pp, players_df !! i = Some r → p0_array !! i = Some pp → 0 < pp →
             sp !! player_id r
             = Some (if decide (pp < cost r)
                     then pp + Qceiling ((1 # 2) * inject_Z (cost r - pp))
                     else cost r))
  ∧ Milp.selling_price 70 50 = 60 ∧ Milp.selling_price 45 50 = 45
  ∧ MiniZinc.selling_price 70 50 = 60 ∧ MiniZinc.selling_price 45 50 = 45.
Proof.
  split; [|split; [|by vm_compute]].
  - intros players_df p0 Hnd Hp0.
    destruct (milp_selling_prices players_df p0 Hnd Hp0) as (sp & Hsp & Hprice).
    exists sp. split; [exact Hsp|]. intros r pp Hr Hpp Hown.
    rewrite (Hprice r pp Hr Hpp). unfold Milp.selling_price, ceil_half.
    destruct (Z.ltb_spec pp (cost r)); [by rewrite decide_True | by rewrite decide_False by lia].
  - intros players_df p0_array Hnd Hlen.
    destruct (minizinc_selling_prices players_df p0_array Hnd Hlen) as (sp & Hsp & Hprice).
    exists sp. split; [exact Hsp|]. intros i r pp Hi Hpp Hown.
    rewrite (Hprice i r pp Hi Hpp). unfold MiniZinc.selling_price, ceil_half.
    assert ((0 <? pp) = true) as -> by (by apply Z.ltb_lt).
    destruct (Z.ltb_spec pp (cost r)); [by rewrite decide_True | by rewrite decide_False by lia].
Qed.

Lemma selling_price_profit_lock_witness :
  (∃ sp,
     Milp.selling_prices (rows_by_id Sample.gw_df) Sample.p0
       (map player_id Sample.gw_df) = inr sp
     ∧ ∀ r pp, r ∈ Sample.gw_df → Sample.p0 !! player_id r = Some pp → 0 < pp →
         sp !! player_id r
         = Some (if decide (pp < cost r)
                 then pp + Qceiling ((1 # 2) * inject_Z (cost r - pp))
                 else cost r))
  ∧ (∃ sp,
       MiniZinc.calculate_selling_prices Sample.gw_df Sample.p0_array
         (MiniZinc.make_player_id_to_idx (map player_id Sample.gw_df)) = inr sp
       ∧ ∀ i r pp, Sample.gw_df !! i = Some r → Sample.p0_array !! i = Some pp → 0 < pp →
           sp !! player_id r
           = Some (if decide (pp < cost r)
                   then pp + Qceiling ((1 # 2) * inject_Z (cost r - pp))
                   else cost r)).
Proof.
  destruct selling_price_profit_lock as (Hmilp & Hmzn & _).
  split.
  - apply Hmilp.
    + apply (bool_decide_unpack _). vm_compute. exact I.
    + intros r Hr.
      repeat (apply elem_of_cons in Hr as [->|Hr]; [eexists; vm_compute; reflexivity|]).
      by apply elem_of_nil in Hr.
  - apply Hmzn.
    + apply (bool_decide_unpack _). vm_compute. exact I.
    + reflexivity.
Defined.

(** ** Free transfers *)

(** The MILP state update hands on what is left of the allowance. *)
Lemma milp_next_f players_df p0 f B_bank t_star s_star st :
  Milp.optimize_post_gw1_step1 players_df p0 f B_bank t_star s_star = inr st →
  next_f st = Z.max 0 (f - sum_values t_star).
Proof.
  unfold Milp.optimize_post_gw1_step1.
  destruct (duplicated_any players_df); [discriminate|].
  intros (players & _ & H)%bind_inr. apply bind_inr in H as (sp & _ & H).
  apply bind_inr in H as (p0' & _ & H).
  apply bind_inr in H as (proceeds & _ & H). apply bind_inr in H as (costs & _ & H).
  inversion H. reflexivity.
Qed.

(** The MiniZinc state update replenishes the allowance. *)
Lemma minizinc_next_f t_array s_array players_df p0 f B_bank st :
  MiniZinc.parse_post_gw1_output t_array s_array players_df p0 f B_bank = inr st →
  ∃ t, MiniZinc.binary_dict t_array
         (MiniZinc.make_player_id_to_idx (map player_id players_df))
         (map player_id players_df) = inr t
       ∧ next_f st = MiniZinc.free_transfers_update f (sum_values t).
Proof.
  unfold MiniZinc.parse_post_gw1_output.
  intros (t & Ht & H)%bind_inr. apply bind_inr in H as (s & _ & H).
  apply bind_inr in H as (player_dict & _ & H).
  apply bind_inr in H as (p0_new & _ & H). apply bind_inr in H as (sp & _ & H).
  apply bind_inr in H as (proceeds & _ & H). apply bind_inr in H as (costs & _ & H).
  inversion H. by exists t.
Qed.

(** The carry-over rule of the specification, as the MiniZinc path
    computes it. *)
Lemma free_transfers_update_carryover (free made : Z) :
  (made ≤ free → 0 < free - made →
     MiniZinc.free_transfers_update free made = Z.min 2 (1 + (free - made)))
  ∧ (made ≤ free → free - made = 0 → MiniZinc.free_transfers_update free made = 1)
  ∧ (free < made → MiniZinc.free_transfers_update free made = 1).
Proof.
  unfold MiniZinc.free_transfers_update.
  destruct (Z.leb_spec made free), (Z.ltb_spec 0 (free - made)); repeat split; intros; lia.
Qed.

(** C1 fails on the MILP path: with one free transfer and no transfer
    made, the MILP state update hands on 1 free transfer where the
    carry-over rule (and the MiniZinc state update, on the same input)
    gives 2; with one free transfer used it hands on 0 instead of 1. *)
Theorem milp_free_transfers_not_carried_over :
  (∃ st, Milp.optimize_post_gw1_step1 Sample.gw_df Sample.p0 1 60
           Sample.no_transfers Sample.no_transfers = inr st
         ∧ next_f st = 1)
  ∧ (∃ st, MiniZinc.parse_post_gw1_output Sample.no_transfers_array
             Sample.no_transfers_array Sample.gw_df Sample.p0_array 1 60 = inr st
           ∧ next_f st = 2)
  ∧ (∃ st, Milp.optimize_post_gw1_step1 Sample.gw_df Sample.p0 1 60
             Sample.buy_16 Sample.sell_12 = inr st
           ∧ next_f st = 0 ∧ next_B_bank st = 10).
Proof.
  split; [|split].
  - eexists. split; [vm_compute; reflexivity|]. reflexivity.
  - eexists. split; [vm_compute; reflexivity|]. reflexivity.
  - eexists. split; [vm_compute; reflexivity|]. by split.
Qed.

(** ** Bank balance *)

(** The bank balance moves by the selling prices above: the proceeds of
    the state update are summed over that very dict. *)
Lemma milp_bank_uses_selling_prices players_df p0 f B_bank t_star s_star st :
  Milp.optimize_post_gw1_step1 players_df p0 f B_bank t_star s_star = inr st →
  ∃ sp proceeds costs,
    Milp.selling_prices (rows_by_id players_df) p0 (map player_id players_df) = inr sp
    ∧ sum_over (λ pid, price ← getitem sp pid; s ← getitem s_star pid; ret (price * s))
               (map player_id players_df) = inr proceeds
    ∧ sum_over (λ pid, p ← getitem (rows_by_id players_df) pid; t ← getitem t_star pid;
                       ret (cost p * t))
               (map player_id players_df) = inr costs
    ∧ next_B_bank st = B_bank + proceeds - costs.
Proof.
  unfold Milp.optimize_post_gw1_step1, to_dict_index.
  destruct (duplicated_any players_df); [discriminate|]. rewrite ret_bind.
  intros (sp & Hsp & H)%bind_inr. apply bind_inr in H as (p0' & _ & H).
  apply bind_inr in H as (proceeds & Hproceeds & H).
  apply bind_inr in H as (costs & Hcosts & H).
  inversion H. by exists sp, proceeds, costs.
Qed.

Lemma minizinc_bank_uses_selling_prices t_array s_array players_df p0 f B_bank st :
  MiniZinc.parse_post_gw1_output t_array s_array players_df p0 f B_bank = inr st →
  ∃ s sp proceeds costs,
    MiniZinc.binary_dict s_array
      (MiniZinc.make_player_id_to_idx (map player_id players_df))
      (map player_id players_df) = inr s
    ∧ MiniZinc.calculate_selling_prices players_df p0
        (MiniZinc.make_player_id_to_idx (map player_id players_df)) = inr sp
    ∧ sum_over (λ pid, price ← getitem sp pid; s_pid ← getitem s pid; ret (price * s_pid))
               (map player_id players_df) = inr proceeds
    ∧ next_B_bank st = B_bank + proceeds - costs.
Proof.
  unfold MiniZinc.parse_post_gw1_output.
  intros (t & _ & H)%bind_inr. apply bind_inr in H as (s & Hs & H).
  apply bind_inr in H as (player_dict & _ & H).
  apply bind_inr in H as (p0_new & _ & H). apply bind_inr in H as (sp & Hsp & H).
  apply bind_inr in H as (proceeds & Hproceeds & H).
  apply bind_inr in H as (costs & _ & H).
  inversion H. by exists s, sp, proceeds, costs.
Qed.


(** * Further properties of the rule engine *)

(** ** The formation check on partial sets *)

(** A set passes the formation check exactly when all four bounds hold. *)
Lemma validate_formation_valid_iff (players : DataFrame) :
  is_valid (Validator.validate_formation players) = true
  ↔ position_count players GK = 1%nat
    ∧ (3 ≤ position_count players DEF ≤ 5)%nat
    ∧ (2 ≤ position_count players MID ≤ 5)%nat
    ∧ (1 ≤ position_count players FWD ≤ 3)%nat.
Proof.
  unfold Validator.validate_formation.
  repeat match goal with
  | |- context [(?a =? ?b)%nat] => destruct (Nat.eqb_spec a b)
  | |- context [(?a <? ?b)%nat] => destruct (Nat.ltb_spec a b)
  | |- context [(?a <=? ?b)%nat] => destruct (Nat.leb_spec a b)
  end; simpl; split; intros; try discriminate; try reflexivity;
  try (repeat split; lia); try (exfalso; lia).
Qed.

Lemma valid_formation_size (players : DataFrame) :
  is_valid (Validator.validate_formation players) = true → (7 ≤ length players ≤ 14)%nat.
Proof.
  intros Hvalid%validate_formation_valid_iff.
  pose proof (position_count_total players). lia.
Qed.

(** X1: the size gates of the formation check never decide: a set
    passes exactly when all four bounds hold (GK = 1, DEF in [3,5], MID
    in [2,5], FWD in [1,3]), whatever its size, so a set that passes has
    between 7 and 14 players. *)
Theorem formation_gates_never_decide :
  ∀ players : DataFrame,
    (is_valid (Validator.validate_formation players) = true
     ↔ position_count players GK = 1%nat
       ∧ (3 ≤ position_count players DEF ≤ 5)%nat
       ∧ (2 ≤ position_count players MID ≤ 5)%nat
       ∧ (1 ≤ position_count players FWD ≤ 3)%nat)
    ∧ (is_valid (Validator.validate_formation players) = true →
       (7 ≤ length players ≤ 14)%nat).
Proof.
  intros players. split;
    [apply validate_formation_valid_iff | apply valid_formation_size].
Qed.

Lemma formation_gates_never_decide_witness :
  (7 ≤ length (isin [1; 3; 4; 6; 8; 10; 13]%Z Sample.gw_df) ≤ 14)%nat.
Proof.
  apply (proj2 (formation_gates_never_decide
                  (isin [1; 3; 4; 6; 8; 10; 13] Sample.gw_df))).
  vm_compute. reflexivity.
Defined.

(** ** The substitution pass *)

(** What one run of the bench loop does: the rows it appends, with their
    slots, and what holds of them. *)
Lemma process_bench_trace gw_df bench_ids slots active subs active' subs' :
  Scorer.process_bench gw_df bench_ids slots active subs = inr (active', subs') →
  ∃ added : list (Z * Row),
    active' = active ++ map snd added
    ∧ subs' = subs ++ map (λ sp, Spec.substitution_of sp.1 sp.2) added
    ∧ Forall (λ sp, minutes sp.2 ≠ 0 ∧ Spec.bench_player gw_df bench_ids sp.1 sp.2) added
    ∧ map fst added `sublist_of` slots
    ∧ (length active' ≤ Nat.max 11 (length active))%nat
    ∧ (added = []
       ∨ (is_valid (Validator.validate_formation active') = true
          ∧ (length active' ≤ 11)%nat)).
Proof.
  revert active subs.
  induction slots as [|slot slots IH]; intros active subs; cbn [Scorer.process_bench].
  - intros Heq. inversion Heq; subst. exists [].
    rewrite !app_nil_r. repeat split; [constructor | constructor | lia | by left].
  - destruct (Nat.leb_spec 11 (length active)) as [Hfull|Hroom].
    { intros Heq. inversion Heq; subst. exists [].
      rewrite !app_nil_r. repeat split; [constructor | apply sublist_nil_l | lia | by left]. }
    intros (pid & Hpid%getitem_inr & H)%bind_inr.
    apply bind_inr in H as (p & Hp%iloc0_head & H).
    assert (Hskip : Scorer.process_bench gw_df bench_ids slots active subs
                    = inr (active', subs') → ∃ added : list (Z * Row),
      active' = active ++ map snd added
      ∧ subs' = subs ++ map (λ sp, Spec.substitution_of sp.1 sp.2) added
      ∧ Forall (λ sp, minutes sp.2 ≠ 0 ∧ Spec.bench_player gw_df bench_ids sp.1 sp.2) added
      ∧ map fst added `sublist_of` slot :: slots
      ∧ (length active' ≤ Nat.max 11 (length active))%nat
      ∧ (added = []
         ∨ (is_valid (Validator.validate_formation active') = true
            ∧ (length active' ≤ 11)%nat))).
    { intros (added & ? & ? & ? & ? & ? & ?)%IH. exists added.
      repeat split; try done. by apply sublist_cons. }
    destruct (Z.eqb_spec (minutes p) 0) as [Hidle|Hplayed]; [by apply Hskip|].
    destruct (is_valid (Validator.validate_formation (active ++ [p]))) eqn:Hlegal;
      [|by apply Hskip].
    apply IH in H as (added & -> & -> & Hadded & Hsub & Hlen & Hvalid).
    exists ((slot, p) :: added). cbn [map fst snd].
    rewrite <- !app_assoc. repeat split.
    + constructor; [|done]. split; [done|]. by exists pid.
    + by apply sublist_skip.
    + rewrite !length_app in Hlen. rewrite !length_app. simpl in *. lia.
    + right. split.
      * destruct Hvalid as [->|[Hvalid _]]; [exact Hlegal|].
        by rewrite <- app_assoc in Hvalid.
      * rewrite !length_app in Hlen. rewrite !length_app. simpl in *. lia.
Qed.

(** The two ways the scorer returns. *)
Lemma calculate_gameweek_points_cases gw_df starter_ids bench_ids captain_id vice_id
    total active details :
  Scorer.calculate_gameweek_points gw_df starter_ids bench_ids captain_id vice_id
  = inr (total, active, details) →
  (filter (λ r, 0 < minutes r) (isin starter_ids gw_df) = []
   ∧ total = 0 ∧ active = [] ∧ details = Scorer.NobodyPlayed [] false false 0)
  ∨ (∃ bonus,
       Scorer.process_bench gw_df bench_ids [1; 2; 3; 4]
         (filter (λ r, 0 < minutes r) (isin starter_ids gw_df)) []
       = inr (active, Scorer.substitutions_of details)
       ∧ Scorer.captain_bonus_of details = bonus
       ∧ total = Scorer.points_sum active + bonus).
Proof.
  unfold Scorer.calculate_gameweek_points.
  destruct (filter _ (isin starter_ids gw_df)) as [|r0 active0] eqn:Hactive.
  - intros Heq. inversion Heq; subst. by left.
  - change (length (r0 :: active0) =? 0)%nat with false. cbv iota.
    intros H. apply bind_inr in H as ([active' subs] & Hbench & H).
    apply bind_inr in H as ([bonus used] & Harm & H).
    inversion H; subst. right. by exists bonus.
Qed.

Lemma sub_points_sum (added : list (Z * Row)) :
  foldr (λ s acc, Scorer.sub_points s + acc) 0
        (map (λ sp, Spec.substitution_of sp.1 sp.2) added)
  = Scorer.points_sum (map snd added).
Proof. induction added as [|[slot p] added IH]; simpl; [done | by rewrite IH]. Qed.

(** X2: whenever the scorer returns, its final active set is the
    starters who played, in table order, followed by the substitutes in
    the order they came on; the recorded substitutions are exactly these
    substitutes with their slots; every substitute played (minutes other
    than 0) and sits in the bench slot recorded for it; and the slots of
    the substitutions are increasing within 1, 2, 3, 4. *)
Theorem scorer_active_is_starters_then_substitutes :
  ∀ (gw_df : DataFrame) (starter_ids : list Z) (bench_ids : gmap Z Z)
    (captain_id vice_id total : Z) (active : DataFrame) (details : Scorer.Details),
    Scorer.calculate_gameweek_points gw_df starter_ids bench_ids captain_id vice_id
    = inr (total, active, details) →
    ∃ added : list (Z * Row),
      active = filter (λ r, 0 < minutes r) (isin starter_ids gw_df) ++ map snd added
      ∧ Scorer.substitutions_of details
        = map (λ sp, Spec.substitution_of sp.1 sp.2) added
      ∧ Forall (λ sp, minutes sp.2 ≠ 0 ∧ Spec.bench_player gw_df bench_ids sp.1 sp.2)
               added
      ∧ map fst added `sublist_of` [1; 2; 3; 4].
Proof.
  intros gw_df starter_ids bench_ids captain_id vice_id total active details Hrun.
  apply calculate_gameweek_points_cases in Hrun
    as [(Hnone & _ & -> & ->) | (bonus & Hbench & _)].
  - exists []. rewrite Hnone. repeat split; [constructor | apply sublist_nil_l].
  - apply process_bench_trace in Hbench as (added & ? & ? & ? & ? & _).
    by exists added.
Qed.

Lemma scorer_active_is_starters_then_substitutes_witness :
  ∃ added : list (Z * Row),
    map player_id
      (filter (λ r, 0 < minutes r) (isin Sample.starter_ids Sample.gw_df) ++ map snd added)
    = [1; 3; 4; 8; 10; 11; 13; 14; 15; 6; 7]
    ∧ map fst added `sublist_of` [1; 2; 3; 4].
Proof.
  destruct (Scorer.calculate_gameweek_points Sample.gw_df Sample.starter_ids
              Sample.bench_ids 9 13) as [e|[[total active] details]] eqn:Hrun;
    [vm_compute in Hrun; discriminate|].
  destruct (scorer_active_is_starters_then_substitutes _ _ _ _ _ _ _ _ Hrun)
    as (added & Hactive & _ & _ & Hslots).
  exists added. split; [|exact Hslots].
  rewrite <- Hactive. vm_compute in Hrun. inversion Hrun. reflexivity.
Defined.

(** X3: the scorer never grows the active set beyond eleven players
    (beyond the playing starters, if more than eleven of them played),
    and when it made at least one substitution the final active set
    passes the formation check, so that it has exactly one GK and at
    most eleven players. *)
Theorem scorer_substituted_lineup_is_legal :
  ∀ (gw_df : DataFrame) (starter_ids : list Z) (bench_ids : gmap Z Z)
    (captain_id vice_id total : Z) (active : DataFrame) (details : Scorer.Details),
    Scorer.calculate_gameweek_points gw_df starter_ids bench_ids captain_id vice_id
    = inr (total, active, details) →
    (length active
     ≤ Nat.max 11 (length (filter (λ r, (0 < minutes r)%Z) (isin starter_ids gw_df))))%nat
    ∧ (Scorer.substitutions_of details ≠ [] →
       is_valid (Validator.validate_formation active) = true
       ∧ position_count active GK = 1%nat
       ∧ (length active ≤ 11)%nat).
Proof.
  intros gw_df starter_ids bench_ids captain_id vice_id total active details Hrun.
  apply calculate_gameweek_points_cases in Hrun
    as [(Hnone & _ & -> & ->) | (bonus & Hbench & _)].
  - split; [simpl; lia | done].
  - destruct (Scorer.substitutions_of details) as [|s subs] eqn:Hsubs.
    + apply process_bench_trace in Hbench as (added & _ & _ & _ & _ & Hlen & _).
      split; [exact Hlen | done].
    + (* the last substitution was committed with fewer than 11 active *)
      apply process_bench_trace in Hbench as (added & Hactive & Hs & _ & _ & Hlen & Hvalid).
      destruct Hvalid as [->|[Hvalid Heleven]]; [discriminate|].
      split; [exact Hlen|]. intros _. split; [exact Hvalid|].
      split; [by apply validate_formation_valid_iff in Hvalid as [? _] | exact Heleven].
Qed.

Lemma scorer_substituted_lineup_is_legal_witness :
  ∃ active details,
    Scorer.calculate_gameweek_points Sample.gw_df Sample.starter_ids Sample.bench_ids 9 13
    = inr (54, active, details)
    ∧ (length active
       ≤ Nat.max 11 (length (filter (λ r, (0 < minutes r)%Z)
                               (isin Sample.starter_ids Sample.gw_df))))%nat
    ∧ (Scorer.substitutions_of details ≠ [] →
       is_valid (Validator.validate_formation active) = true
       ∧ position_count active GK = 1%nat
       ∧ (length active ≤ 11)%nat).
Proof.
  eexists _, _. split; [vm_compute; reflexivity|].
  apply (scorer_substituted_lineup_is_legal Sample.gw_df Sample.starter_ids
           Sample.bench_ids 9 13 54).
  vm_compute. reflexivity.
Defined.

(** With fewer than six active players no bench player passes the
    formation check, which needs seven. *)
Lemma process_bench_short gw_df bench_ids slots active subs active' subs' :
  (length active < 6)%nat →
  Scorer.process_bench gw_df bench_ids slots active subs = inr (active', subs') →
  active' = active ∧ subs' = subs.
Proof.
  intros Hshort. induction slots as [|slot slots IH]; cbn [Scorer.process_bench].
  - intros Heq. by inversion Heq.
  - destruct (Nat.leb_spec 11 (length active)) as [Hfull|_]; [lia|].
    intros (pid & _ & H)%bind_inr. apply bind_inr in H as (p & _ & H).
    destruct (minutes p =? 0); [by apply IH|].
    destruct (is_valid _) eqn:Hlegal; [|by apply IH].
    apply valid_formation_size in Hlegal. rewrite length_app in Hlegal. simpl in Hlegal. lia.
Qed.

(** X4: when fewer than six starters played, the scorer makes no
    substitution at all, whoever sits on the bench: since the formation
    check demands its DEF, MID and FWD minima of every set, no set of
    fewer than seven players passes it. *)
Theorem scorer_no_substitution_below_six :
  ∀ (gw_df : DataFrame) (starter_ids : list Z) (bench_ids : gmap Z Z)
    (captain_id vice_id total : Z) (active : DataFrame) (details : Scorer.Details),
    Scorer.calculate_gameweek_points gw_df starter_ids bench_ids captain_id vice_id
    = inr (total, active, details) →
    (length (filter (λ r, (0 < minutes r)%Z) (isin starter_ids gw_df)) < 6)%nat →
    active = filter (λ r, 0 < minutes r) (isin starter_ids gw_df)
    ∧ Scorer.substitutions_of details = [].
Proof.
  intros gw_df starter_ids bench_ids captain_id vice_id total active details Hrun Hshort.
  apply calculate_gameweek_points_cases in Hrun
    as [(Hnone & _ & -> & ->) | (bonus & Hbench & _)].
  - by rewrite Hnone.
  - by apply process_bench_short in Hbench.
Qed.

Lemma scorer_no_substitution_below_six_witness :
  ∃ total active details,
    Scorer.calculate_gameweek_points Sample.gw_df [1; 3; 4; 5; 9; 12] Sample.bench_ids 9 13
    = inr (total, active, details)
    ∧ active = filter (λ r, 0 < minutes r) (isin [1; 3; 4; 5; 9; 12] Sample.gw_df)
    ∧ Scorer.substitutions_of details = [].
Proof.
  eexists _, _, _. split; [vm_compute; reflexivity|].
  apply (scorer_no_substitution_below_six Sample.gw_df [1; 3; 4; 5; 9; 12]
           Sample.bench_ids 9 13 9).
  - vm_compute. reflexivity.
  - vm_compute. lia.
Defined.

(** X5: which bench slots the scorer needs.  With eleven or more
    playing starters it returns them unchanged, without substitutions,
    for every bench map, also an empty one.  With one to ten playing
    starters it reads slot 1: a bench map without key 1 raises KeyError,
    and a slot-1 id without a row in the table raises IndexError. *)
Theorem scorer_bench_needs :
  ∀ (gw_df : DataFrame) (starter_ids : list Z) (bench_ids : gmap Z Z)
    (captain_id vice_id : Z),
    let active0 := filter (λ r, 0 < minutes r) (isin starter_ids gw_df) in
    ((11 ≤ length active0)%nat →
     ∃ total details,
       Scorer.calculate_gameweek_points gw_df starter_ids bench_ids captain_id vice_id
       = inr (total, active0, details)
       ∧ Scorer.substitutions_of details = [])
    ∧ ((1 ≤ length active0 < 11)%nat → bench_ids !! 1 = None →
       Scorer.calculate_gameweek_points gw_df starter_ids bench_ids captain_id vice_id
       = inl KeyError)
    ∧ ((1 ≤ length active0 < 11)%nat →
       ∀ pid, bench_ids !! 1 = Some pid → pid ∉ map player_id gw_df →
       Scorer.calculate_gameweek_points gw_df starter_ids bench_ids captain_id vice_id
       = inl IndexError).
Proof.
  intros gw_df starter_ids bench_ids captain_id vice_id active0.
  unfold Scorer.calculate_gameweek_points. fold active0.
  split; [|split].
  - intros Hfull.
    destruct (Nat.eqb_spec (length active0) 0) as [?|_]; [lia|].
    cbn [Scorer.process_bench].
    destruct (Nat.leb_spec 11 (length active0)) as [_|?]; [|lia].
    rewrite ret_bind.
    destruct (armband_returns captain_id vice_id active0) as (bonus & used & Harm).
    rewrite Harm, inr_bind. by eexists _, _.
  - intros Hsome Hmissing.
    destruct (Nat.eqb_spec (length active0) 0) as [?|_]; [lia|].
    cbn [Scorer.process_bench].
    destruct (Nat.leb_spec 11 (length active0)) as [?|_]; [lia|].
    unfold getitem. by rewrite Hmissing.
  - intros Hsome pid Hpid Habsent.
    destruct (Nat.eqb_spec (length active0) 0) as [?|_]; [lia|].
    cbn [Scorer.process_bench].
    destruct (Nat.leb_spec 11 (length active0)) as [?|_]; [lia|].
    rewrite (getitem_Some _ _ _ Hpid), inr_bind.
    destruct (with_id pid gw_df) as [|r rows] eqn:Hrows; [reflexivity|].
    destruct Habsent. apply list_elem_of_fmap. exists r.
    assert (Hr : r ∈ with_id pid gw_df) by (rewrite Hrows; left).
    by apply list_elem_of_filter in Hr as [-> ?].
Qed.

Lemma scorer_bench_needs_witness :
  (∃ total details,
     Scorer.calculate_gameweek_points Sample.gw_df [1; 3; 4; 6; 7; 8; 10; 11; 13; 14; 15]
       ∅ 13 8
     = inr (total,
            filter (λ r, 0 < minutes r)
                   (isin [1; 3; 4; 6; 7; 8; 10; 11; 13; 14; 15] Sample.gw_df),
            details)
     ∧ Scorer.substitutions_of details = [])
  ∧ Scorer.calculate_gameweek_points Sample.gw_df Sample.starter_ids ∅ 13 8 = inl KeyError
  ∧ Scorer.calculate_gameweek_points Sample.gw_df Sample.starter_ids {[1 := 99]} 13 8
    = inl IndexError.
Proof.
  split; [|split].
  - apply (scorer_bench_needs Sample.gw_df [1; 3; 4; 6; 7; 8; 10; 11; 13; 14; 15] ∅ 13 8).
    vm_compute. lia.
  - apply (scorer_bench_needs Sample.gw_df Sample.starter_ids ∅ 13 8).
    + vm_compute. lia.
    + reflexivity.
  - apply (scorer_bench_needs Sample.gw_df Sample.starter_ids {[1 := 99]} 13 8) with 99.
    + vm_compute. lia.
    + reflexivity.
    + apply (bool_decide_unpack _). vm_compute. exact I.
Defined.

(** X6: a team that passed validation is scored without error: the
    scorer returns a result for every team that [validate_team] accepts
    on the same table. *)
Theorem scorer_returns_on_validated_team :
  ∀ (gw_df : DataFrame) (squad_ids starter_ids : list Z) (bench_ids : gmap Z Z)
    (captain_id vice_id : Z),
    Validator.validate_team gw_df squad_ids starter_ids bench_ids captain_id vice_id
    = inr Valid →
    ∃ total active details,
      Scorer.calculate_gameweek_points gw_df starter_ids bench_ids captain_id vice_id
      = inr (total, active, details).
Proof.
  intros gw_df squad_ids starter_ids bench_ids captain_id vice_id Hvalid.
  apply validate_team_bench_resolves in Hvalid as (b1 & b2 & b3 & b4 & H1 & H2 & H3 & H4).
  unfold Scorer.calculate_gameweek_points.
  destruct (length (filter _ (isin starter_ids gw_df)) =? 0)%nat; [by eexists _, _, _|].
  rewrite (process_bench_fold gw_df bench_ids [(1, b1); (2, b2); (3, b3); (4, b4)]).
  2:{ intros slot p Hin.
      repeat (apply elem_of_cons in Hin as [[= -> ->]|Hin]; [done|]).
      by apply elem_of_nil in Hin. }
  rewrite inr_bind.
  destruct (foldl Spec.bench_step _ _) as [active subs].
  destruct (armband_returns captain_id vice_id active) as (bonus & used & Harm).
  rewrite Harm, inr_bind. by eexists _, _, _.
Qed.

Lemma scorer_returns_on_validated_team_witness :
  ∃ total active details,
    Scorer.calculate_gameweek_points Sample.gw_df Sample.starter_ids Sample.bench_ids 9 13
    = inr (total, active, details).
Proof.
  apply (scorer_returns_on_validated_team Sample.gw_df Sample.squad_ids).
  vm_compute. reflexivity.
Defined.

(** X7: the total of a scorer run is the points of the starters who
    played, plus the points recorded for the substitutions, plus the
    armband bonus. *)
Theorem scorer_total_decomposition :
  ∀ (gw_df : DataFrame) (starter_ids : list Z) (bench_ids : gmap Z Z)
    (captain_id vice_id total : Z) (active : DataFrame) (details : Scorer.Details),
    Scorer.calculate_gameweek_points gw_df starter_ids bench_ids captain_id vice_id
    = inr (total, active, details) →
    total
    = Scorer.points_sum (filter (λ r, 0 < minutes r) (isin starter_ids gw_df))
      + foldr (λ s acc, Scorer.sub_points s + acc) 0 (Scorer.substitutions_of details)
      + Scorer.captain_bonus_of details.
Proof.
  intros gw_df starter_ids bench_ids captain_id vice_id total active details Hrun.
  apply calculate_gameweek_points_cases in Hrun
    as [(Hnone & -> & -> & ->) | (bonus & Hbench & <- & ->)].
  - by rewrite Hnone.
  - apply process_bench_trace in Hbench as (added & -> & -> & _).
    cbn [app]. by rewrite points_sum_app, sub_points_sum.
Qed.

Lemma scorer_total_decomposition_witness :
  54
  = Scorer.points_sum (filter (λ r, 0 < minutes r) (isin Sample.starter_ids Sample.gw_df))
    + foldr (λ s acc, Scorer.sub_points s + acc) 0
        [Scorer.mkSub 6 "P6" DEF 2 6; Scorer.mkSub 7 "P7" DEF 4 1]
    + 8.
Proof.
  eapply (scorer_total_decomposition Sample.gw_df Sample.starter_ids Sample.bench_ids
            9 13 54 _ (Scorer.Breakdown [Scorer.mkSub 6 "P6" DEF 2 6;
                                         Scorer.mkSub 7 "P7" DEF 4 1]
                                        false true (Some Scorer.vice) 8 46 11)).
  vm_compute. reflexivity.
Defined.

(** ** What a valid team is *)

Lemma elem_of_distinct (xs : list string) (x : string) : x ∈ distinct xs ↔ x ∈ xs.
Proof.
  induction xs as [|y xs IH]; simpl; [done|].
  rewrite !elem_of_cons, list_elem_of_filter, IH.
  destruct (decide (x = y)); naive_solver.
Qed.

(** [value_counts] lists a value with more than [n] occurrences exactly
    when the series has one. *)
Lemma value_counts_over (xs : list string) (n : nat) :
  filter (λ tc : string * nat, (n < tc.2)%nat) (value_counts xs) = []
  ↔ ∀ x, (length (filter (λ y, y = x) xs) ≤ n)%nat.
Proof.
  unfold value_counts.
  set (counted := map (λ x, (x, length (filter (λ y, y = x) xs))) (distinct xs)).
  set (sorted := sort_by _ counted).
  assert (Hperm : sorted ≡ₚ counted) by apply sort_by_perm.
  split.
  - intros Hnone x. destruct (le_lt_dec (length (filter (λ y, y = x) xs)) n) as [|Hover];
      [done|].
    assert (Hx : x ∈ xs).
    { destruct (filter (λ y, y = x) xs) as [|y l] eqn:Hf; [simpl in Hover; lia|].
      assert (Hy : y ∈ filter (λ y, y = x) xs) by (rewrite Hf; left).
      by apply list_elem_of_filter in Hy as [-> ?]. }
    assert (Hin : (x, length (filter (λ y, y = x) xs)) ∈ sorted).
    { rewrite Hperm. apply list_elem_of_fmap. exists x. split; [done|].
      by apply elem_of_distinct. }
    eapply (filter_nil_not_elem_of _ _ _ Hnone) in Hin; [done|]. simpl. lia.
  - intros Hle. destruct (filter _ sorted) as [|[x k] l] eqn:Hf; [done|].
    assert (Hin : (x, k) ∈ filter (λ tc : string * nat, (n < tc.2)%nat) sorted)
      by (rewrite Hf; left).
    apply list_elem_of_filter in Hin as [Hover Hin]. rewrite Hperm in Hin.
    apply list_elem_of_fmap in Hin as (x' & [= -> ->] & _).
    specialize (Hle x'). simpl in Hover. lia.
Qed.

Lemma filter_team_length (df : DataFrame) (club : string) :
  length (filter (λ y, y = club) (map team df)) = length (filter (λ r, team r = club) df).
Proof.
  induction df as [|r df IH]; [done|].
  cbn [map]. rewrite !filter_cons. destruct (decide (team r = club)); simpl; by rewrite IH.
Qed.

Lemma run_checks_all_pass (checks : list Spec.Check) :
  (∀ c, c ∈ checks → c = Spec.passes) → Spec.run_checks checks = inr Valid.
Proof.
  induction checks as [|c checks IH]; intros Hall; [reflexivity|].
  cbn [Spec.run_checks]. rewrite (Hall c) by left. unfold Spec.passes.
  rewrite ret_bind. apply IH. intros c' Hc'. apply Hall. by right.
Qed.

(** One bench slot passes the outfield check when it holds a player of
    the table who is no goalkeeper. *)
Lemma check_bench_slot_outfield_passes gw_df bench_ids pos :
  Spec.check_bench_slot_outfield gw_df bench_ids pos = Spec.passes
  ↔ ∃ b, Spec.bench_player gw_df bench_ids pos b ∧ position b ≠ GK.
Proof.
  unfold Spec.check_bench_slot_outfield, Spec.bench_player, getitem.
  destruct (bench_ids !! pos) as [pid|]; simpl.
  - destruct (with_id pid gw_df) as [|b rows] eqn:Hrows; simpl.
    + split; [discriminate|]. intros (b & (pid' & Hpid & Hb) & _).
      injection Hpid as <-. rewrite Hrows in Hb. discriminate.
    + destruct (decide (position b = GK)) as [Hgk|Hout].
      * split; [discriminate|]. intros (b' & (pid' & Hpid & Hb) & Hne).
        injection Hpid as <-. rewrite Hrows in Hb. injection Hb as <-. done.
      * split; [|done]. intros _. exists b. split; [|done].
        exists pid. by rewrite Hrows.
  - split; [discriminate|]. intros (b & (pid' & Hpid & _) & _). discriminate.
Qed.

Lemma check_bench_gk_passes gw_df bench_ids :
  Spec.check_bench_gk gw_df bench_ids = Spec.passes
  ↔ ∃ b, Spec.bench_player gw_df bench_ids 1 b ∧ position b = GK.
Proof.
  unfold Spec.check_bench_gk, Spec.bench_player, getitem.
  destruct (bench_ids !! 1) as [pid|]; simpl.
  - destruct (with_id pid gw_df) as [|b rows] eqn:Hrows; simpl.
    + split; [discriminate|]. intros (b & (pid' & Hpid & Hb) & _).
      injection Hpid as <-. rewrite Hrows in Hb. discriminate.
    + destruct (decide (position b = GK)) as [Hgk|Hout].
      * split; [|done]. intros _. exists b. split; [|done].
        exists pid. by rewrite Hrows.
      * split; [discriminate|]. intros (b' & (pid' & Hpid & Hb) & Hgk).
        injection Hpid as <-. rewrite Hrows in Hb. injection Hb as <-. done.
  - split; [discriminate|]. intros (b & (pid' & Hpid & _) & _). discriminate.
Qed.

Lemma check_bench_outfield_passes gw_df bench_ids :
  Spec.check_bench_outfield gw_df bench_ids = Spec.passes
  ↔ ∀ pos, pos ∈ [2; 3; 4] →
      ∃ b, Spec.bench_player gw_df bench_ids pos b ∧ position b ≠ GK.
Proof.
  unfold Spec.check_bench_outfield.
  pose proof (check_bench_slot_outfield_passes gw_df bench_ids 2) as H2.
  pose proof (check_bench_slot_outfield_passes gw_df bench_ids 3) as H3.
  pose proof (check_bench_slot_outfield_passes gw_df bench_ids 4) as H4.
  split.
  - intros Hpass.
    destruct (Spec.check_bench_slot_outfield gw_df bench_ids 2) as [|[r|]];
      try discriminate.
    rewrite inr_bind in Hpass.
    destruct (Spec.check_bench_slot_outfield gw_df bench_ids 3) as [|[r|]];
      try discriminate.
    rewrite inr_bind in Hpass.
    intros pos Hpos.
    repeat (apply elem_of_cons in Hpos as [->|Hpos]); [by apply H2 | by apply H3 | by apply H4 |].
    by apply elem_of_nil in Hpos.
  - intros Hall.
    rewrite (proj2 H2), (proj2 H3), (proj2 H4) by (apply Hall; set_solver).
    reflexivity.
Qed.

Lemma check_squad_quota_passes gw_df squad_ids :
  Spec.check_squad_quota gw_df squad_ids = Spec.passes
  ↔ position_count (isin squad_ids gw_df) GK = 2%nat
    ∧ position_count (isin squad_ids gw_df) DEF = 5%nat
    ∧ position_count (isin squad_ids gw_df) MID = 5%nat
    ∧ position_count (isin squad_ids gw_df) FWD = 3%nat.
Proof.
  unfold Spec.check_squad_quota.
  repeat case_decide; split; try discriminate; try done; intros (? & ? & ? & ?); done.
Qed.

Lemma check_club_limit_passes gw_df squad_ids :
  Spec.check_club_limit gw_df squad_ids = Spec.passes
  ↔ ∀ club, (length (filter (λ r, team r = club) (isin squad_ids gw_df)) ≤ 3)%nat.
Proof.
  unfold Spec.check_club_limit.
  setoid_rewrite <- filter_team_length. rewrite <- value_counts_over.
  case_decide; split; try discriminate; done.
Qed.

Lemma check_starter_formation_passes gw_df starter_ids :
  Spec.check_starter_formation gw_df starter_ids = Spec.passes
  ↔ position_count (isin starter_ids gw_df) GK = 1%nat
    ∧ (3 ≤ position_count (isin starter_ids gw_df) DEF ≤ 5)%nat
    ∧ (2 ≤ position_count (isin starter_ids gw_df) MID ≤ 5)%nat
    ∧ (1 ≤ position_count (isin starter_ids gw_df) FWD ≤ 3)%nat.
Proof.
  unfold Spec.check_starter_formation, Spec.within.
  repeat match goal with
  | |- context [(?a =? ?b)%nat] => destruct (Nat.eqb_spec a b)
  | |- context [(?a <=? ?b)%nat] => destruct (Nat.leb_spec a b)
  end; cbn [negb andb]; split; try discriminate; try done;
    try (intros; exfalso; lia); try (intros; repeat split; lia).
Qed.

(** X8: what a verdict of Valid means.  A team is accepted exactly when
    the squad list has 15 ids whose rows in the table count 2 GK, 5 DEF,
    5 MID and 3 FWD with at most 3 rows per club; the starter list has 11
    ids whose rows count 1 GK, 3-5 DEF, 2-5 MID and 1-3 FWD; the bench
    keys are 1, 2, 3, 4, slot 1 holding a GK of the table and slots 2-4
    players of the table who are not GKs; and captain and vice are two
    different ids of the starter list. *)
Theorem validate_team_valid_iff :
  ∀ (gw_df : DataFrame) (squad_ids starter_ids : list Z) (bench_ids : gmap Z Z)
    (captain_id vice_id : Z),
    Validator.validate_team gw_df squad_ids starter_ids bench_ids captain_id vice_id
    = inr Valid
    ↔ length squad_ids = 15%nat
      ∧ (position_count (isin squad_ids gw_df) GK = 2%nat
         ∧ position_count (isin squad_ids gw_df) DEF = 5%nat
         ∧ position_count (isin squad_ids gw_df) MID = 5%nat
         ∧ position_count (isin squad_ids gw_df) FWD = 3%nat)
      ∧ (∀ club, (length (filter (λ r, team r = club) (isin squad_ids gw_df)) ≤ 3)%nat)
      ∧ length starter_ids = 11%nat
      ∧ (position_count (isin starter_ids gw_df) GK = 1%nat
         ∧ (3 ≤ position_count (isin starter_ids gw_df) DEF ≤ 5)%nat
         ∧ (2 ≤ position_count (isin starter_ids gw_df) MID ≤ 5)%nat
         ∧ (1 ≤ position_count (isin starter_ids gw_df) FWD ≤ 3)%nat)
      ∧ dom bench_ids = ({[1; 2; 3; 4]} : gset Z)
      ∧ (∃ b, Spec.bench_player gw_df bench_ids 1 b ∧ position b = GK)
      ∧ (∀ pos, pos ∈ [2; 3; 4] →
           ∃ b, Spec.bench_player gw_df bench_ids pos b ∧ position b ≠ GK)
      ∧ captain_id ≠ vice_id
      ∧ captain_id ∈ starter_ids
      ∧ vice_id ∈ starter_ids.
Proof.
  intros gw_df squad_ids starter_ids bench_ids captain_id vice_id.
  rewrite validate_team_run_checks.
  transitivity (∀ c, c ∈ Spec.team_checks gw_df squad_ids starter_ids bench_ids
                          captain_id vice_id → c = Spec.passes).
  { split; [apply (run_checks_first_failure _ Valid) | apply run_checks_all_pass]. }
  unfold Spec.team_checks.
  rewrite <- Forall_forall, !Forall_cons, Forall_nil.
  rewrite check_squad_quota_passes, check_club_limit_passes,
    check_starter_formation_passes, check_bench_gk_passes, check_bench_outfield_passes.
  unfold Spec.check_squad_size, Spec.check_starters_size, Spec.check_bench_keys,
    Spec.check_captain_not_vice, Spec.check_captain_starts, Spec.check_vice_starts.
  repeat case_decide;
    (split;
     [intros (? & ? & ? & ? & ? & ? & ? & ? & ? & ? & ? & _)
     |intros (? & ? & ? & ? & ? & ? & ? & ? & ? & ? & ?)]);
    try discriminate; try done; try lia.
  all: by repeat split.
Qed.

(** X9: what validation leaves unchecked.  Acceptance does not imply
    that the starters belong to the squad, nor that the eleven starter
    ids are distinct, nor that the bench is disjoint from the starters:
    there are accepted teams with a starter outside the squad, with a
    starter named twice, and with a bench slot holding a starter. *)
Theorem validate_team_leaves_unchecked :
  (∃ gw_df squad_ids starter_ids bench_ids captain_id vice_id,
     Validator.validate_team gw_df squad_ids starter_ids bench_ids captain_id vice_id
     = inr Valid
     ∧ ∃ id : Z, id ∈ starter_ids ∧ id ∉ squad_ids)
  ∧ (∃ gw_df squad_ids starter_ids bench_ids captain_id vice_id,
       Validator.validate_team gw_df squad_ids starter_ids bench_ids captain_id vice_id
       = inr Valid
       ∧ ¬ NoDup starter_ids)
  ∧ (∃ gw_df squad_ids starter_ids bench_ids captain_id vice_id,
       Validator.validate_team gw_df squad_ids starter_ids bench_ids captain_id vice_id
       = inr Valid
       ∧ ∃ slot id : Z, bench_ids !! slot = Some id ∧ id ∈ starter_ids).
Proof.
  split; [|split].
  - exists Sample.gw_df, Sample.squad_ids, [1; 3; 4; 5; 16; 9; 10; 11; 13; 14; 15],
      Sample.bench_ids, 9, 13.
    split; [vm_compute; reflexivity|]. exists 16.
    split; apply (bool_decide_unpack _); vm_compute; exact I.
  - exists Sample.gw_df, Sample.squad_ids, [1; 3; 4; 5; 8; 8; 10; 11; 13; 14; 15],
      Sample.bench_ids, 8, 13.
    split; [vm_compute; reflexivity|]. apply (bool_decide_unpack _); vm_compute; exact I.
  - exists Sample.gw_df, Sample.squad_ids, Sample.starter_ids,
      (<[2 := 3]> Sample.bench_ids), 9, 13.
    split; [vm_compute; reflexivity|]. exists 2, 3. split; [reflexivity|].
    apply (bool_decide_unpack _); vm_compute; exact I.
Qed.

(** ** Purchase prices after a gameweek *)

Lemma update_p0_inr players t_star s_star player_ids p0 p0' :
  Milp.update_p0 players t_star s_star player_ids p0 = inr p0' →
  (∀ pid, pid ∉ player_ids → p0' !! pid = p0 !! pid)
  ∧ (∀ pid, pid ∈ player_ids →
       ∃ s, s_star !! pid = Some s
         ∧ if decide (s = 0) then
             ∃ t, t_star !! pid = Some t
               ∧ if decide (t = 0) then p0' !! pid = p0 !! pid
                 else ∃ p, players !! pid = Some p ∧ p0' !! pid = Some (cost p)
           else p0' !! pid = Some 0).
Proof.
  revert p0. induction player_ids as [|k ids IH]; intros p0; cbn [Milp.update_p0].
  - intros Heq. inversion Heq; subst. split; [done|].
    intros pid Hpid. by apply elem_of_nil in Hpid.
  - intros (s & Hs%getitem_inr & H)%bind_inr.
    destruct (Z.eqb_spec s 0) as [->|Hs0]; cbn [negb] in H.
    + apply bind_inr in H as (t & Ht%getitem_inr & H).
      destruct (Z.eqb_spec t 0) as [->|Ht0]; cbn [negb] in H.
      * apply IH in H as [Hout Hin]. split.
        -- intros pid [? ?]%not_elem_of_cons. by apply Hout.
        -- intros pid Hpid. destruct (decide (pid ∈ ids)) as [|Hnot]; [by apply Hin|].
           apply elem_of_cons in Hpid as [->|?]; [|done].
           exists 0. split; [done|]. rewrite decide_True by done.
           exists 0. split; [done|]. rewrite decide_True by done. by apply Hout.
      * apply bind_inr in H as (p & Hp%getitem_inr & H).
        apply IH in H as [Hout Hin]. split.
        -- intros pid [? ?]%not_elem_of_cons. rewrite Hout by done.
           by rewrite lookup_insert_ne.
        -- intros pid Hpid. destruct (decide (pid = k)) as [->|Hne].
           ++ exists 0. split; [done|]. rewrite decide_True by done.
              exists t. split; [done|]. rewrite decide_False by done.
              exists p. split; [done|].
              destruct (decide (k ∈ ids)) as [Hk|Hk].
              ** destruct (Hin k Hk) as (s' & Hs' & Hcase).
                 assert (s' = 0) as -> by congruence. rewrite decide_True in Hcase by done.
                 destruct Hcase as (t' & Ht' & Hcase).
                 assert (t' = t) as -> by congruence. rewrite decide_False in Hcase by done.
                 destruct Hcase as (p' & Hp' & ->). congruence.
              ** rewrite Hout by done. by rewrite lookup_insert_eq.
           ++ apply elem_of_cons in Hpid as [?|Hpid]; [done|].
              destruct (Hin pid Hpid) as (s' & Hs' & Hcase). exists s'. split; [done|].
              destruct (decide (s' = 0)); [|done].
              destruct Hcase as (t' & Ht' & Hcase). exists t'. split; [done|].
              destruct (decide (t' = 0)); [|done].
              by rewrite Hcase, lookup_insert_ne.
    + apply IH in H as [Hout Hin]. split.
      * intros pid [? ?]%not_elem_of_cons. rewrite Hout by done.
        by rewrite lookup_insert_ne.
      * intros pid Hpid. destruct (decide (pid = k)) as [->|Hne].
        -- exists s. split; [done|]. rewrite decide_False by done.
           destruct (decide (k ∈ ids)) as [Hk|Hk].
           ++ destruct (Hin k Hk) as (s' & Hs' & Hcase).
              assert (s' = s) as -> by congruence. by rewrite decide_False in Hcase.
           ++ rewrite Hout by done. by rewrite lookup_insert_eq.
        -- apply elem_of_cons in Hpid as [?|Hpid]; [done|].
           destruct (Hin pid Hpid) as (s' & Hs' & Hcase). exists s'. split; [done|].
           destruct (decide (s' = 0)); [|done].
           destruct Hcase as (t' & Ht' & Hcase). exists t'. split; [done|].
           destruct (decide (t' = 0)); [|done].
           by rewrite Hcase, lookup_insert_ne.
Qed.

Lemma to_dict_index_inr (df : DataFrame) (d : gmap Z Row) :
  to_dict_index df = inr d → NoDup (map player_id df) ∧ d = rows_by_id df.
Proof.
  unfold to_dict_index, duplicated_any.
  destruct (decide (NoDup (map player_id df))) as [Hnd|Hdup].
  - rewrite bool_decide_eq_true_2 by done. cbn [negb]. intros Heq. by inversion Heq.
  - rewrite bool_decide_eq_false_2 by done. discriminate.
Qed.

(** The parts of a MILP state update that returned. *)
Lemma milp_update_inr players_df p0 f B_bank t_star s_star st :
  Milp.optimize_post_gw1_step1 players_df p0 f B_bank t_star s_star = inr st →
  NoDup (map player_id players_df)
  ∧ Milp.update_p0 (rows_by_id players_df) t_star s_star (map player_id players_df) p0
    = inr (next_p0 st)
  ∧ ∃ sp proceeds costs,
      Milp.selling_prices (rows_by_id players_df) p0 (map player_id players_df) = inr sp
      ∧ sum_over (λ pid, price ← getitem sp pid; s ← getitem s_star pid; ret (price * s))
                 (map player_id players_df) = inr proceeds
      ∧ sum_over (λ pid, p ← getitem (rows_by_id players_df) pid;
                         t ← getitem t_star pid; ret (cost p * t))
                 (map player_id players_df) = inr costs
      ∧ next_B_bank st = B_bank + proceeds - costs.
Proof.
  unfold Milp.optimize_post_gw1_step1.
  destruct (duplicated_any players_df) eqn:Hdup; [discriminate|].
  intros (players & [Hnd ->]%to_dict_index_inr & H)%bind_inr.
  apply bind_inr in H as (sp & Hsp & H). apply bind_inr in H as (p0' & Hp0 & H).
  apply bind_inr in H as (proceeds & Hproceeds & H).
  apply bind_inr in H as (costs & Hcosts & H).
  inversion H; subst. split; [done|]. split; [done|]. by exists sp, proceeds, costs.
Qed.

(** X10: the purchase prices a MILP state update hands on: for every
    player of the table, 0 if the solver sold the player, the current
    cost if it bought the player (and did not sell), and the previous
    entry otherwise; entries of ids outside the table are left alone. *)
Theorem milp_purchase_prices_updated :
  ∀ (players_df : DataFrame) (p0 : gmap Z Z) (f B_bank : Z) (t_star s_star : gmap Z Z)
    (st : NextState),
    Milp.optimize_post_gw1_step1 players_df p0 f B_bank t_star s_star = inr st →
    (∀ r, r ∈ players_df →
       ∃ s, s_star !! player_id r = Some s
         ∧ if decide (s = 0) then
             ∃ t, t_star !! player_id r = Some t
               ∧ next_p0 st !! player_id r
                 = (if decide (t = 0) then p0 !! player_id r else Some (cost r))
           else next_p0 st !! player_id r = Some 0)
    ∧ (∀ pid, pid ∉ map player_id players_df → next_p0 st !! pid = p0 !! pid).
Proof.
  intros players_df p0 f B_bank t_star s_star st
    (Hnd & [Hout Hin]%update_p0_inr & _)%milp_update_inr.
  split; [|exact Hout]. intros r Hr.
  destruct (Hin (player_id r)) as (s & Hs & Hcase).
  { apply list_elem_of_fmap. by exists r. }
  exists s. split; [done|]. destruct (decide (s = 0)); [|done].
  destruct Hcase as (t & Ht & Hcase). exists t. split; [done|].
  destruct (decide (t = 0)); [done|].
  destruct Hcase as (p & Hp & ->).
  rewrite (rows_by_id_lookup _ _ Hnd Hr) in Hp. by injection Hp as <-.
Qed.

Lemma milp_purchase_prices_updated_witness :
  ∃ st,
    Milp.optimize_post_gw1_step1 Sample.gw_df Sample.p0 1 60 Sample.buy_16 Sample.sell_12
    = inr st
    ∧ next_p0 st !! 12 = Some 0 ∧ next_p0 st !! 16 = Some 105
    ∧ next_p0 st !! 3 = Some 60 ∧ next_p0 st !! 99 = None.
Proof.
  destruct (Milp.optimize_post_gw1_step1 Sample.gw_df Sample.p0 1 60
              Sample.buy_16 Sample.sell_12) as [e|st] eqn:Hrun;
    [vm_compute in Hrun; discriminate|].
  exists st. split; [reflexivity|].
  destruct (milp_purchase_prices_updated _ _ _ _ _ _ _ Hrun) as [Hin Hout].
  repeat split.
  - destruct (Hin (Sample.player 12 MID "AVL" 55 4 0)) as (s & Hs & Hcase).
    { apply (list_elem_of_lookup_2 _ 11). reflexivity. }
    vm_compute in Hs. injection Hs as <-. exact Hcase.
  - destruct (Hin (Sample.player 16 MID "CHE" 105 12 90)) as (s & Hs & Hcase).
    { apply (list_elem_of_lookup_2 _ 15). reflexivity. }
    vm_compute in Hs. injection Hs as <-. destruct Hcase as (t & Ht & Hcase).
    vm_compute in Ht. injection Ht as <-. exact Hcase.
  - destruct (Hin (Sample.player 3 DEF "ARS" 60 6 90)) as (s & Hs & Hcase).
    { apply (list_elem_of_lookup_2 _ 2). reflexivity. }
    vm_compute in Hs. injection Hs as <-. destruct Hcase as (t & Ht & Hcase).
    vm_compute in Ht. injection Ht as <-. etransitivity; [exact Hcase|]. reflexivity.
  - rewrite Hout; [reflexivity|]. apply (bool_decide_unpack _). vm_compute. exact I.
Defined.


(** ** State updates, entry by entry *)

(** A dict comprehension that returned evaluated every key. *)
Lemma dict_comp_result {V : Type} (f : Z → py V) (keys : list Z) (acc d : gmap Z V) :
  dict_comp f keys acc = inr d →
  (∀ k, k ∈ keys → ∃ v, f k = inr v ∧ d !! k = Some v)
  ∧ (∀ k, k ∉ keys → d !! k = acc !! k).
Proof.
  intros Hd. pose proof (dict_comp_inr _ _ _ _ Hd) as Hf.
  destruct (dict_comp_lookup f keys acc Hf) as (d' & Hd' & Hin & Hout).
  assert (d' = d) as -> by congruence.
  split; [|exact Hout]. intros k Hk. destruct (Hf k Hk) as [v Hv].
  exists v. split; [done|]. by apply Hin.
Qed.

Lemma sum_values_insert (m : gmap Z Z) (k v : Z) :
  m !! k = None → sum_values (<[k := v]> m) = v + sum_values m.
Proof.
  intros Hk. unfold sum_values.
  apply (map_fold_insert_L (λ _ v acc, v + acc)); [|done].
  intros. lia.
Qed.

(** The sum of the values of a dict comprehension over distinct keys. *)
Lemma dict_comp_sum (f : Z → py Z) (keys : list Z) (acc d : gmap Z Z) :
  NoDup keys → (∀ k, k ∈ keys → acc !! k = None) →
  dict_comp f keys acc = inr d →
  ∃ vs, Forall2 (λ k v, f k = inr v) keys vs
        ∧ sum_values d = sum_values acc + foldr Z.add 0 vs.
Proof.
  revert acc. induction keys as [|k keys IH]; intros acc Hnd Hfresh; cbn [dict_comp].
  - intros Heq. inversion Heq; subst. exists []. split; [constructor | simpl; lia].
  - apply NoDup_cons in Hnd as [Hk Hnd].
    intros (v & Hv & H)%bind_inr.
    apply IH in H as (vs & Hvs & Hsum); [|done|].
    + exists (v :: vs). split; [by constructor|].
      rewrite Hsum, sum_values_insert by (apply Hfresh; left). simpl. lia.
    + intros k' Hk'. rewrite lookup_insert_ne by (intros ->; done).
      apply Hfresh. by right.
Qed.

Lemma sum_flags (flags : list bool) :
  foldr Z.add 0 (map (λ b : bool, if b then 1 else 0) flags)
  = Z.of_nat (length (filter (λ b, b = true) flags)).
Proof.
  induction flags as [|[] flags IH]; [done| |].
  - cbn [map foldr]. rewrite filter_cons_True by done. simpl length. lia.
  - cbn [map foldr]. rewrite filter_cons_False by done. lia.
Qed.

Lemma sum_over_inr (f : Z → py Z) (keys : list Z) (total : Z) :
  sum_over f keys = inr total →
  ∃ vs, Forall2 (λ k v, f k = inr v) keys vs ∧ total = foldr Z.add 0 vs.
Proof.
  revert total. induction keys as [|k keys IH]; intros total; cbn [sum_over].
  - intros Heq. inversion Heq. by exists [].
  - intros (v & Hv & H)%bind_inr. apply bind_inr in H as (s & Hs & H).
    inversion H; subst. destruct (IH _ Hs) as (vs & Hvs & ->).
    exists (v :: vs). split; [by constructor | reflexivity].
Qed.

Lemma sum_over_Forall2 (f : Z → py Z) (keys : list Z) (vs : list Z) :
  Forall2 (λ k v, f k = inr v) keys vs → sum_over f keys = inr (foldr Z.add 0 vs).
Proof.
  induction 1 as [|k v keys vs Hv _ IH]; cbn [sum_over]; [done|].
  by rewrite Hv, inr_bind, IH, inr_bind.
Qed.

(** The values of a comprehension over the ids of a table, by row index. *)
Lemma Forall2_by_row {V : Type} (f : Z → py V) (df : DataFrame) (vs : list V) :
  Forall2 (λ k v, f k = inr v) (map player_id df) vs →
  length vs = length df
  ∧ ∀ i r, df !! i = Some r → ∃ v, vs !! i = Some v ∧ f (player_id r) = inr v.
Proof.
  intros HF. split.
  - apply Forall2_length in HF. by rewrite length_map in HF.
  - intros i r Hi.
    destruct (Forall2_lookup_l _ _ _ i (player_id r) HF) as (v & Hv & Hf).
    { by rewrite list_lookup_fmap, Hi. }
    by exists v.
Qed.

Lemma Forall2_of_rows {V : Type} (f : Z → py V) (df : DataFrame) (g : nat → Row → V) :
  (∀ i r, df !! i = Some r → f (player_id r) = inr (g i r)) →
  Forall2 (λ k v, f k = inr v) (map player_id df) (imap g df).
Proof.
  intros Hf. apply Forall2_same_length_lookup_2.
  - by rewrite length_map, length_imap.
  - intros i k v Hk Hv. rewrite list_lookup_fmap in Hk.
    rewrite list_lookup_imap in Hv.
    destruct (df !! i) as [r|] eqn:Hi; [|discriminate].
    cbn in Hk, Hv. injection Hk as <-. injection Hv as <-. by apply Hf.
Qed.

(** ** The MiniZinc state update, entry by entry *)

Lemma idx_getitem (df : DataFrame) (i : nat) (r : Row) :
  NoDup (map player_id df) → df !! i = Some r →
  getitem (MiniZinc.make_player_id_to_idx (map player_id df)) (player_id r) = inr (S i).
Proof.
  intros Hnd Hi. apply getitem_Some, make_player_id_to_idx_lookup; [done|].
  by rewrite list_lookup_fmap, Hi.
Qed.

Lemma list_getitem_inr {A : Type} (xs : list A) (i : nat) (x : A) :
  list_getitem xs i = inr x ↔ xs !! i = Some x.
Proof.
  unfold list_getitem. destruct (xs !! i); split; intros [=]; by subst.
Qed.

Lemma list_getitem_S {A : Type} (xs : list A) (i : nat) :
  list_getitem xs (S i - 1) = list_getitem xs i.
Proof. by replace (S i - 1)%nat with i by lia. Qed.

Lemma sum_values_empty : sum_values ∅ = 0.
Proof. unfold sum_values. by rewrite map_fold_empty. Qed.

(** The 0/1 dict made from a solver array: one entry per table id,
    holding the flag at the row's index. *)
Lemma binary_dict_inr (arr : list bool) (df : DataFrame) (d : gmap Z Z) :
  NoDup (map player_id df) →
  MiniZinc.binary_dict arr (MiniZinc.make_player_id_to_idx (map player_id df))
    (map player_id df) = inr d →
  (∀ i r, df !! i = Some r →
     ∃ b : bool, arr !! i = Some b ∧ d !! player_id r = Some (if b then 1 else 0))
  ∧ (∀ pid, pid ∉ map player_id df → d !! pid = None)
  ∧ sum_values d = Z.of_nat (length (filter (λ b, b = true) (take (length df) arr))).
Proof.
  intros Hnd Hd. unfold MiniZinc.binary_dict in Hd.
  set (f := λ pid : Z, _) in Hd.
  assert (Hrow : ∀ i r v, df !! i = Some r → f (player_id r) = inr v →
                 ∃ b : bool, arr !! i = Some b ∧ v = if b then 1 else 0).
  { intros i r v Hi. unfold f. rewrite (idx_getitem _ _ _ Hnd Hi), inr_bind, list_getitem_S.
    intros (b & Hb%list_getitem_inr & Hv)%bind_inr. exists b. split; [done|].
    by inversion Hv. }
  destruct (dict_comp_result _ _ _ _ Hd) as [Hin Hout].
  split; [|split].
  - intros i r Hi. destruct (Hin (player_id r)) as (v & Hv & Hlook).
    { apply list_elem_of_fmap. exists r. split; [done|]. by eapply list_elem_of_lookup_2. }
    destruct (Hrow i r v Hi Hv) as (b & Hb & ->). by exists b.
  - intros pid Hpid. by rewrite Hout.
  - destruct (dict_comp_sum _ _ _ _ Hnd (λ k _, lookup_empty k) Hd) as (vs & Hvs & ->).
    rewrite sum_values_empty, Z.add_0_l, <- sum_flags. f_equal.
    destruct (Forall2_by_row _ _ _ Hvs) as [Hlen Hvs'].
    assert (Hle : (length df ≤ length arr)%nat).
    { destruct (decide (length df ≤ length arr)%nat) as [|Hgt]; [done|].
      destruct (lookup_lt_is_Some_2 df (length arr)) as [r Hr]; [lia|].
      destruct (Hvs' _ _ Hr) as (v & _ & Hv).
      destruct (Hrow _ _ _ Hr Hv) as (b & Hb%lookup_lt_Some & _). lia. }
    apply (list_eq_same_length _ _ (length df)); [|done|].
    { rewrite length_map, length_take. lia. }
    intros i x y Hi Hx Hy.
    destruct (lookup_lt_is_Some_2 df i Hi) as [r Hr].
    destruct (Hvs' _ _ Hr) as (v & Hv & Hf). destruct (Hrow _ _ _ Hr Hf) as (b & Hb & ->).
    rewrite list_lookup_fmap, lookup_take_lt, Hb in Hy by done. cbn in Hy. congruence.
Qed.


(** Without an entry for some row, the dict is not made. *)
Lemma binary_dict_short (arr : list bool) (df : DataFrame) (d : gmap Z Z) :
  NoDup (map player_id df) →
  MiniZinc.binary_dict arr (MiniZinc.make_player_id_to_idx (map player_id df))
    (map player_id df) = inr d →
  (length df ≤ length arr)%nat.
Proof.
  intros Hnd Hd. destruct (binary_dict_inr _ _ _ Hnd Hd) as (Hrow & _ & _).
  destruct (decide (length df ≤ length arr)%nat) as [|Hgt]; [done|].
  destruct (lookup_lt_is_Some_2 df (length arr)) as [r Hr]; [lia|].
  destruct (Hrow _ _ Hr) as (b & Hb%lookup_lt_Some & _). lia.
Qed.

Lemma calculate_selling_prices_from_inr (rows : DataFrame) (p0_array : list Z)
    (idx : gmap Z nat) (acc sp : gmap Z Z) :
  MiniZinc.calculate_selling_prices_from rows p0_array idx acc = inr sp →
  ∀ r, r ∈ rows → ∃ j pp, idx !! player_id r = Some j ∧ p0_array !! (j - 1)%nat = Some pp.
Proof.
  revert acc. induction rows as [|r rows IH]; intros acc H r' Hr'.
  - by apply elem_of_nil in Hr'.
  - cbn [MiniZinc.calculate_selling_prices_from] in H.
    apply bind_inr in H as (j & Hj%getitem_inr & H).
    apply bind_inr in H as (pp & Hpp%list_getitem_inr & H).
    apply elem_of_cons in Hr' as [->|Hr']; [by exists j, pp | by eapply IH].
Qed.

(** The selling prices of a MiniZinc state update that returned. *)
Lemma minizinc_selling_prices_inr (df : DataFrame) (p0_array : list Z) (sp : gmap Z Z) :
  NoDup (map player_id df) →
  MiniZinc.calculate_selling_prices df p0_array
    (MiniZinc.make_player_id_to_idx (map player_id df)) = inr sp →
  ∀ i r, df !! i = Some r →
    ∃ pp, p0_array !! i = Some pp
          ∧ sp !! player_id r = Some (MiniZinc.selling_price (cost r) pp).
Proof.
  intros Hnd Hsp.
  assert (Hidx : ∀ i r, df !! i = Some r →
            MiniZinc.make_player_id_to_idx (map player_id df) !! player_id r = Some (S i)).
  { intros i r Hi. by apply getitem_inr, idx_getitem. }
  assert (Hp0 : ∀ i r, df !! i = Some r → is_Some (p0_array !! i)).
  { intros i r Hi.
    destruct (calculate_selling_prices_from_inr _ _ _ _ _ Hsp r) as (j & pp & Hj & Hpp).
    { by eapply list_elem_of_lookup_2. }
    rewrite (Hidx _ _ Hi) in Hj. injection Hj as <-.
    replace (S i - 1)%nat with i in Hpp by lia. by exists pp. }
  destruct (minizinc_selling_prices_from df p0_array
              (MiniZinc.make_player_id_to_idx (map player_id df)) ∅ Hnd)
    as (sp' & Hsp' & Hin & _).
  { intros r [i Hi]%list_elem_of_lookup_1. destruct (Hp0 _ _ Hi) as [pp Hpp].
    exists i, pp. split; [by apply Hidx | done]. }
  unfold MiniZinc.calculate_selling_prices in Hsp.
  assert (sp' = sp) as -> by congruence.
  intros i r Hi. destruct (Hp0 _ _ Hi) as [pp Hpp]. exists pp. split; [done|].
  apply (Hin r i pp); [by eapply list_elem_of_lookup_2 | by apply Hidx | done].
Qed.

(** A MiniZinc state update that returned, entry by entry: the table
    ids are distinct; every row has a flag in both arrays and a purchase
    price; the new purchase prices, the new allowance and the terms of
    the new bank balance are as listed. *)
Lemma minizinc_update_inr t_array s_array (df : DataFrame) p0 f B_bank st :
  MiniZinc.parse_post_gw1_output t_array s_array df p0 f B_bank = inr st →
  NoDup (map player_id df)
  ∧ (∀ i r, df !! i = Some r →
       ∃ (bt bs : bool) (pp : Z),
         t_array !! i = Some bt ∧ s_array !! i = Some bs ∧ p0 !! i = Some pp
         ∧ next_p0 st !! player_id r
           = Some (if bs then 0 else if bt then cost r else pp))
  ∧ (∀ pid, pid ∉ map player_id df → next_p0 st !! pid = None)
  ∧ next_f st
    = MiniZinc.free_transfers_update f
        (Z.of_nat (length (filter (λ b, b = true) (take (length df) t_array))))
  ∧ ∃ vs ws,
      length vs = length df ∧ length ws = length df
      ∧ (∀ i r (bs : bool) pp, df !! i = Some r → s_array !! i = Some bs →
           p0 !! i = Some pp →
           vs !! i = Some (MiniZinc.selling_price (cost r) pp * if bs then 1 else 0))
      ∧ (∀ i r (bt : bool), df !! i = Some r → t_array !! i = Some bt →
           ws !! i = Some (cost r * if bt then 1 else 0))
      ∧ next_B_bank st = B_bank + foldr Z.add 0 vs - foldr Z.add 0 ws.
Proof.
  unfold MiniZinc.parse_post_gw1_output.
  intros (t & Ht & H)%bind_inr. apply bind_inr in H as (s & Hs & H).
  apply bind_inr in H as (player_dict & [Hnd ->]%to_dict_index_inr & H).
  apply bind_inr in H as (p0_new & Hp0 & H). apply bind_inr in H as (sp & Hsp & H).
  apply bind_inr in H as (proceeds & Hproceeds & H).
  apply bind_inr in H as (costs & Hcosts & H).
  inversion H; subst; clear H. cbn [next_p0 next_f next_B_bank].
  destruct (binary_dict_inr _ _ _ Hnd Ht) as (Htrow & _ & Htsum).
  destruct (binary_dict_inr _ _ _ Hnd Hs) as (Hsrow & _ & _).
  pose proof (minizinc_selling_prices_inr _ _ _ Hnd Hsp) as Hsprow.
  destruct (dict_comp_result _ _ _ _ Hp0) as [Hp0in Hp0out].
  split; [done|]. split; [|split; [|split]].
  - intros i r Hi.
    destruct (Htrow _ _ Hi) as (bt & Hbt & Htr). destruct (Hsrow _ _ Hi) as (bs & Hbs & Hsr).
    destruct (Hsprow _ _ Hi) as (pp & Hpp & _).
    exists bt, bs, pp. split; [done|]. split; [done|]. split; [done|].
    destruct (Hp0in (player_id r)) as (v & Hv & ->).
    { apply list_elem_of_fmap. exists r. split; [done|]. by eapply list_elem_of_lookup_2. }
    f_equal. rewrite (idx_getitem _ _ _ Hnd Hi), inr_bind in Hv.
    rewrite (getitem_Some _ _ _ Hsr), inr_bind in Hv.
    destruct bs; cbn [Z.eqb Pos.eqb] in Hv; [by inversion Hv|].
    rewrite (getitem_Some _ _ _ Htr), inr_bind in Hv.
    destruct bt; cbn [Z.eqb Pos.eqb] in Hv.
    + rewrite (getitem_Some _ _ _ (rows_by_id_lookup _ _ Hnd (list_elem_of_lookup_2 _ _ _ Hi))),
        inr_bind in Hv. by inversion Hv.
    + rewrite list_getitem_S in Hv. apply list_getitem_inr in Hv. congruence.
  - intros pid Hpid. by rewrite Hp0out.
  - by rewrite Htsum.
  - apply sum_over_inr in Hproceeds as (vs & Hvs & ->).
    apply sum_over_inr in Hcosts as (ws & Hws & ->).
    destruct (Forall2_by_row _ _ _ Hvs) as [Hvlen Hvrow].
    destruct (Forall2_by_row _ _ _ Hws) as [Hwlen Hwrow].
    exists vs, ws. split; [done|]. split; [done|]. split; [|split; [|done]].
    + intros i r bs pp Hi Hbs Hpp. destruct (Hvrow _ _ Hi) as (v & -> & Hv). f_equal.
      destruct (Hsprow _ _ Hi) as (pp' & Hpp' & Hspr).
      destruct (Hsrow _ _ Hi) as (bs' & Hbs' & Hsr).
      assert (pp' = pp) as -> by congruence. assert (bs' = bs) as -> by congruence.
      rewrite (getitem_Some _ _ _ Hspr), inr_bind, (getitem_Some _ _ _ Hsr), inr_bind in Hv.
      by inversion Hv.
    + intros i r bt Hi Hbt. destruct (Hwrow _ _ Hi) as (w & -> & Hw). f_equal.
      destruct (Htrow _ _ Hi) as (bt' & Hbt' & Htr).
      assert (bt' = bt) as -> by congruence.
      rewrite (getitem_Some _ _ _ (rows_by_id_lookup _ _ Hnd (list_elem_of_lookup_2 _ _ _ Hi))),
        inr_bind, (getitem_Some _ _ _ Htr), inr_bind in Hw.
      by inversion Hw.
Qed.

Lemma to_dict_index_NoDup (df : DataFrame) :
  NoDup (map player_id df) → to_dict_index df = inr (rows_by_id df).
Proof.
  intros Hnd. unfold to_dict_index, duplicated_any.
  by rewrite bool_decide_eq_true_2.
Qed.

Lemma to_dict_index_dup (df : DataFrame) :
  ¬ NoDup (map player_id df) → ∃ e, to_dict_index df = inl e.
Proof.
  intros Hdup. unfold to_dict_index, duplicated_any.
  rewrite bool_decide_eq_false_2 by done. by eexists.
Qed.

Lemma sum_over_returns (f : Z → py Z) (df : DataFrame) :
  (∀ i r, df !! i = Some r → ∃ v, f (player_id r) = inr v) →
  ∃ total, sum_over f (map player_id df) = inr total.
Proof.
  induction df as [|r df IH]; intros Hf; cbn [map sum_over]; [by eexists|].
  destruct (Hf 0%nat r eq_refl) as [v ->]. rewrite inr_bind.
  destruct IH as [total ->]; [|by eexists].
  intros i r' Hi. by apply (Hf (S i)).
Qed.


(** X11: the purchase prices a MiniZinc state update hands on.  The new
    dict has exactly the table's ids as keys; the entry of the player in
    row [i] is 0 if [s_array[i]] is set, else the current cost if
    [t_array[i]] is set, else [p0[i]]. *)
Theorem minizinc_purchase_prices_updated :
  ∀ (t_array s_array : list bool) (players_df : DataFrame) (p0 : list Z) (f B_bank : Z)
    (st : NextState),
    MiniZinc.parse_post_gw1_output t_array s_array players_df p0 f B_bank = inr st →
    (∀ i r, players_df !! i = Some r →
       ∃ bt bs : bool,
         t_array !! i = Some bt ∧ s_array !! i = Some bs
         ∧ next_p0 st !! player_id r
           = if bs then Some 0 else if bt then Some (cost r) else p0 !! i)
    ∧ (∀ pid, pid ∉ map player_id players_df → next_p0 st !! pid = None).
Proof.
  intros t_array s_array players_df p0 f B_bank st
    (_ & Hrow & Hout & _)%minizinc_update_inr.
  split; [|exact Hout]. intros i r Hi.
  destruct (Hrow _ _ Hi) as (bt & bs & pp & Hbt & Hbs & Hpp & ->).
  exists bt, bs. split; [done|]. split; [done|]. by destruct bs, bt.
Qed.

Lemma minizinc_purchase_prices_updated_witness :
  ∃ st,
    MiniZinc.parse_post_gw1_output Sample.buy_16_array Sample.sell_12_array
      Sample.gw_df Sample.p0_array 1 60 = inr st
    ∧ next_p0 st !! 12 = Some 0 ∧ next_p0 st !! 16 = Some 105
    ∧ next_p0 st !! 3 = Some 60 ∧ next_p0 st !! 99 = None.
Proof.
  destruct (MiniZinc.parse_post_gw1_output Sample.buy_16_array Sample.sell_12_array
              Sample.gw_df Sample.p0_array 1 60) as [e|st] eqn:Hrun;
    [vm_compute in Hrun; discriminate|].
  exists st. split; [reflexivity|].
  destruct (minizinc_purchase_prices_updated _ _ _ _ _ _ _ Hrun) as [Hin Hout].
  repeat split.
  - destruct (Hin 11%nat _ eq_refl) as (bt & bs & Hbt & Hbs & Hp).
    vm_compute in Hbs. injection Hbs as <-. exact Hp.
  - destruct (Hin 15%nat _ eq_refl) as (bt & bs & Hbt & Hbs & Hp).
    vm_compute in Hbs, Hbt. injection Hbs as <-. injection Hbt as <-. exact Hp.
  - destruct (Hin 2%nat _ eq_refl) as (bt & bs & Hbt & Hbs & Hp).
    vm_compute in Hbs, Hbt. injection Hbs as <-. injection Hbt as <-.
    etransitivity; [exact Hp|]. reflexivity.
  - rewrite Hout; [reflexivity|]. apply (bool_decide_unpack _). vm_compute. exact I.
Defined.

Lemma free_transfers_update_cases (f made : Z) :
  MiniZinc.free_transfers_update f made = if made <? f then 2 else 1.
Proof.
  unfold MiniZinc.free_transfers_update.
  destruct (Z.leb_spec made f), (Z.ltb_spec 0 (f - made)), (Z.ltb_spec made f); lia.
Qed.

(** X12: the free transfers a MiniZinc state update hands on are 1 or
    2, whatever the allowance was: 2 when fewer transfers were made
    than the allowance held, and 1 otherwise, where the transfers made
    are the set flags among the first [len(players_df)] entries of
    [t_array]. *)
Theorem minizinc_free_transfers_one_or_two :
  ∀ (t_array s_array : list bool) (players_df : DataFrame) (p0 : list Z) (f B_bank : Z)
    (st : NextState),
    MiniZinc.parse_post_gw1_output t_array s_array players_df p0 f B_bank = inr st →
    let made := Z.of_nat (length (filter (λ b, b = true)
                                    (take (length players_df) t_array))) in
    next_f st = (if made <? f then 2 else 1)
    ∧ (next_f st = 1 ∨ next_f st = 2).
Proof.
  intros t_array s_array players_df p0 f B_bank st
    (_ & _ & _ & Hf & _)%minizinc_update_inr made.
  rewrite Hf, free_transfers_update_cases. fold made.
  split; [done|]. destruct (made <? f); auto.
Qed.

Lemma minizinc_free_transfers_one_or_two_witness :
  ∃ st,
    MiniZinc.parse_post_gw1_output Sample.buy_16_array Sample.sell_12_array
      Sample.gw_df Sample.p0_array 5 60 = inr st
    ∧ next_f st = 2.
Proof.
  destruct (MiniZinc.parse_post_gw1_output Sample.buy_16_array Sample.sell_12_array
              Sample.gw_df Sample.p0_array 5 60) as [e|st] eqn:Hrun;
    [vm_compute in Hrun; discriminate|].
  exists st. split; [reflexivity|].
  destruct (minizinc_free_transfers_one_or_two _ _ _ _ _ _ _ Hrun) as [Hf _].
  etransitivity; [exact Hf|]. reflexivity.
Defined.


(** ** The MILP state update, entry by entry *)

Lemma milp_selling_prices_inr (df : DataFrame) (p0 sp : gmap Z Z) :
  NoDup (map player_id df) →
  Milp.selling_prices (rows_by_id df) p0 (map player_id df) = inr sp →
  ∀ r, r ∈ df →
    ∃ pp, p0 !! player_id r = Some pp
          ∧ sp !! player_id r = Some (Milp.selling_price (cost r) pp).
Proof.
  intros Hnd Hsp r Hr. unfold Milp.selling_prices in Hsp.
  destruct (dict_comp_result _ _ _ _ Hsp) as [Hin _].
  destruct (Hin (player_id r)) as (v & Hv & ->).
  { apply list_elem_of_fmap. by exists r. }
  rewrite (getitem_Some _ _ _ (rows_by_id_lookup _ _ Hnd Hr)), inr_bind in Hv.
  apply bind_inr in Hv as (pp & Hpp%getitem_inr & Hv). exists pp. split; [done|].
  by inversion Hv.
Qed.

(** A MILP state update that returned, entry by entry. *)
Lemma milp_update_entries (df : DataFrame) p0 f B_bank t_star s_star st :
  Milp.optimize_post_gw1_step1 df p0 f B_bank t_star s_star = inr st →
  NoDup (map player_id df)
  ∧ (∀ r, r ∈ df →
       is_Some (p0 !! player_id r) ∧ is_Some (t_star !! player_id r)
       ∧ is_Some (s_star !! player_id r))
  ∧ ∃ vs ws,
      length vs = length df ∧ length ws = length df
      ∧ (∀ i r pp s, df !! i = Some r → p0 !! player_id r = Some pp →
           s_star !! player_id r = Some s →
           vs !! i = Some (Milp.selling_price (cost r) pp * s))
      ∧ (∀ i r t, df !! i = Some r → t_star !! player_id r = Some t →
           ws !! i = Some (cost r * t))
      ∧ next_B_bank st = B_bank + foldr Z.add 0 vs - foldr Z.add 0 ws.
Proof.
  intros (Hnd & _ & sp & proceeds & costs & Hsp & Hproceeds & Hcosts & Hbank)%milp_update_inr.
  pose proof (milp_selling_prices_inr _ _ _ Hnd Hsp) as Hsprow.
  apply sum_over_inr in Hproceeds as (vs & Hvs & ->).
  apply sum_over_inr in Hcosts as (ws & Hws & ->).
  destruct (Forall2_by_row _ _ _ Hvs) as [Hvlen Hvrow].
  destruct (Forall2_by_row _ _ _ Hws) as [Hwlen Hwrow].
  split; [done|]. split.
  - intros r Hr. pose proof Hr as [i Hi]%list_elem_of_lookup_1.
    destruct (Hsprow _ Hr) as (pp & Hpp & Hspr).
    destruct (Hvrow _ _ Hi) as (v & _ & Hv). destruct (Hwrow _ _ Hi) as (w & _ & Hw).
    rewrite (getitem_Some _ _ _ Hspr), inr_bind in Hv.
    apply bind_inr in Hv as (sv & Hsv%getitem_inr & _).
    rewrite (getitem_Some _ _ _ (rows_by_id_lookup _ _ Hnd Hr)), inr_bind in Hw.
    apply bind_inr in Hw as (tv & Htv%getitem_inr & _).
    repeat split; by eexists.
  - exists vs, ws. split; [done|]. split; [done|]. split; [|split; [|done]].
    + intros i r pp sv Hi Hpp Hsv. destruct (Hvrow _ _ Hi) as (v & -> & Hv). f_equal.
      destruct (Hsprow r) as (pp' & Hpp' & Hspr); [by eapply list_elem_of_lookup_2|].
      assert (pp' = pp) as -> by congruence.
      rewrite (getitem_Some _ _ _ Hspr), inr_bind, (getitem_Some _ _ _ Hsv), inr_bind in Hv.
      by inversion Hv.
    + intros i r tv Hi Htv. destruct (Hwrow _ _ Hi) as (w & -> & Hw). f_equal.
      rewrite (getitem_Some _ _ _ (rows_by_id_lookup _ _ Hnd (list_elem_of_lookup_2 _ _ _ Hi))),
        inr_bind, (getitem_Some _ _ _ Htv), inr_bind in Hw.
      by inversion Hw.
Qed.

Lemma update_p0_returns players t_star s_star player_ids p0 :
  (∀ pid, pid ∈ player_ids →
     is_Some (players !! pid) ∧ is_Some (t_star !! pid) ∧ is_Some (s_star !! pid)) →
  ∃ p0', Milp.update_p0 players t_star s_star player_ids p0 = inr p0'.
Proof.
  revert p0. induction player_ids as [|k ids IH]; intros p0 Hk; cbn [Milp.update_p0].
  - by eexists.
  - destruct (Hk k) as ([p Hp] & [t Ht] & [s Hs]); [left|].
    assert (Hids : ∀ pid, pid ∈ ids →
              is_Some (players !! pid) ∧ is_Some (t_star !! pid) ∧ is_Some (s_star !! pid)).
    { intros pid Hpid. apply Hk. by right. }
    rewrite (getitem_Some _ _ _ Hs), inr_bind.
    destruct (negb (s =? 0)); [by apply IH|].
    rewrite (getitem_Some _ _ _ Ht), inr_bind.
    destruct (negb (t =? 0)); [|by apply IH].
    rewrite (getitem_Some _ _ _ Hp), inr_bind. by apply IH.
Qed.

(** The MILP state update returns on a table with distinct ids when
    the three dicts have an entry for every id of the table. *)
Lemma milp_update_returns (df : DataFrame) p0 f B_bank t_star s_star :
  NoDup (map player_id df) →
  (∀ r, r ∈ df →
     is_Some (p0 !! player_id r) ∧ is_Some (t_star !! player_id r)
     ∧ is_Some (s_star !! player_id r)) →
  ∃ st, Milp.optimize_post_gw1_step1 df p0 f B_bank t_star s_star = inr st.
Proof.
  intros Hnd Hkeys. unfold Milp.optimize_post_gw1_step1, duplicated_any.
  rewrite bool_decide_eq_true_2 by done. cbn [negb].
  rewrite (to_dict_index_NoDup _ Hnd), inr_bind.
  destruct (milp_selling_prices df p0 Hnd) as (sp & Hsp & Hsprow).
  { intros r Hr. by destruct (Hkeys r Hr). }
  rewrite Hsp, inr_bind.
  destruct (update_p0_returns (rows_by_id df) t_star s_star (map player_id df) p0)
    as [p0' ->].
  { intros pid (r & -> & Hr)%list_elem_of_fmap. destruct (Hkeys r Hr) as (_ & Ht & Hs).
    split; [|done]. exists r. by apply rows_by_id_lookup. }
  rewrite inr_bind.
  lazymatch goal with
  | |- ∃ _, (sum_over ?g _ ≫= _) = _ =>
      destruct (sum_over_returns g df) as [proceeds ->]
  end.
  { intros i r Hi%list_elem_of_lookup_2. destruct (Hkeys r Hi) as ([pp Hpp] & _ & [s Hs]).
    rewrite (getitem_Some _ _ _ (Hsprow r pp Hi Hpp)), inr_bind.
    rewrite (getitem_Some _ _ _ Hs), inr_bind. by eexists. }
  rewrite inr_bind.
  lazymatch goal with
  | |- ∃ _, (sum_over ?g _ ≫= _) = _ =>
      destruct (sum_over_returns g df) as [costs ->]
  end.
  { intros i r Hi%list_elem_of_lookup_2. destruct (Hkeys r Hi) as (_ & [t Ht] & _).
    rewrite (getitem_Some _ _ _ (rows_by_id_lookup _ _ Hnd Hi)), inr_bind.
    rewrite (getitem_Some _ _ _ Ht), inr_bind. by eexists. }
  rewrite inr_bind. by eexists.
Qed.

(** X14: when the MILP state update goes through.  The solver's dicts
    [t_star] and [s_star] are built over the table's ids, so they have
    an entry for each of them; then the selling prices and the state
    update are computed without an exception exactly when the table's
    ids are distinct and [p0] has an entry for every id of the table.
    Nothing else is checked there: not that a sold player was owned, nor
    the number of transfers, nor the budget. *)
Theorem milp_update_returns_iff :
  ∀ (players_df : DataFrame) (p0 : gmap Z Z) (f B_bank : Z) (t_star s_star : gmap Z Z),
    (∀ r, r ∈ players_df →
       is_Some (t_star !! player_id r) ∧ is_Some (s_star !! player_id r)) →
    (∃ st, Milp.optimize_post_gw1_step1 players_df p0 f B_bank t_star s_star = inr st)
    ↔ NoDup (map player_id players_df)
      ∧ ∀ r, r ∈ players_df → is_Some (p0 !! player_id r).
Proof.
  intros players_df p0 f B_bank t_star s_star Hsolver. split.
  - intros [st (Hnd & Hkeys & _)%milp_update_entries]. split; [done|].
    intros r Hr. by destruct (Hkeys r Hr).
  - intros [Hnd Hkeys]. apply milp_update_returns; [done|].
    intros r Hr. destruct (Hsolver r Hr). by split; [apply Hkeys|].
Qed.

Lemma milp_update_returns_iff_witness :
  (∃ st, Milp.optimize_post_gw1_step1 Sample.gw_df Sample.p0 1 60
           Sample.buy_16 Sample.sell_12 = inr st)
  ∧ ¬ ∃ st, Milp.optimize_post_gw1_step1 Sample.gw_df (delete 16 Sample.p0) 1 60
              Sample.buy_16 Sample.sell_12 = inr st.
Proof.
  assert (Hsolver : ∀ r, r ∈ Sample.gw_df →
            is_Some (Sample.buy_16 !! player_id r) ∧ is_Some (Sample.sell_12 !! player_id r)).
  { intros r Hr. apply list_elem_of_lookup_1 in Hr as [i Hi].
    do 16 (destruct i as [|i]; [injection Hi as <-; split; vm_compute; by eexists|]).
    discriminate. }
  split.
  - apply (milp_update_returns_iff Sample.gw_df Sample.p0 1 60 _ _ Hsolver). split.
    + apply (bool_decide_unpack _). vm_compute. exact I.
    + intros r Hr. apply list_elem_of_lookup_1 in Hr as [i Hi].
      do 16 (destruct i as [|i]; [injection Hi as <-; vm_compute; by eexists|]).
      discriminate.
  - intros [_ Hkeys]%(milp_update_returns_iff Sample.gw_df (delete 16 Sample.p0) 1 60
                        _ _ Hsolver).
    destruct (Hkeys (Sample.player 16 MID "CHE" 105 12 90)) as [pp Hpp].
    + apply (list_elem_of_lookup_2 _ 15). reflexivity.
    + vm_compute in Hpp. discriminate.
Defined.

(** ** The two optimisers' state updates side by side *)

Lemma selling_price_owned (current_price purchase_price : Z) :
  0 < purchase_price →
  MiniZinc.selling_price current_price purchase_price
  = Milp.selling_price current_price purchase_price.
Proof.
  intros Hpp. unfold MiniZinc.selling_price, Milp.selling_price.
  destruct (Z.ltb_spec purchase_price current_price), (Z.ltb_spec 0 purchase_price);
    cbn [andb]; try reflexivity; lia.
Qed.

(** X15: the two state updates agree on money.  Take a MiniZinc state
    update that returned, and hand the MILP state update the same table
    and the same data as dicts (purchase prices, and the flags of
    [t_array] and [s_array] as 0/1).  If every sold player has a
    positive purchase price, the MILP update returns as well, with the
    same bank balance and the same purchase price for every player of
    the table. *)
Theorem state_updates_agree_on_money :
  ∀ (players_df : DataFrame) (t_array s_array : list bool) (p0_array : list Z)
    (p0 t_star s_star : gmap Z Z) (f B_bank : Z) (st_z : NextState),
    MiniZinc.parse_post_gw1_output t_array s_array players_df p0_array f B_bank
    = inr st_z →
    (∀ i r, players_df !! i = Some r →
       p0 !! player_id r = p0_array !! i
       ∧ t_star !! player_id r = (λ b : bool, if b then 1 else 0) <$> t_array !! i
       ∧ s_star !! player_id r = (λ b : bool, if b then 1 else 0) <$> s_array !! i) →
    (∀ i r pp, players_df !! i = Some r → s_array !! i = Some true →
       p0_array !! i = Some pp → 0 < pp) →
    ∃ st_m,
      Milp.optimize_post_gw1_step1 players_df p0 f B_bank t_star s_star = inr st_m
      ∧ next_B_bank st_m = next_B_bank st_z
      ∧ ∀ r, r ∈ players_df → next_p0 st_m !! player_id r = next_p0 st_z !! player_id r.
Proof.
  intros players_df t_array s_array p0_array p0 t_star s_star f B_bank st_z Hz Hsame Hown.
  destruct (minizinc_update_inr _ _ _ _ _ _ _ Hz)
    as (Hnd & Hzrow & _ & _ & vs & ws & Hvlen & Hwlen & Hvs & Hws & Hzbank).
  assert (Hrow : ∀ i r, players_df !! i = Some r →
            ∃ (bt bs : bool) (pp : Z),
              t_array !! i = Some bt ∧ s_array !! i = Some bs ∧ p0_array !! i = Some pp
              ∧ p0 !! player_id r = Some pp
              ∧ t_star !! player_id r = Some (if bt then 1 else 0)
              ∧ s_star !! player_id r = Some (if bs then 1 else 0)
              ∧ next_p0 st_z !! player_id r
                = Some (if bs then 0 else if bt then cost r else pp)).
  { intros i r Hi. destruct (Hzrow _ _ Hi) as (bt & bs & pp & Hbt & Hbs & Hpp & Hnew).
    destruct (Hsame _ _ Hi) as (Hp & Ht & Hs). rewrite Hpp in Hp.
    rewrite Hbt in Ht. rewrite Hbs in Hs. by exists bt, bs, pp. }
  destruct (milp_update_returns players_df p0 f B_bank t_star s_star Hnd) as [st_m Hm].
  { intros r [i Hi]%list_elem_of_lookup_1.
    destruct (Hrow _ _ Hi) as (bt & bs & pp & _ & _ & _ & Hp & Ht & Hs & _).
    repeat split; by eexists. }
  exists st_m. split; [done|].
  destruct (milp_update_entries _ _ _ _ _ _ _ Hm)
    as (_ & _ & vs' & ws' & Hvlen' & Hwlen' & Hvs' & Hws' & Hmbank).
  destruct (milp_update_inr _ _ _ _ _ _ _ Hm) as (_ & [_ Hp0]%update_p0_inr & _).
  split.
  - rewrite Hmbank, Hzbank. f_equal; [f_equal|]; f_equal.
    + apply (list_eq_same_length _ _ (length players_df)); [done|done|].
      intros i x y Hi Hx Hy. destruct (lookup_lt_is_Some_2 players_df i Hi) as [r Hr].
      destruct (Hrow _ _ Hr) as (bt & bs & pp & Hbt & Hbs & Hpp & Hp & Ht & Hs & _).
      rewrite (Hvs' _ _ _ _ Hr Hp Hs) in Hx. rewrite (Hvs _ _ _ _ Hr Hbs Hpp) in Hy.
      injection Hx as <-. injection Hy as <-.
      destruct bs; [|lia]. by rewrite (selling_price_owned _ _ (Hown _ _ _ Hr Hbs Hpp)).
    + apply (list_eq_same_length _ _ (length players_df)); [done|done|].
      intros i x y Hi Hx Hy. destruct (lookup_lt_is_Some_2 players_df i Hi) as [r Hr].
      destruct (Hrow _ _ Hr) as (bt & bs & pp & Hbt & Hbs & Hpp & Hp & Ht & Hs & _).
      rewrite (Hws' _ _ _ Hr Ht) in Hx. rewrite (Hws _ _ _ Hr Hbt) in Hy. congruence.
  - intros r Hr. pose proof Hr as [i Hi]%list_elem_of_lookup_1.
    destruct (Hrow _ _ Hi) as (bt & bs & pp & _ & _ & _ & Hp & Ht & Hs & ->).
    destruct (Hp0 (player_id r)) as (s & Hs' & Hcase).
    { apply list_elem_of_fmap. by exists r. }
    assert (s = if bs then 1 else 0) as -> by congruence.
    destruct bs; [by rewrite decide_False in Hcase|].
    rewrite decide_True in Hcase by done. destruct Hcase as (t & Ht' & Hcase).
    assert (t = if bt then 1 else 0) as -> by congruence.
    destruct bt.
    + rewrite decide_False in Hcase by done. destruct Hcase as (p & Hlook & ->).
      rewrite (rows_by_id_lookup _ _ Hnd Hr) in Hlook. by injection Hlook as <-.
    + rewrite decide_True in Hcase by done. by rewrite Hcase.
Qed.

Lemma state_updates_agree_on_money_witness :
  ∃ st_m,
    Milp.optimize_post_gw1_step1 Sample.gw_df Sample.p0 1 60 Sample.buy_16 Sample.sell_12
    = inr st_m
    ∧ next_B_bank st_m = 10.
Proof.
  destruct (MiniZinc.parse_post_gw1_output Sample.buy_16_array Sample.sell_12_array
              Sample.gw_df Sample.p0_array 1 60) as [e|st_z] eqn:Hz;
    [vm_compute in Hz; discriminate|].
  destruct (state_updates_agree_on_money Sample.gw_df Sample.buy_16_array
              Sample.sell_12_array Sample.p0_array Sample.p0 Sample.buy_16 Sample.sell_12
              1 60 st_z Hz) as (st_m & Hm & Hbank & _).
  - intros i r Hi.
    do 16 (destruct i as [|i]; [injection Hi as <-; vm_compute; done|]).
    discriminate.
  - intros i r pp Hi Hs Hpp.
    do 16 (destruct i as [|i];
           [first [discriminate Hs | injection Hpp as <-; vm_compute; reflexivity]|]).
    discriminate.
  - exists st_m. split; [exact Hm|]. rewrite Hbank.
    vm_compute in Hz. injection Hz as <-. reflexivity.
Defined.

(** ** Bank balance in closed form *)

(** X16: the bank balance a MiniZinc state update hands on is the old
    balance, plus the selling price of every player whose [s_array]
    flag is set, minus the current cost of every player whose
    [t_array] flag is set, summed over the rows of the table. *)
Theorem minizinc_bank_balance :
  ∀ (t_array s_array : list bool) (players_df : DataFrame) (p0 : list Z) (f B_bank : Z)
    (st : NextState),
    MiniZinc.parse_post_gw1_output t_array s_array players_df p0 f B_bank = inr st →
    next_B_bank st
    = B_bank
      + foldr Z.add 0
          (imap (λ i r, if default false (s_array !! i)
                        then MiniZinc.selling_price (cost r) (default 0 (p0 !! i))
                        else 0) players_df)
      - foldr Z.add 0
          (imap (λ i r, if default false (t_array !! i) then cost r else 0) players_df).
Proof.
  intros t_array s_array players_df p0 f B_bank st
    (_ & Hrow & _ & _ & vs & ws & Hvlen & Hwlen & Hvs & Hws & ->)%minizinc_update_inr.
  f_equal; [f_equal|]; f_equal.
  - apply (list_eq_same_length _ _ (length players_df)); [by rewrite length_imap|done|].
    intros i x y Hi Hx Hy. destruct (lookup_lt_is_Some_2 players_df i Hi) as [r Hr].
    destruct (Hrow _ _ Hr) as (bt & bs & pp & Hbt & Hbs & Hpp & _).
    rewrite (Hvs _ _ _ _ Hr Hbs Hpp) in Hx. injection Hx as <-.
    rewrite list_lookup_imap, Hr, Hbs, Hpp in Hy. cbn in Hy. injection Hy as <-.
    destruct bs; lia.
  - apply (list_eq_same_length _ _ (length players_df)); [by rewrite length_imap|done|].
    intros i x y Hi Hx Hy. destruct (lookup_lt_is_Some_2 players_df i Hi) as [r Hr].
    destruct (Hrow _ _ Hr) as (bt & bs & pp & Hbt & Hbs & Hpp & _).
    rewrite (Hws _ _ _ Hr Hbt) in Hx. injection Hx as <-.
    rewrite list_lookup_imap, Hr, Hbt in Hy. cbn in Hy. injection Hy as <-.
    destruct bt; lia.
Qed.

Lemma minizinc_bank_balance_witness :
  ∃ st,
    MiniZinc.parse_post_gw1_output Sample.buy_16_array Sample.sell_12_array
      Sample.gw_df Sample.p0_array 1 60 = inr st
    ∧ next_B_bank st = 60 + 55 - 105.
Proof.
  destruct (MiniZinc.parse_post_gw1_output Sample.buy_16_array Sample.sell_12_array
              Sample.gw_df Sample.p0_array 1 60) as [e|st] eqn:Hrun;
    [vm_compute in Hrun; discriminate|].
  exists st. split; [reflexivity|].
  etransitivity; [exact (minizinc_bank_balance _ _ _ _ _ _ _ Hrun)|]. reflexivity.
Defined.

(** X17: the bank balance a MILP state update hands on is the old
    balance, plus selling price times [s_star] entry, minus current
    cost times [t_star] entry, summed over the rows of the table. *)
Theorem milp_bank_balance :
  ∀ (players_df : DataFrame) (p0 : gmap Z Z) (f B_bank : Z) (t_star s_star : gmap Z Z)
    (st : NextState),
    Milp.optimize_post_gw1_step1 players_df p0 f B_bank t_star s_star = inr st →
    next_B_bank st
    = B_bank
      + foldr Z.add 0
          (map (λ r, Milp.selling_price (cost r) (default 0 (p0 !! player_id r))
                     * default 0 (s_star !! player_id r)) players_df)
      - foldr Z.add 0
          (map (λ r, cost r * default 0 (t_star !! player_id r)) players_df).
Proof.
  intros players_df p0 f B_bank t_star s_star st
    (_ & Hkeys & vs & ws & Hvlen & Hwlen & Hvs & Hws & ->)%milp_update_entries.
  f_equal; [f_equal|]; f_equal.
  - apply (list_eq_same_length _ _ (length players_df)); [by rewrite length_map|done|].
    intros i x y Hi Hx Hy. destruct (lookup_lt_is_Some_2 players_df i Hi) as [r Hr].
    destruct (Hkeys r) as ([pp Hpp] & _ & [s Hs]); [by eapply list_elem_of_lookup_2|].
    rewrite (Hvs _ _ _ _ Hr Hpp Hs) in Hx. injection Hx as <-.
    rewrite list_lookup_fmap, Hr in Hy. cbn [fmap option_fmap option_map] in Hy.
    rewrite Hpp, Hs in Hy. cbn [default] in Hy. by injection Hy as <-.
  - apply (list_eq_same_length _ _ (length players_df)); [by rewrite length_map|done|].
    intros i x y Hi Hx Hy. destruct (lookup_lt_is_Some_2 players_df i Hi) as [r Hr].
    destruct (Hkeys r) as (_ & [t Ht] & _); [by eapply list_elem_of_lookup_2|].
    rewrite (Hws _ _ _ Hr Ht) in Hx. injection Hx as <-.
    rewrite list_lookup_fmap, Hr in Hy. cbn [fmap option_fmap option_map] in Hy.
    rewrite Ht in Hy. cbn [default] in Hy. by injection Hy as <-.
Qed.

Lemma milp_bank_balance_witness :
  ∃ st,
    Milp.optimize_post_gw1_step1 Sample.gw_df Sample.p0 1 60 Sample.buy_16 Sample.sell_12
    = inr st
    ∧ next_B_bank st = 60 + 55 - 105.
Proof.
  destruct (Milp.optimize_post_gw1_step1 Sample.gw_df Sample.p0 1 60
              Sample.buy_16 Sample.sell_12) as [e|st] eqn:Hrun;
    [vm_compute in Hrun; discriminate|].
  exists st. split; [reflexivity|].
  etransitivity; [exact (milp_bank_balance _ _ _ _ _ _ _ Hrun)|]. reflexivity.
Defined.

(** ** The selling price as a function *)

(** X18: the selling price never exceeds the current cost; it is the
    current cost when the price has not risen; when it has risen, the
    seller keeps the purchase price plus half of the rise, rounded up;
    it grows with the current cost and with the purchase price; and the
    two optimisers compute the same selling price for a positive
    purchase price, while for a purchase price of 0 the MiniZinc path
    gives 0 where the MILP path gives half the current cost, rounded
    up. *)
Theorem selling_price_shape :
  ∀ current_price purchase_price : Z,
    let sp := Milp.selling_price current_price purchase_price in
    sp ≤ current_price
    ∧ (current_price ≤ purchase_price → sp = current_price)
    ∧ (purchase_price < current_price →
       purchase_price < sp
       ∧ current_price + purchase_price ≤ 2 * sp ≤ current_price + purchase_price + 1)
    ∧ (∀ c', current_price ≤ c' → sp ≤ Milp.selling_price c' purchase_price)
    ∧ (∀ p', purchase_price ≤ p' → sp ≤ Milp.selling_price current_price p')
    ∧ (0 < purchase_price →
       MiniZinc.selling_price current_price purchase_price = sp)
    ∧ (0 < current_price →
       MiniZinc.selling_price current_price 0 = 0
       ∧ Milp.selling_price current_price 0 = (current_price + 1) / 2).
Proof.
  intros c p sp. subst sp.
  assert (Hhalf : ∀ d, 2 * ceil_half d - 1 ≤ d ≤ 2 * ceil_half d).
  { intros d. rewrite ceil_half_div.
    pose proof (Z.div_mod (d + 1) 2 ltac:(lia)).
    pose proof (Z.mod_pos_bound (d + 1) 2 ltac:(lia)). lia. }
  unfold Milp.selling_price, MiniZinc.selling_price.
  pose proof (Hhalf (c - p)) as Hcp.
  split; [|split; [|split; [|split; [|split; [|split]]]]].
  - destruct (Z.ltb_spec p c); lia.
  - intros Hle. destruct (Z.ltb_spec p c); lia.
  - intros Hlt. destruct (Z.ltb_spec p c); lia.
  - intros c' Hc'. pose proof (Hhalf (c' - p)).
    destruct (Z.ltb_spec p c), (Z.ltb_spec p c'); lia.
  - intros p' Hp'. pose proof (Hhalf (c - p')).
    destruct (Z.ltb_spec p c), (Z.ltb_spec p' c); lia.
  - intros Hp. destruct (Z.ltb_spec p c), (Z.ltb_spec 0 p); cbn [andb]; try reflexivity; lia.
  - intros Hc. split; [by rewrite Z.ltb_irrefl, andb_false_r|].
    destruct (Z.ltb_spec 0 c); [|lia]. rewrite ceil_half_div.
    replace (c - 0 + 1) with (c + 1) by lia. lia.
Qed.


(** * Post-hoc assignments of the optimiser *)

(** ** The vice-captain *)

Section ViceCaptain.
Variable players : gmap Z Row.
Variables x_star c_star : list (Z * Z).

Lemma candidate_key pid k k' :
  Spec.candidate players x_star c_star pid k →
  Spec.candidate players x_star c_star pid k' → k = k'.
Proof. intros (_ & _ & p & Hp & <-) (_ & _ & p' & Hp' & <-). congruence. Qed.

Lemma max_candidate_skip (pid : Z) (ids : list Z) (best res : option (Z * Q)) :
  (∀ k, ¬ Spec.candidate players x_star c_star pid k) →
  Spec.max_candidate_result players x_star c_star ids best res →
  Spec.max_candidate_result players x_star c_star (pid :: ids) best res.
Proof.
  intros Hno [[-> Hcov]|(j & w & kw & -> & Hj & Hw & Hb & Hlt & Hle)].
  - left. split; [done|]. intros pid' k [->|Hin]%elem_of_cons Hc; [by destruct (Hno k)|].
    by eapply Hcov.
  - right. exists (S j), w, kw. split; [done|]. split; [exact Hj|].
    split; [done|]. split; [done|]. split.
    + intros [|j'] pid' k Hj' Hlook Hc.
      * injection Hlook as <-. by destruct (Hno k).
      * apply (Hlt j' pid' k); [lia|done|done].
    + intros [|j'] pid' k Hj' Hlook Hc; [lia|].
      apply (Hle j' pid' k); [lia|done|done].
Qed.

Lemma max_candidate_spec (player_ids : list Z) (best res : option (Z * Q)) :
  Utils.max_candidate players x_star c_star player_ids best = inr res →
  Spec.max_candidate_result players x_star c_star player_ids best res.
Proof.
  revert best. induction player_ids as [|pid ids IH]; intros best;
    cbn [Utils.max_candidate].
  - intros Heq. inversion Heq; subst. left. split; [done|].
    intros pid k Hpid. by apply elem_of_nil in Hpid.
  - intros (x & Hx & H)%bind_inr.
    destruct (Z.eqb_spec x 1) as [->|Hx1].
    2:{ apply max_candidate_skip; [|by apply IH]. intros k (Hx' & _). congruence. }
    apply bind_inr in H as (c & Hc & H).
    destruct (Z.eqb_spec c 0) as [->|Hc0].
    2:{ apply max_candidate_skip; [|by apply IH]. intros k (_ & Hc' & _). congruence. }
    apply bind_inr in H as (p & Hp%getitem_inr & H).
    assert (Hcand : Spec.candidate players x_star c_star pid (expected_points p)).
    { split; [done|]. split; [done|]. by exists p. }
    set (key := expected_points p) in *.
    destruct (IH _ H) as [[-> Hcov]|(j & w & kw & -> & Hj & Hw & Hb & Hlt & Hle)].
    + destruct best as [[b kb]|].
      * destruct (Qle_bool key kb) eqn:Hcmp; cbn [negb] in *.
        -- left. split; [done|]. intros pid' k [->|Hin]%elem_of_cons Hc'.
           ++ rewrite (candidate_key _ _ _ Hc' Hcand). by apply Qle_bool_iff.
           ++ by eapply Hcov.
        -- right. exists 0%nat, pid, key. split; [done|]. split; [done|].
           split; [done|]. split; [|split].
           ++ cbn. apply Qnot_le_lt. intros Hle%Qle_bool_iff. congruence.
           ++ intros j' pid' k Hj'. lia.
           ++ intros [|j'] pid' k Hj' Hlook Hc'; [lia|].
              apply (Hcov pid' k); [|done]. by eapply list_elem_of_lookup_2.
      * right. exists 0%nat, pid, key. split; [done|]. split; [done|].
        split; [done|]. split; [done|]. split.
        -- intros j' pid' k Hj'. lia.
        -- intros [|j'] pid' k Hj' Hlook Hc'; [lia|].
           apply (Hcov pid' k); [|done]. by eapply list_elem_of_lookup_2.
    + right. exists (S j), w, kw.
      assert (Hkey : (key < kw)%Q ∧ Spec.beats best kw).
      { destruct best as [[b kb]|]; [|by split].
        destruct (Qle_bool key kb) eqn:Hcmp; cbn [negb Spec.beats] in *.
        - apply Qle_bool_iff in Hcmp. split; [|done]. by eapply Qle_lt_trans.
        - split; [done|]. apply Qlt_trans with key; [|done].
          apply Qnot_le_lt. intros Hle'%Qle_bool_iff. congruence. }
      destruct Hkey as [Hkey Hbeats]. split; [done|]. split; [exact Hj|].
      split; [done|]. split; [done|]. split.
      * intros [|j'] pid' k Hj' Hlook Hc'.
        -- injection Hlook as <-. by rewrite (candidate_key _ _ _ Hc' Hcand).
        -- apply (Hlt j' pid' k); [lia|done|done].
      * intros [|j'] pid' k Hj' Hlook Hc'; [lia|].
        apply (Hle j' pid' k); [lia|done|done].
Qed.

(** The vice-captain is the first candidate of highest key. *)
Lemma select_vice_captain_inr (player_ids : list Z) (vice : Z) :
  Utils.select_vice_captain players x_star c_star player_ids = inr vice →
  ∃ (j : nat) key,
    player_ids !! j = Some vice ∧ Spec.candidate players x_star c_star vice key
    ∧ (∀ (j' : nat) pid k, (j' < j)%nat → player_ids !! j' = Some pid →
         Spec.candidate players x_star c_star pid k → (k < key)%Q)
    ∧ (∀ (j' : nat) pid k, (j < j')%nat → player_ids !! j' = Some pid →
         Spec.candidate players x_star c_star pid k → (k <= key)%Q).
Proof.
  unfold Utils.select_vice_captain. intros (res & Hres & H)%bind_inr.
  destruct (max_candidate_spec _ _ _ Hres)
    as [[-> _]|(j & w & kw & -> & Hj & Hw & _ & Hlt & Hle)]; [discriminate|].
  inversion H; subst. by exists j, kw.
Qed.
End ViceCaptain.

(** ** The bench *)

(** A bench order that was computed: every bench id is in the table,
    the bench holds one GK and three others, and the order is the GK
    followed by the others by descending expected points, stably. *)
Lemma assign_bench_positions_inr (players : gmap Z Row) (bench_ids order : list Z) :
  Utils.assign_bench_positions players bench_ids = inr order →
  (∀ pid, pid ∈ bench_ids → is_Some (players !! pid))
  ∧ ∃ gk o2 o3 o4,
      order = [gk; o2; o3; o4]
      ∧ Spec.gk_ids players bench_ids = [gk]
      ∧ [o2; o3; o4] ≡ₚ Spec.outfield_ids players bench_ids
      ∧ StronglySorted (λ a b, (Spec.expected_points_of players b
                                <= Spec.expected_points_of players a)%Q) [o2; o3; o4]
      ∧ ∀ q, filter (λ pid, (Spec.expected_points_of players pid == q)%Q) [o2; o3; o4]
             = filter (λ pid, (Spec.expected_points_of players pid == q)%Q)
                      (Spec.outfield_ids players bench_ids).
Proof.
  intros Hrun.
  destruct (decide (Forall (λ pid, is_Some (players !! pid)) bench_ids)) as [Hres|Hmiss].
  2:{ unfold Utils.assign_bench_positions in Hrun.
      rewrite (select_position_missing players (λ p, bool_decide (p = GK))) in Hrun;
        [discriminate|]. by rewrite <- Forall_forall. }
  rewrite Forall_forall in Hres. split; [done|].
  unfold Utils.assign_bench_positions in Hrun.
  rewrite select_gk, inr_bind in Hrun by done.
  destruct (Nat.eqb_spec (length (Spec.gk_ids players bench_ids)) 1) as [Hgk|];
    [|discriminate].
  cbn [negb] in Hrun.
  destruct (Spec.gk_ids players bench_ids) as [|gk [|? ?]] eqn:Hgks; try discriminate.
  cbn [list_getitem lookup list_lookup] in Hrun. rewrite ret_bind in Hrun.
  rewrite select_outfield, inr_bind in Hrun by done.
  destruct (Nat.eqb_spec (length (Spec.outfield_ids players bench_ids)) 3) as [Hout|];
    [|discriminate].
  cbn [negb] in Hrun.
  destruct (sorted_by_expected_points_desc_spec players
              (Spec.outfield_ids players bench_ids))
    as (sorted & Hsorted & Hperm & Hdesc & Hstable).
  { intros pid Hin. apply Hres. by apply list_elem_of_filter in Hin as [_ ?]. }
  rewrite Hsorted, inr_bind in Hrun. inversion Hrun; subst; clear Hrun.
  assert (Hlen : length sorted = 3%nat) by (by rewrite Hperm).
  destruct sorted as [|o2 [|o3 [|o4 [|? ?]]]]; try discriminate.
  by exists gk, o2, o3, o4.
Qed.

Lemma flag_dict_lookup (chosen : Z) (player_ids : list Z) (pid : Z) :
  Utils.flag_dict chosen player_ids !! pid
  = if decide (pid ∈ player_ids) then Some (if decide (pid = chosen) then 1 else 0)
    else None.
Proof.
  unfold Utils.flag_dict. induction player_ids as [|k ids IH]; cbn [map].
  - rewrite list_to_map_nil, lookup_empty.
    destruct (decide (pid ∈ [])) as [Hin|]; [by apply elem_of_nil in Hin | done].
  - rewrite list_to_map_cons. cbn [fst snd].
    destruct (decide (pid = k)) as [->|Hne].
    + rewrite lookup_insert_eq.
      destruct (decide (k ∈ k :: ids)) as [|Hnin]; [done|]. destruct Hnin. left.
    + rewrite lookup_insert_ne by done. rewrite IH.
      destruct (decide (pid ∈ ids)) as [Hin|Hnin], (decide (pid ∈ k :: ids)) as [Hin'|Hnin'];
        try done.
      * destruct Hnin'. by right.
      * apply elem_of_cons in Hin' as [?|?]; done.
Qed.

(** The parts of a post-hoc assignment that was computed. *)
Lemma post_hoc_assignments_inr (players : gmap Z Row) (player_ids : list Z)
    (x_star y_star c_star : list (Z * Z)) (sol : Utils.PostHoc) :
  Utils.post_hoc_assignments players player_ids x_star y_star c_star = inr sol →
  ∃ captain vice gk o2 o3 o4,
    head (Utils.selected c_star) = Some captain
    ∧ Utils.select_vice_captain players x_star c_star player_ids = inr vice
    ∧ Utils.assign_bench_positions players
        (filter (λ pid, pid ∉ Utils.selected x_star) (Utils.selected y_star))
      = inr [gk; o2; o3; o4]
    ∧ sol = Utils.mkPostHoc (Utils.flag_dict vice player_ids)
              (Utils.flag_dict gk player_ids) (Utils.flag_dict o2 player_ids)
              (Utils.flag_dict o3 player_ids) (Utils.flag_dict o4 player_ids).
Proof.
  unfold Utils.post_hoc_assignments.
  intros (captain & Hcap%list_getitem_inr & H)%bind_inr.
  apply bind_inr in H as (vice & Hvice & H).
  apply bind_inr in H as (order & Horder & H).
  destruct (assign_bench_positions_inr _ _ _ Horder)
    as (_ & gk & o2 & o3 & o4 & -> & _).
  cbn in H. inversion H; subst; clear H.
  exists captain, vice, gk, o2, o3, o4. split; [|done].
  by rewrite <- head_lookup in Hcap.
Qed.

Lemma process_post_gw1_solution_inr (players_df : DataFrame)
    (x_star y_star c_star : list (Z * Z)) (sol : Utils.PostHoc) :
  Utils.process_post_gw1_solution players_df x_star y_star c_star = inr sol →
  NoDup (map player_id players_df)
  ∧ Utils.post_hoc_assignments (rows_by_id players_df) (map player_id players_df)
      x_star y_star c_star = inr sol.
Proof.
  unfold Utils.process_post_gw1_solution.
  destruct (duplicated_any players_df); [discriminate|].
  by intros (players & [Hnd ->]%to_dict_index_inr & H)%bind_inr.
Qed.

Lemma items_getitem_elem (d : list (Z * Z)) (k val : Z) :
  Utils.items_getitem d k = inr val → (k, val) ∈ d.
Proof.
  induction d as [|[k' val'] d IH]; cbn [Utils.items_getitem]; [discriminate|].
  destruct (decide (k' = k)) as [->|Hne].
  - intros Heq. inversion Heq; subst. left.
  - intros H. right. by apply IH.
Qed.

Lemma items_getitem_NoDup (d : list (Z * Z)) (k val : Z) :
  NoDup (map fst d) → (k, val) ∈ d → Utils.items_getitem d k = inr val.
Proof.
  induction d as [|[k' val'] d IH]; cbn [Utils.items_getitem map fst].
  - intros _ H. by apply elem_of_nil in H.
  - intros [Hk' Hnd]%NoDup_cons [Heq|Hin]%elem_of_cons.
    + injection Heq as -> ->. by rewrite decide_True.
    + destruct (decide (k' = k)) as [->|Hne]; [|by apply IH].
      destruct Hk'. apply list_elem_of_fmap. by exists (k, val).
Qed.

Lemma elem_of_selected (d : list (Z * Z)) (k : Z) :
  k ∈ Utils.selected d ↔ (k, 1) ∈ d.
Proof.
  unfold Utils.selected. rewrite list_elem_of_fmap. split.
  - intros ([k' val] & -> & [Hval Hin]%list_elem_of_filter). cbn in *. by subst.
  - intros Hin. exists (k, 1). split; [done|]. by apply list_elem_of_filter.
Qed.

Lemma rows_by_id_Some (df : DataFrame) (pid : Z) (r : Row) :
  rows_by_id df !! pid = Some r → r ∈ df ∧ player_id r = pid.
Proof.
  unfold rows_by_id. intros Hin%elem_of_list_to_map_2.
  apply list_elem_of_fmap in Hin as (r' & Heq & Hr'). by injection Heq as -> ->.
Qed.

Lemma rows_by_id_head (df : DataFrame) (pid : Z) (r : Row) :
  NoDup (map player_id df) → rows_by_id df !! pid = Some r →
  head (with_id pid df) = Some r.
Proof.
  intros Hnd Hlook. destruct (rows_by_id_Some _ _ _ Hlook) as [Hr <-].
  destruct (with_id_head (player_id r) df) as (r' & Hhead & Hr' & Hid).
  { apply list_elem_of_fmap. by exists r. }
  rewrite Hhead. f_equal.
  pose proof (rows_by_id_lookup _ _ Hnd Hr') as Hlook'. rewrite Hid in Hlook'. congruence.
Qed.

(** A bench whose ids are all in the table splits into its GKs and the
    others. *)
Lemma bench_split (players : gmap Z Row) (bench_ids : list Z) :
  (∀ pid, pid ∈ bench_ids → is_Some (players !! pid)) →
  bench_ids ≡ₚ Spec.gk_ids players bench_ids ++ Spec.outfield_ids players bench_ids.
Proof.
  unfold Spec.gk_ids, Spec.outfield_ids.
  induction bench_ids as [|pid ids IH]; intros Hres; [done|].
  destruct (Hres pid) as [p Hp]; [left|].
  specialize (IH (λ pid' Hin, Hres pid' (list_elem_of_further _ _ _ Hin))).
  rewrite !filter_cons, Hp. cbn [fmap option_fmap option_map].
  destruct (decide (position p = GK)) as [Hgk|Hout].
  - rewrite decide_True by (by rewrite Hgk).
    rewrite decide_False by (intros [_ Hne]; by rewrite Hgk in Hne).
    cbn [app]. by rewrite <- IH.
  - rewrite decide_False by (intros [= ?]; done).
    rewrite decide_True by (split; [by eexists | intros [= ?]; done]).
    rewrite <- Permutation_middle. by rewrite <- IH.
Qed.

(** X19: the vice-captain the optimiser assigns.  When
    [process_post_gw1_solution] returns, the player flagged in ['v'] is a
    starter who is not the captain, no such player has more expected
    points, and those before it in the table have strictly less: of
    several best candidates the first in table order is taken. *)
Theorem vice_captain_is_first_best :
  ∀ (players_df : DataFrame) (x_star y_star c_star : list (Z * Z)) (sol : Utils.PostHoc),
    Utils.process_post_gw1_solution players_df x_star y_star c_star = inr sol →
    ∃ (i : nat) (vice : Row),
      players_df !! i = Some vice
      ∧ Utils.items_getitem x_star (player_id vice) = inr 1
      ∧ Utils.items_getitem c_star (player_id vice) = inr 0
      ∧ (∀ r, r ∈ players_df →
           Utils.v sol !! player_id r
           = Some (if decide (player_id r = player_id vice) then 1 else 0))
      ∧ (∀ (j : nat) r, players_df !! j = Some r →
           Utils.items_getitem x_star (player_id r) = inr 1 →
           Utils.items_getitem c_star (player_id r) = inr 0 →
           (expected_points r <= expected_points vice)%Q
           ∧ ((j < i)%nat → (expected_points r < expected_points vice)%Q)).
Proof.
  intros players_df x_star y_star c_star sol [Hnd Hpost]%process_post_gw1_solution_inr.
  destruct (post_hoc_assignments_inr _ _ _ _ _ _ Hpost)
    as (captain & w & gk & o2 & o3 & o4 & _ & Hvice & _ & ->).
  destruct (select_vice_captain_inr _ _ _ _ _ Hvice)
    as (i & key & Hi & (Hx & Hc & p & Hp & <-) & Hlt & Hle).
  rewrite list_lookup_fmap in Hi.
  destruct (players_df !! i) as [vice|] eqn:Hrow; [|discriminate].
  cbn in Hi. injection Hi as <-.
  pose proof (list_elem_of_lookup_2 _ _ _ Hrow) as Hin.
  rewrite (rows_by_id_lookup _ _ Hnd Hin) in Hp. injection Hp as <-.
  exists i, vice. split; [done|]. split; [done|]. split; [done|]. split.
  - intros r Hr. cbn [Utils.v]. rewrite flag_dict_lookup.
    rewrite decide_True; [done|]. apply list_elem_of_fmap. by exists r.
  - intros j r Hj Hxr Hcr.
    assert (Hcand : Spec.candidate (rows_by_id players_df) x_star c_star
                      (player_id r) (expected_points r)).
    { split; [done|]. split; [done|]. exists r. split; [|done].
      apply rows_by_id_lookup; [done|]. by eapply list_elem_of_lookup_2. }
    assert (Hjid : map player_id players_df !! j = Some (player_id r)).
    { by rewrite list_lookup_fmap, Hj. }
    destruct (lt_eq_lt_dec j i) as [[Hlti| ->]|Hgt].
    + pose proof (Hlt j _ _ Hlti Hjid Hcand) as Hstrict.
      split; [by apply Qlt_le_weak | done].
    + assert (r = vice) as -> by congruence. split; [apply Qle_refl | lia].
    + split; [|lia]. by apply (Hle j _ _ Hgt Hjid).
Qed.

Lemma vice_captain_is_first_best_witness :
  ∃ sol,
    Utils.process_post_gw1_solution Sample.gw_df Sample.x_star Sample.y_star Sample.c_star
    = inr sol
    ∧ Utils.v sol !! 13 = Some 1.
Proof.
  destruct (Utils.process_post_gw1_solution Sample.gw_df Sample.x_star Sample.y_star
              Sample.c_star) as [e|sol] eqn:Hrun; [vm_compute in Hrun; discriminate|].
  exists sol. split; [reflexivity|].
  destruct (vice_captain_is_first_best _ _ _ _ _ Hrun)
    as (i & vice & Hi & Hx & Hc & Hflag & Hbest).
  destruct (Hbest 12%nat _ eq_refl eq_refl eq_refl) as [Hle Hlt].
  assert (Hid : player_id vice = 13).
  { do 16 (destruct i as [|i];
           [injection Hi as <-;
            first [reflexivity | vm_compute in Hx; discriminate Hx
                  | vm_compute in Hc; discriminate Hc
                  | exfalso; vm_compute in Hle; by apply Hle
                  | exfalso; assert (Hf := Hlt ltac:(lia)); vm_compute in Hf; discriminate Hf]|]).
    discriminate. }
  assert (H13 := Hflag (Sample.player 13 FWD "MCI" 100 8 90)
                   (list_elem_of_lookup_2 Sample.gw_df 12 _ eq_refl)).
  rewrite Hid in H13. exact H13.
Defined.

(** The bench behind a post-hoc assignment: four rows of the table. *)
Lemma post_hoc_bench (players_df : DataFrame) (bench_ids : list Z) (gk o2 o3 o4 : Z) :
  NoDup (map player_id players_df) →
  Utils.assign_bench_positions (rows_by_id players_df) bench_ids = inr [gk; o2; o3; o4] →
  ∃ r1 r2 r3 r4 : Row,
    (r1 ∈ players_df ∧ r2 ∈ players_df ∧ r3 ∈ players_df ∧ r4 ∈ players_df)
    ∧ (player_id r1 = gk ∧ player_id r2 = o2 ∧ player_id r3 = o3 ∧ player_id r4 = o4)
    ∧ bench_ids ≡ₚ [gk; o2; o3; o4]
    ∧ position r1 = GK ∧ position r2 ≠ GK ∧ position r3 ≠ GK ∧ position r4 ≠ GK
    ∧ (expected_points r3 <= expected_points r2)%Q
    ∧ (expected_points r4 <= expected_points r3)%Q.
Proof.
  intros Hnd (Hres & gk' & o2' & o3' & o4' & Heq & Hgk & Hperm & Hsorted & _)%
    assign_bench_positions_inr.
  injection Heq as <- <- <- <-.
  assert (Hbench : bench_ids ≡ₚ [gk; o2; o3; o4]).
  { rewrite (bench_split _ _ Hres), Hgk, <- Hperm. done. }
  assert (Hgkin : gk ∈ Spec.gk_ids (rows_by_id players_df) bench_ids) by (rewrite Hgk; left).
  apply list_elem_of_filter in Hgkin as [Hgkpos _].
  assert (Hout : ∀ o, o ∈ [o2; o3; o4] →
            ∃ r, rows_by_id players_df !! o = Some r ∧ position r ≠ GK).
  { intros o Ho. rewrite Hperm in Ho. apply list_elem_of_filter in Ho as [[[r Hr] Hne] _].
    exists r. split; [done|]. intros Hpos. apply Hne. by rewrite Hr, <- Hpos. }
  destruct (rows_by_id players_df !! gk) as [r1|] eqn:H1; [|discriminate].
  destruct (Hout o2) as (r2 & H2 & Hp2); [set_solver|].
  destruct (Hout o3) as (r3 & H3 & Hp3); [set_solver|].
  destruct (Hout o4) as (r4 & H4 & Hp4); [set_solver|].
  destruct (rows_by_id_Some _ _ _ H1) as [Hin1 Hid1].
  destruct (rows_by_id_Some _ _ _ H2) as [Hin2 Hid2].
  destruct (rows_by_id_Some _ _ _ H3) as [Hin3 Hid3].
  destruct (rows_by_id_Some _ _ _ H4) as [Hin4 Hid4].
  exists r1, r2, r3, r4. split; [done|]. split; [done|]. split; [done|].
  split; [by injection Hgkpos|]. split; [done|]. split; [done|]. split; [done|].
  apply StronglySorted_inv in Hsorted as [Hsorted H234].
  apply StronglySorted_inv in Hsorted as [_ H34].
  apply Forall_cons in H234 as [H23 _]. apply Forall_cons in H34 as [H34 _].
  unfold Spec.expected_points_of in H23, H34. rewrite H2, H3 in H23. rewrite H3, H4 in H34.
  done.
Qed.

(** X20: the bench the optimiser assigns.  When
    [process_post_gw1_solution] returns, the squad members who do not
    start are four players of the table: one GK, flagged in ['b1'], and
    three others, flagged in ['b2'], ['b3'] and ['b4'] by descending
    expected points; every other player of the table has flag 0. *)
Theorem bench_flags_follow_bench_order :
  ∀ (players_df : DataFrame) (x_star y_star c_star : list (Z * Z)) (sol : Utils.PostHoc),
    Utils.process_post_gw1_solution players_df x_star y_star c_star = inr sol →
    ∃ r1 r2 r3 r4 : Row,
      (r1 ∈ players_df ∧ r2 ∈ players_df ∧ r3 ∈ players_df ∧ r4 ∈ players_df)
      ∧ filter (λ pid, pid ∉ Utils.selected x_star) (Utils.selected y_star)
        ≡ₚ map player_id [r1; r2; r3; r4]
      ∧ position r1 = GK ∧ position r2 ≠ GK ∧ position r3 ≠ GK ∧ position r4 ≠ GK
      ∧ (expected_points r3 <= expected_points r2)%Q
      ∧ (expected_points r4 <= expected_points r3)%Q
      ∧ ∀ r, r ∈ players_df →
          Utils.b1 sol !! player_id r
          = Some (if decide (player_id r = player_id r1) then 1 else 0)
          ∧ Utils.b2 sol !! player_id r
            = Some (if decide (player_id r = player_id r2) then 1 else 0)
          ∧ Utils.b3 sol !! player_id r
            = Some (if decide (player_id r = player_id r3) then 1 else 0)
          ∧ Utils.b4 sol !! player_id r
            = Some (if decide (player_id r = player_id r4) then 1 else 0).
Proof.
  intros players_df x_star y_star c_star sol [Hnd Hpost]%process_post_gw1_solution_inr.
  destruct (post_hoc_assignments_inr _ _ _ _ _ _ Hpost)
    as (captain & w & gk & o2 & o3 & o4 & _ & _ & Hbench & ->).
  destruct (post_hoc_bench _ _ _ _ _ _ Hnd Hbench)
    as (r1 & r2 & r3 & r4 & Hin & (<- & <- & <- & <-) & Hperm & Hpos).
  exists r1, r2, r3, r4. split; [done|]. split; [done|].
  destruct Hpos as (? & ? & ? & ? & ? & ?). do 6 (split; [done|]).
  intros r Hr. cbn [Utils.b1 Utils.b2 Utils.b3 Utils.b4].
  rewrite !flag_dict_lookup.
  destruct (decide (player_id r ∈ map player_id players_df)) as [|Hnot]; [done|].
  destruct Hnot. apply list_elem_of_fmap. by exists r.
Qed.

Lemma bench_flags_follow_bench_order_witness :
  ∃ sol,
    Utils.process_post_gw1_solution Sample.gw_df Sample.x_star Sample.y_star Sample.c_star
    = inr sol
    ∧ ∃ r1, position r1 = GK ∧ Utils.b1 sol !! player_id r1 = Some 1.
Proof.
  destruct (Utils.process_post_gw1_solution Sample.gw_df Sample.x_star Sample.y_star
              Sample.c_star) as [e|sol] eqn:Hrun; [vm_compute in Hrun; discriminate|].
  exists sol. split; [reflexivity|].
  destruct (bench_flags_follow_bench_order _ _ _ _ _ Hrun)
    as (r1 & r2 & r3 & r4 & (Hin1 & _) & _ & Hgk & _ & _ & _ & _ & _ & Hflags).
  exists r1. split; [exact Hgk|].
  destruct (Hflags r1 Hin1) as [H1 _]. by rewrite decide_True in H1.
Defined.

(** ** Assigned roles and validation *)

(** The conditions under which a team is accepted. *)
Lemma validate_team_accepts gw_df squad_ids starter_ids bench_ids captain_id vice_id :
  length squad_ids = 15%nat →
  (position_count (isin squad_ids gw_df) GK = 2%nat
   ∧ position_count (isin squad_ids gw_df) DEF = 5%nat
   ∧ position_count (isin squad_ids gw_df) MID = 5%nat
   ∧ position_count (isin squad_ids gw_df) FWD = 3%nat) →
  (∀ club, (length (filter (λ r, team r = club) (isin squad_ids gw_df)) ≤ 3)%nat) →
  length starter_ids = 11%nat →
  (position_count (isin starter_ids gw_df) GK = 1%nat
   ∧ (3 ≤ position_count (isin starter_ids gw_df) DEF ≤ 5)%nat
   ∧ (2 ≤ position_count (isin starter_ids gw_df) MID ≤ 5)%nat
   ∧ (1 ≤ position_count (isin starter_ids gw_df) FWD ≤ 3)%nat) →
  dom bench_ids = ({[1; 2; 3; 4]} : gset Z) →
  (∃ b, Spec.bench_player gw_df bench_ids 1 b ∧ position b = GK) →
  (∀ pos, pos ∈ [2; 3; 4] →
     ∃ b, Spec.bench_player gw_df bench_ids pos b ∧ position b ≠ GK) →
  captain_id ≠ vice_id → captain_id ∈ starter_ids → vice_id ∈ starter_ids →
  Validator.validate_team gw_df squad_ids starter_ids bench_ids captain_id vice_id
  = inr Valid.
Proof.
  intros Hsize Hquota Hclub Hstarters Hformation Hkeys Hgk Hout Hne Hcap Hvice.
  rewrite validate_team_run_checks. apply run_checks_all_pass.
  intros c Hc. unfold Spec.team_checks in Hc.
  repeat (apply elem_of_cons in Hc as [->|Hc]); [..|by apply elem_of_nil in Hc].
  - unfold Spec.check_squad_size. by rewrite decide_True.
  - by apply check_squad_quota_passes.
  - by apply check_club_limit_passes.
  - unfold Spec.check_starters_size. by rewrite decide_True.
  - by apply check_starter_formation_passes.
  - unfold Spec.check_bench_keys. by rewrite decide_True.
  - by apply check_bench_gk_passes.
  - by apply check_bench_outfield_passes.
  - unfold Spec.check_captain_not_vice. by rewrite decide_False.
  - unfold Spec.check_captain_starts. by rewrite decide_True.
  - unfold Spec.check_vice_starts. by rewrite decide_True.
Qed.

(** X21: the roles the optimiser assigns pass validation.  Take a
    solution for which [process_post_gw1_solution] returns, with a squad
    of 15 in quota and within the club limit, 11 starters in a legal
    formation, and a captain among the starters.  Then the team with
    the flagged vice-captain and the flagged bench, in slots 1 to 4, is
    accepted by [validate_team] on the same table. *)
Theorem assigned_roles_pass_validation :
  ∀ (players_df : DataFrame) (x_star y_star c_star : list (Z * Z)) (sol : Utils.PostHoc),
    Utils.process_post_gw1_solution players_df x_star y_star c_star = inr sol →
    NoDup (map fst c_star) →
    length (Utils.selected y_star) = 15%nat →
    (position_count (isin (Utils.selected y_star) players_df) GK = 2%nat
     ∧ position_count (isin (Utils.selected y_star) players_df) DEF = 5%nat
     ∧ position_count (isin (Utils.selected y_star) players_df) MID = 5%nat
     ∧ position_count (isin (Utils.selected y_star) players_df) FWD = 3%nat) →
    (∀ club, (length (filter (λ r, team r = club)
                        (isin (Utils.selected y_star) players_df)) ≤ 3)%nat) →
    length (Utils.selected x_star) = 11%nat →
    (position_count (isin (Utils.selected x_star) players_df) GK = 1%nat
     ∧ (3 ≤ position_count (isin (Utils.selected x_star) players_df) DEF ≤ 5)%nat
     ∧ (2 ≤ position_count (isin (Utils.selected x_star) players_df) MID ≤ 5)%nat
     ∧ (1 ≤ position_count (isin (Utils.selected x_star) players_df) FWD ≤ 3)%nat) →
    (∀ captain, head (Utils.selected c_star) = Some captain →
       captain ∈ Utils.selected x_star) →
    ∃ captain vice gk o2 o3 o4 : Z,
      head (Utils.selected c_star) = Some captain
      ∧ Utils.v sol !! vice = Some 1
      ∧ Utils.b1 sol !! gk = Some 1 ∧ Utils.b2 sol !! o2 = Some 1
      ∧ Utils.b3 sol !! o3 = Some 1 ∧ Utils.b4 sol !! o4 = Some 1
      ∧ Validator.validate_team players_df (Utils.selected y_star) (Utils.selected x_star)
          (<[1 := gk]> (<[2 := o2]> (<[3 := o3]> (<[4 := o4]> ∅)))) captain vice
        = inr Valid.
Proof.
  intros players_df x_star y_star c_star sol [Hnd Hpost]%process_post_gw1_solution_inr
    Hkeys Hsize Hquota Hclub Hstarters Hformation Hcaptain.
  destruct (post_hoc_assignments_inr _ _ _ _ _ _ Hpost)
    as (captain & vice & gk & o2 & o3 & o4 & Hhead & Hvice & Hbench & ->).
  destruct (select_vice_captain_inr _ _ _ _ _ Hvice)
    as (i & key & Hi & (Hx & Hc & _) & _).
  destruct (post_hoc_bench _ _ _ _ _ _ Hnd Hbench)
    as (r1 & r2 & r3 & r4 & (Hin1 & Hin2 & Hin3 & Hin4) & (Hid1 & Hid2 & Hid3 & Hid4)
        & _ & Hp1 & Hp2 & Hp3 & Hp4 & _).
  assert (Hflag : ∀ pid, pid ∈ map player_id players_df →
            Utils.flag_dict pid (map player_id players_df) !! pid = Some 1).
  { intros pid Hpid. rewrite flag_dict_lookup, decide_True by done.
    by rewrite decide_True. }
  assert (Hrow : ∀ r, r ∈ players_df → player_id r ∈ map player_id players_df).
  { intros r Hr. apply list_elem_of_fmap. by exists r. }
  assert (Hhd : ∀ r, r ∈ players_df → head (with_id (player_id r) players_df) = Some r).
  { intros r Hr. by apply rows_by_id_head, rows_by_id_lookup. }
  exists captain, vice, gk, o2, o3, o4. cbn [Utils.v Utils.b1 Utils.b2 Utils.b3 Utils.b4].
  split; [done|]. split; [apply Hflag; by eapply list_elem_of_lookup_2|].
  split; [rewrite <- Hid1; by apply Hflag, Hrow|].
  split; [rewrite <- Hid2; by apply Hflag, Hrow|].
  split; [rewrite <- Hid3; by apply Hflag, Hrow|].
  split; [rewrite <- Hid4; by apply Hflag, Hrow|].
  apply validate_team_accepts; try done.
  - exists r1. split; [|done]. exists gk. split; [by rewrite lookup_insert_eq|].
    rewrite <- Hid1. by apply Hhd.
  - intros pos Hpos. repeat (apply elem_of_cons in Hpos as [->|Hpos]);
      [..|by apply elem_of_nil in Hpos].
    + exists r2. split; [|done]. exists o2. split; [done|]. rewrite <- Hid2. by apply Hhd.
    + exists r3. split; [|done]. exists o3. split; [done|]. rewrite <- Hid3. by apply Hhd.
    + exists r4. split; [|done]. exists o4. split; [done|]. rewrite <- Hid4. by apply Hhd.
  - intros ->.
    assert (Hcap1 : Utils.items_getitem c_star vice = inr 1).
    { apply items_getitem_NoDup; [done|]. apply elem_of_selected.
      destruct (Utils.selected c_star) as [|c0 cs]; [discriminate|].
      injection Hhead as ->. left. }
    congruence.
  - by apply Hcaptain.
  - by apply elem_of_selected, items_getitem_elem.
Qed.

Lemma assigned_roles_pass_validation_witness :
  ∃ vice gk o2 o3 o4 : Z,
    Validator.validate_team Sample.gw_df (Utils.selected Sample.y_star)
      (Utils.selected Sample.x_star)
      (<[1 := gk]> (<[2 := o2]> (<[3 := o3]> (<[4 := o4]> ∅)))) 9 vice
    = inr Valid.
Proof.
  destruct (Utils.process_post_gw1_solution Sample.gw_df Sample.x_star Sample.y_star
              Sample.c_star) as [e|sol] eqn:Hrun; [vm_compute in Hrun; discriminate|].
  destruct (assigned_roles_pass_validation _ _ _ _ _ Hrun)
    as (captain & vice & gk & o2 & o3 & o4 & Hhead & _ & _ & _ & _ & _ & Hvalid).
  - apply (bool_decide_unpack _). vm_compute. exact I.
  - reflexivity.
  - vm_compute. done.
  - apply check_club_limit_passes. vm_compute. reflexivity.
  - reflexivity.
  - vm_compute. repeat split; lia.
  - intros captain Hhead. vm_compute in Hhead. injection Hhead as <-.
    apply (bool_decide_unpack _). vm_compute. exact I.
  - vm_compute in Hhead. injection Hhead as <-. by exists vice, gk, o2, o3, o4.
Defined.

(** ** Before and after gameweek 1 *)


